(** * studip-sync: a shallow embedding of [studip_sync.py]

    The program downloads one zip archive per configured course through a
    browser session, unpacks each archive into a scratch directory, tidies
    the unpacked tree and finally merges the scratch tree into the
    destination with [rsync].

    The embedding follows the Python source function by function.  The file
    system is a tree of named entries, Python exceptions are the values of
    [exn], and a statement that can raise is a state transformer returning
    the new state together with [Ok v] or [Raise e] (the state reached when
    the exception left the statement is kept, as in Python).  What the
    program asks of its surroundings (the portal, the browser driver, the
    clock, [rsync]) is collected in the record [env]. *)

From Stdlib Require Import List String Ascii Bool Arith Lia.
Import ListNotations.
Set Warnings "-register-all".
Open Scope string_scope.
Open Scope list_scope.

(** ** Exceptions and results *)

(** The exception classes the program defines ([DownloadError],
    [ExtractionError]) and the library exceptions its calls can raise. *)
Inductive exn : Type :=
| DownloadError (msg : string)
| ExtractionError (msg : string)
| BadZipFile
| FileNotFoundError
| NotADirectoryError
| IsADirectoryError
| FileExistsError
| DirectoryNotEmpty            (* OSError, errno ENOTEMPTY *)
| ShutilError                  (* shutil.Error *)
| RecursionError
| NoSuchElementException
| TimeoutException
| WebDriverException
| ConnectionError              (* requests.exceptions.ConnectionError *)
| SystemExit (code : nat)
| OtherError (name : string).

Inductive result (A : Type) : Type :=
| Ok (a : A)
| Raise (e : exn).
Arguments Ok {A} a.
Arguments Raise {A} e.

(** Statements over a state [S]. *)
Definition M (S A : Type) : Type := S -> S * result A.

Definition ret {S A} (a : A) : M S A := fun s => (s, Ok a).
Definition raise {S A} (e : exn) : M S A := fun s => (s, Raise e).
Definition bind {S A B} (m : M S A) (k : A -> M S B) : M S B :=
  fun s => match m s with
           | (s1, Ok a) => k a s1
           | (s1, Raise e) => (s1, Raise e)
           end.

Declare Scope py_scope.
Delimit Scope py_scope with py.
Notation "x <- m ;; k" := (bind m (fun x => k))
  (at level 100, m at next level, right associativity) : py_scope.
Notation "m ;;; k" := (bind m (fun _ => k))
  (at level 100, right associativity) : py_scope.
Open Scope py_scope.

(** [for x in xs: body x] *)
Fixpoint for_each {S A} (xs : list A) (body : A -> M S unit) : M S unit :=
  match xs with
  | [] => ret tt
  | x :: r => body x ;;; for_each r body
  end.

(** [try: m except ...: h]: [h e] is the handler of the first [except]
    clause that matches [e], or [None] when no clause does. *)
Definition try_except {S A} (m : M S A) (h : exn -> option (M S A)) : M S A :=
  fun s => match m s with
           | (s1, Ok a) => (s1, Ok a)
           | (s1, Raise e) => match h e with
                              | Some handler => handler s1
                              | None => (s1, Raise e)
                              end
           end.

(** A statement on a component of the state, through a getter and a setter. *)
Definition zoom {S T A} (get : S -> T) (set : T -> S -> S) (m : M T A) : M S A :=
  fun s => let '(t, r) := m (get s) in (set t s, r).

(** ** The file system *)

Module Fs.

(** A path is the list of its components, from the root. *)
Definition path : Type := list string.

(** [os.path.join] of a directory and a relative path. *)
Definition join (d p : path) : path := d ++ p.

(** Strings and paths.  [components s] are the parts of [s] between
    slashes, without the empty and the [.] parts (a part [..] is not
    resolved: the strings the program joins are taken to hold none);
    [os_path_join] of a directory and a string keeps the directory unless
    the string starts with a slash. *)
Fixpoint split_slash (s acc : string) : list string :=
  match s with
  | EmptyString => [acc]
  | String c r =>
      if Ascii.eqb c "/"%char then acc :: split_slash r ""
      else split_slash r (acc ++ String c "")%string
  end.

Definition components (s : string) : path :=
  filter (fun x => negb (String.eqb x "") && negb (String.eqb x ".")) (split_slash s "").

Definition is_absolute (s : string) : bool :=
  match s with
  | String c _ => Ascii.eqb c "/"%char
  | EmptyString => false
  end.

Definition os_path_join (d : path) (s : string) : path :=
  if is_absolute s then components s else join d (components s).

(** The string of an absolute path, as it goes into messages and command
    lines. *)
Definition path_str (p : path) : string := ("/" ++ String.concat "/" p)%string.

(** An entry of a zip archive, as [zipfile] presents it: the name its
    [ZipInfo] holds (a name that ends with a slash is a directory) and
    what unpacking its data does. *)
Inductive member_read : Type :=
| ReadOk (data : string)     (* the entry unpacks to [data] *)
| ReadBadZip                 (* [ZipFile.open] raises BadZipFile: bad local header *)
| ReadError (name : string)  (* [ZipFile.open] raises another exception, e.g.
                                NotImplementedError or RuntimeError *)
| ReadBadCrc (written : string)
                             (* the copy raises BadZipFile (bad CRC-32) once
                                [written] has reached the target *)
| ReadBroken (written : string) (name : string).
                             (* the copy raises another exception, e.g.
                                zlib.error, once [written] has reached the
                                target *)

Record member : Type := { filename : string; payload : member_read }.

(** The entry of a regular file and the entry of a directory. *)
Definition MFile (name : string) (r : member_read) : member :=
  {| filename := name; payload := r |}.

Definition MDir (name : string) : member :=
  {| filename := (name ++ "/")%string; payload := ReadOk "" |}.

(** The bytes of a regular file, seen through [zipfile.ZipFile]: either
    they have no zip directory ([Bytes]), or they list members. *)
Inductive content : Type :=
| Bytes (s : string)
| ZipBytes (members : list member).

Inductive node : Type :=
| File (c : content)
| Dir (entries : list (string * node)).

(** Directory entries: lookup, in-place replacement (a new name goes to the
    end) and removal. *)
Fixpoint assoc {A} (k : string) (es : list (string * A)) : option A :=
  match es with
  | [] => None
  | (k', v) :: r => if String.eqb k k' then Some v else assoc k r
  end.

Fixpoint assoc_set {A} (k : string) (v : A) (es : list (string * A)) : list (string * A) :=
  match es with
  | [] => [(k, v)]
  | (k', v') :: r =>
      if String.eqb k k' then (k', v) :: r else (k', v') :: assoc_set k v r
  end.

Fixpoint assoc_del {A} (k : string) (es : list (string * A)) : list (string * A) :=
  match es with
  | [] => []
  | (k', v') :: r =>
      if String.eqb k k' then assoc_del k r else (k', v') :: assoc_del k r
  end.

Fixpoint lookup (p : path) (n : node) {struct p} : option node :=
  match p with
  | [] => Some n
  | x :: q =>
      match n with
      | Dir es => match assoc x es with
                  | Some c => lookup q c
                  | None => None
                  end
      | File _ => None
      end
  end.

(** [put p v n]: the tree [n] with the entry at [p] replaced by [v]
    ([None] removes it).  Nothing changes when the parent of [p] is not a
    directory of [n], or when [p] is the root. *)
Fixpoint put (p : path) (v : option node) (n : node) {struct p} : node :=
  match p, n with
  | x :: q, Dir es =>
      match q with
      | [] => Dir (match v with
                   | Some c => assoc_set x c es
                   | None => assoc_del x es
                   end)
      | _ :: _ => match assoc x es with
                  | Some c => Dir (assoc_set x (put q v c) es)
                  | None => n
                  end
      end
  | _, _ => n
  end.

Definition exists_ (p : path) (fs : node) : bool :=
  match lookup p fs with Some _ => true | None => false end.

Definition isdir (p : path) (fs : node) : bool :=
  match lookup p fs with Some (Dir _) => true | _ => false end.

Definition is_dir_node (n : node) : bool :=
  match n with Dir _ => true | File _ => false end.

(** [os.listdir] *)
Definition listdir (p : path) : M node (list string) :=
  fun fs => match lookup p fs with
            | Some (Dir es) => (fs, Ok (map fst es))
            | Some (File _) => (fs, Raise NotADirectoryError)
            | None => (fs, Raise FileNotFoundError)
            end.

(** [os.rmdir] *)
Definition rmdir (p : path) : M node unit :=
  fun fs => match lookup p fs with
            | Some (Dir []) =>
                match p with
                | [] => (fs, Raise (OtherError "OSError"))
                | _ :: _ => (put p None fs, Ok tt)
                end
            | Some (Dir (_ :: _)) => (fs, Raise DirectoryNotEmpty)
            | Some (File _) => (fs, Raise NotADirectoryError)
            | None => (fs, Raise FileNotFoundError)
            end.

(** [os.mkdir]: the parent has to be a directory, the name has to be free. *)
Definition mkdir (p : path) : M node unit :=
  fun fs => match lookup p fs with
            | Some _ => (fs, Raise FileExistsError)
            | None =>
                match lookup (removelast p) fs with
                | Some (Dir _) => (put p (Some (Dir [])) fs, Ok tt)
                | Some (File _) => (fs, Raise NotADirectoryError)
                | None => (fs, Raise FileNotFoundError)
                end
            end.

(** The directories of [os.makedirs]: every missing component of [p] is
    created; a regular file on the way is an error. *)
Fixpoint mkdir_p (p : path) (n : node) {struct p} : result node :=
  match n, p with
  | Dir _, [] => Ok n
  | File _, [] => Raise FileExistsError
  | File _, _ :: _ => Raise NotADirectoryError
  | Dir es, x :: q =>
      match mkdir_p q (match assoc x es with Some c => c | None => Dir [] end) with
      | Ok c => Ok (Dir (assoc_set x c es))
      | Raise e => Raise e
      end
  end.

(** [os.makedirs(p)] and [os.makedirs(p, exist_ok=True)] *)
Definition makedirs (exist_ok : bool) (p : path) : M node unit :=
  fun fs => if negb exist_ok && exists_ p fs then (fs, Raise FileExistsError)
            else match mkdir_p p fs with
                 | Ok fs' => (fs', Ok tt)
                 | Raise e => (fs, Raise e)
                 end.

(** [open(p, "wb")] followed by writing [c] and closing. *)
Definition write_file (p : path) (c : content) : M node unit :=
  fun fs => match lookup p fs with
            | Some (Dir _) => (fs, Raise IsADirectoryError)
            | _ =>
                match p, lookup (removelast p) fs with
                | _ :: _, Some (Dir _) => (put p (Some (File c)) fs, Ok tt)
                | _, Some (File _) => (fs, Raise NotADirectoryError)
                | _, _ => (fs, Raise FileNotFoundError)
                end
            end.

(** [shutil.rmtree] *)
Definition rmtree (p : path) : M node unit :=
  fun fs => match lookup p fs, p with
            | Some (Dir _), _ :: _ => (put p None fs, Ok tt)
            | Some (Dir _), [] => (fs, Raise (OtherError "OSError"))
            | Some (File _), _ => (fs, Raise NotADirectoryError)
            | None, _ => (fs, Raise FileNotFoundError)
            end.

(** A name that [glob]'s [*] skips: one that starts with a dot. *)
Definition hidden (name : string) : bool :=
  match name with
  | String c _ => Ascii.eqb c "."%char
  | EmptyString => false
  end.

(** The characters that make a name a pattern for [glob]. *)
Fixpoint has_magic (s : string) : bool :=
  match s with
  | EmptyString => false
  | String c r =>
      Ascii.eqb c "*"%char || Ascii.eqb c "?"%char || Ascii.eqb c "["%char || has_magic r
  end.

(** [glob.iglob(os.path.join(d, "*"))] for a directory [d] whose path holds
    no pattern character: the entries of [d] that are not hidden, in
    directory order; nothing when [d] is not a directory.  (With one of
    [*], [?], [[] in a part of [d], [glob] would match that part against
    the names on the disk; that case is not modelled: what is proved of
    the flattening step is proved of directories without such
    characters.) *)
Definition glob_star (d : path) (fs : node) : list path :=
  match lookup d fs with
  | Some (Dir es) =>
      map (fun x => join d [x]) (filter (fun x => negb (hidden x)) (map fst es))
  | _ => []
  end.

(** [os.rename(src, dst)] for a [dst] that does not exist yet. *)
Definition rename (src dst : path) : M node unit :=
  fun fs => match lookup src fs, src with
            | Some n, _ :: _ =>
                match lookup (removelast dst) (put src None fs), dst with
                | Some (Dir _), _ :: _ => (put dst (Some n) (put src None fs), Ok tt)
                | Some (File _), _ => (fs, Raise NotADirectoryError)
                | _, _ => (fs, Raise FileNotFoundError)
                end
            | Some _, [] => (fs, Raise (OtherError "OSError"))
            | None, _ => (fs, Raise FileNotFoundError)
            end.

(** [shutil.move(src, dst)]: into [dst] when [dst] is a directory (an
    entry of the same name there is an error), onto [dst] otherwise. *)
Definition move (src dst : path) : M node unit :=
  fun fs =>
    if isdir dst fs then
      let real_dst := join dst [List.last src ""] in
      if exists_ real_dst fs then (fs, Raise ShutilError)
      else rename src real_dst fs
    else if exists_ dst fs then
      match lookup src fs with
      | Some (File c) => (put dst (Some (File c)) (put src None fs), Ok tt)
      | Some (Dir _) => (fs, Raise NotADirectoryError)
      | None => (fs, Raise FileNotFoundError)
      end
    else rename src dst fs.

(** The names of the sub-directories and of the other entries of a
    directory, as [os.walk] splits them. *)
Definition subdir_names (es : list (string * node)) : list string :=
  map fst (filter (fun e => is_dir_node (snd e)) es).

Definition file_names (es : list (string * node)) : list string :=
  map fst (filter (fun e => negb (is_dir_node (snd e))) es).

(** The height of a tree, an upper bound for the depth [os.walk] reaches. *)
Fixpoint height (n : node) : nat :=
  match n with
  | File _ => 0
  | Dir es =>
      S ((fix hs (l : list (string * node)) : nat :=
            match l with
            | [] => 0
            | (_, c) :: r => Nat.max (height c) (hs r)
            end) es)
  end.

(** Well-formed trees: within a directory no name occurs twice. *)
Fixpoint mem (x : string) (l : list string) : bool :=
  match l with
  | [] => false
  | y :: r => String.eqb x y || mem x r
  end.

Fixpoint nodupb (l : list string) : bool :=
  match l with
  | [] => true
  | x :: r => negb (mem x r) && nodupb r
  end.

Fixpoint wfb (n : node) : bool :=
  match n with
  | File _ => true
  | Dir es =>
      nodupb (map fst es) &&
      (fix all (l : list (string * node)) : bool :=
         match l with
         | [] => true
         | (_, c) :: r => wfb c && all r
         end) es
  end.

(** One top-down pass over a tree that drops the directories found empty
    on arrival and keeps everything else: [None] when the tree itself is an
    empty directory. *)
Fixpoint prune_topdown (n : node) : option node :=
  match n with
  | File _ => Some n
  | Dir [] => None
  | Dir es =>
      Some (Dir ((fix go (l : list (string * node)) : list (string * node) :=
                    match l with
                    | [] => []
                    | (x, c) :: r =>
                        match prune_topdown c with
                        | Some c' => (x, c') :: go r
                        | None => go r
                        end
                    end) es))
  end.

(** The list functions inside [wfb], [prune_topdown] and [height], by
    name. *)
Definition wfb_all (l : list (string * node)) : bool :=
  forallb (fun e => wfb (snd e)) l.

Fixpoint prune_entries (l : list (string * node)) : list (string * node) :=
  match l with
  | [] => []
  | (x, c) :: r =>
      match prune_topdown c with
      | Some c' => (x, c') :: prune_entries r
      | None => prune_entries r
      end
  end.

Definition height_all (l : list (string * node)) : nat :=
  fold_right (fun e m => Nat.max (height (snd e)) m) 0 l.

(** [lookup] below a tree that may be gone. *)
Definition olookup (q : path) (o : option node) : option node :=
  match o with
  | Some t => lookup q t
  | None => None
  end.

End Fs.

(** ** Unpacking: [zipfile.ZipFile] *)

Module Zip.
Import Fs.

(** [zipfile.ZipFile(archive_filename, "r")]: the members of the archive. *)
Definition ZipFile (archive_filename : path) : M node (list member) :=
  fun fs => match lookup archive_filename fs with
            | Some (File (ZipBytes ms)) => (fs, Ok ms)
            | Some (File (Bytes _)) => (fs, Raise BadZipFile)
            | Some (Dir _) => (fs, Raise IsADirectoryError)
            | None => (fs, Raise FileNotFoundError)
            end.

(** [ZipFile.namelist()] *)
Definition namelist (z : list member) : list string := map filename z.

(** [ZipFile.getinfo(name)].  [NameToInfo] is filled entry by entry, so of
    several entries of one name the last is the one it gives. *)
Fixpoint find_info (name : string) (z : list member) : option member :=
  match z with
  | [] => None
  | m :: r =>
      match find_info name r with
      | Some m' => Some m'
      | None => if String.eqb name (filename m) then Some m else None
      end
  end.

Definition getinfo (z : list member) (name : string) : M node member :=
  match find_info name z with
  | Some m => ret m
  | None => raise (OtherError "KeyError")
  end.

(** [ZipInfo.is_dir()]: [self.filename[-1] == '/'], an IndexError for the
    empty name. *)
Fixpoint last_char (s : string) : option ascii :=
  match s with
  | EmptyString => None
  | String c EmptyString => Some c
  | String _ r => last_char r
  end.

Definition is_dir (m : member) : M node bool :=
  match last_char (filename m) with
  | Some c => ret (Ascii.eqb c "/"%char)
  | None => raise (OtherError "IndexError")
  end.

(** The parts of the name of an entry that count for its place: the empty
    parts, [.] and [..] are dropped. *)
Definition arcname (name : string) : path :=
  filter (fun x => negb (String.eqb x "" || String.eqb x "." || String.eqb x ".."))
         (split_slash name "").

(** Where an entry goes:
    [os.path.normpath(os.path.join(targetpath, arcname))]. *)
Definition place (dest : path) (m : member) : path :=
  join dest (arcname (filename m)).

(** [ZipFile._extract_member] for an entry: the missing directories above
    the target are made; then a directory is made unless it is there, and
    the data of a file is opened in the archive, the target is opened for
    writing, and the data is copied. *)
Definition make_upperdirs (target : path) : M node unit :=
  let upperdirs := removelast target in
  fun fs => if exists_ upperdirs fs then (fs, Ok tt)
            else makedirs false upperdirs fs.

Definition copy_member (target : path) (r : member_read) : M node unit :=
  match r with
  | ReadBadZip => raise BadZipFile
  | ReadError name => raise (OtherError name)
  | ReadOk data => write_file target (Bytes data)
  | ReadBadCrc written => write_file target (Bytes written) ;;; raise BadZipFile
  | ReadBroken written name => write_file target (Bytes written) ;;; raise (OtherError name)
  end.

Definition write_member (target : path) (m : member) : M node unit :=
  d <- is_dir m ;;
  if d then fun fs => if isdir target fs then (fs, Ok tt) else mkdir target fs
  else copy_member target (payload m).

Definition extract_member (dest : path) (m : member) : M node unit :=
  let target := place dest m in
  make_upperdirs target ;;;
  write_member target m.

(** [ZipFile.extractall(dest)]: the names of [namelist()], each unpacked
    from the entry [getinfo] gives for it. *)
Definition extractall (dest : path) (z : list member) : M node unit :=
  for_each (namelist z)
    (fun name => m <- getinfo z name ;; extract_member dest m).

(** The entries [extractall] unpacks, in order. *)
Definition entries (z : list member) : list member :=
  flat_map (fun name => match find_info name z with
                        | Some m => [m]
                        | None => []
                        end)
           (namelist z).

End Zip.

(** ** [class Extractor] *)

Module Extractor.
Import Fs.

Record t : Type := { basedir : path }.

Definition is_nil {A} (l : list A) : bool :=
  match l with [] => true | _ :: _ => false end.

(** [Extractor.remove_intermediary_dir] *)
Definition remove_intermediary_dir (extracted_dir : path) : M node unit :=
  subdirs <- listdir extracted_dir ;;
  if Nat.eqb (List.length subdirs) 1 then
    let sub := join extracted_dir [List.hd "" subdirs] in
    (fun fs => for_each (glob_star sub fs)
                 (fun filename => move filename extracted_dir) fs) ;;;
    rmdir sub
  else ret tt.

(** The loop of [Extractor.remove_empty_dirs] over [os.walk(root)]: the
    directory is listed, the body runs on it, then the walk goes down into
    the sub-directories that were listed.  A [root] that cannot be listed
    ends the walk silently.  [fuel] bounds the depth. *)
Fixpoint walk_remove (fuel : nat) (root : path) {struct fuel} : M node unit :=
  match fuel with
  | 0 => raise RecursionError
  | S k =>
      fun fs =>
        match lookup root fs with
        | Some (Dir es) =>
            let dirs := subdir_names es in
            let files := file_names es in
            ((if is_nil dirs && is_nil files then rmdir root else ret tt) ;;;
             for_each dirs (fun d => walk_remove k (join root [d]))) fs
        | _ => (fs, Ok tt)
        end
  end.

(** [Extractor.remove_empty_dirs] *)
Definition remove_empty_dirs (directory : path) : M node unit :=
  fun fs => walk_remove (S (height fs)) directory fs.

(** The body of the [try] statement of [Extractor.extract]. *)
Definition extract_body (self : t) (archive_filename : path) (destination : string)
    (cleanup : bool) : M node path :=
  z <- Zip.ZipFile archive_filename ;;
  let destination := os_path_join (basedir self) destination in
  Zip.extractall destination z ;;;
  (if cleanup then
     remove_intermediary_dir destination ;;;
     remove_empty_dirs destination
   else ret tt) ;;;
  ret destination.

(** [Extractor.extract] *)
Definition extract (self : t) (archive_filename : path) (destination : string)
    (cleanup : bool) : M node path :=
  try_except
    (extract_body self archive_filename destination cleanup)
    (fun e => match e with
              | BadZipFile =>
                  Some (raise (ExtractionError
                                 ("Cannot extract file: " ++ path_str archive_filename)%string))
              | _ => None
              end).

(** The statements of [extract] up to the flattening step, taken alone:
    the state they leave is the one the pruning step starts from. *)
Definition unpack_and_flatten (self : t) (archive_filename : path)
    (destination : string) : M node path :=
  z <- Zip.ZipFile archive_filename ;;
  let destination := os_path_join (basedir self) destination in
  Zip.extractall destination z ;;;
  remove_intermediary_dir destination ;;;
  ret destination.

(** The reading of "removed post-order, leaves first": once [extract] has
    returned, no directory below the unpacked tree is empty. *)
Definition pruned_to_fixpoint (self : t) (archive_filename : path)
    (destination : string) (fs : node) : Prop :=
  forall fs2 d,
    extract self archive_filename destination true fs = (fs2, Ok d) ->
    forall q, q <> [] -> lookup (join d q) fs2 <> Some (Dir []).

End Extractor.

(** ** The surroundings of the program *)

Import Fs.
Open Scope string_scope.

Record cookie : Type :=
  { c_name : string; c_value : string; c_domain : string; c_path : string }.

(** What [requests.post] is called with. *)
Record request : Type :=
  { r_url : string;
    r_params : list (string * string);
    r_data : list (string * string);
    r_cookies : list cookie;
    r_stream : bool }.

(** The response: [r.ok] and the body [r.raw]. *)
Record response : Type := { ok : bool; raw : content }.

(** What the program does with the browser driver, in order. *)
Inductive driver_cmd : Type :=
| ImplicitlyWait (seconds : nat)
| Get (url : string)
| Clear (element_id : string)
| SendKeys (element_id : string) (text : string)
| SendEnter (element_id : string)
| WaitPresenceById (timeout : nat) (element_id : string)
| ExecuteScript (script : string)
| GetCookies
| Quit
| Close.

Record datetime : Type :=
  { year : nat; month : nat; day : nat; hour : nat; minute : nat; second : nat }.

(** The answers of the surroundings.  The portal answers a request by its
    arguments alone. *)
Record env : Type :=
  { (* tempfile.gettempdir() and the names mkdtemp tries, in order *)
    tempdir : path;
    tmp_names : list string;
    (* datetime.now() *)
    now : datetime;
    (* webdriver.Firefox(...) starts *)
    firefox_starts : bool;
    (* the login page has an element of this id *)
    login_has_id : string -> bool;
    (* WebDriverWait(driver, timeout).until(presence_of_element_located((By.ID, id)))
       finds the element *)
    wait_presence : nat -> string -> bool;
    (* the files page of a course: the value of the input element named
       parent_folder_id; None when there is no such element *)
    parent_folder_id : string -> option string;
    (* STUDIP.CSRF_TOKEN.value and driver.get_cookies() *)
    csrf_token : string;
    browser_cookies : list cookie;
    (* requests.post: None when the connection fails *)
    post : request -> option response;
    (* running a command: None when the executable is missing, else its
       effect on the file system and its exit status *)
    spawn : list string -> node -> option (node * nat) }.

(** The three ways the body of the per-course loop ends without an
    exception leaving it. *)
Inductive outcome : Type :=
| staged
| download_failed
| extraction_failed.

Record world : Type :=
  { fs : node;
    stdout : list string;
    driver_log : list driver_cmd;
    requests : list request;
    spawned : list (list string);
    (* bookkeeping: which way each pass of the loop ended, by save_as *)
    outcomes : list (string * outcome) }.

Definition set_fs (f : node) (w : world) : world :=
  {| fs := f; stdout := stdout w; driver_log := driver_log w;
     requests := requests w; spawned := spawned w; outcomes := outcomes w |}.

(** A file-system statement, run in the world. *)
Definition on_fs {A} (m : M node A) : M world A := zoom fs set_fs m.

Definition print (line : string) : M world unit :=
  fun w => ({| fs := fs w; stdout := (stdout w ++ [line])%list; driver_log := driver_log w;
               requests := requests w; spawned := spawned w; outcomes := outcomes w |},
            Ok tt).

Definition drive (c : driver_cmd) : M world unit :=
  fun w => ({| fs := fs w; stdout := stdout w; driver_log := (driver_log w ++ [c])%list;
               requests := requests w; spawned := spawned w; outcomes := outcomes w |},
            Ok tt).

Definition send_request (r : request) : M world unit :=
  fun w => ({| fs := fs w; stdout := stdout w; driver_log := driver_log w;
               requests := (requests w ++ [r])%list; spawned := spawned w;
               outcomes := outcomes w |},
            Ok tt).

Definition record_outcome (name : string) (o : outcome) : M world unit :=
  fun w => ({| fs := fs w; stdout := stdout w; driver_log := driver_log w;
               requests := requests w; spawned := spawned w;
               outcomes := (outcomes w ++ [(name, o)])%list |},
            Ok tt).

(** [with enter as x: body x], where leaving the body by any way runs
    [exit x] and an exception of the body goes on afterwards. *)
Definition with_ {S A B} (enter : M S A) (exit : A -> M S unit)
    (body : A -> M S B) : M S B :=
  x <- enter ;;
  fun s => match body x s with
           | (s1, Ok b) => (exit x ;;; ret b) s1
           | (s1, Raise e) => (exit x ;;; raise e) s1
           end.

(** [subprocess.call(argv)] *)
Definition subprocess_call (E : env) (argv : list string) : M world nat :=
  fun w => match spawn E argv (fs w) with
           | None => (w, Raise FileNotFoundError)
           | Some (f, status) =>
               ({| fs := f; stdout := stdout w; driver_log := driver_log w;
                   requests := requests w; spawned := (spawned w ++ [argv])%list;
                   outcomes := outcomes w |},
                Ok status)
           end.

(** [datetime.strftime(t, "%Y-%m-%d_%H+%M+%S")] *)
Definition digit (n : nat) : string :=
  String (ascii_of_nat (48 + n mod 10)) "".

Definition pad2 (n : nat) : string := digit (n / 10) ++ digit n.

(** Four digits: the decimal digits of a number from 1000 to 9999. *)
Definition pad4 (n : nat) : string :=
  digit (n / 1000) ++ digit (n / 100) ++ digit (n / 10) ++ digit n.

(** The decimal digits of [n], without padding: [fuel] bounds their
    number. *)
Fixpoint decimal_digits (fuel n : nat) : string :=
  match fuel with
  | 0 => ""
  | S f => if Nat.ltb n 10 then digit n else decimal_digits f (n / 10) ++ digit n
  end.

Definition decimal (n : nat) : string := decimal_digits (S n) n.

(** [%Y] prints the year as it is (no padding below 1000); the other
    fields are padded to two digits. *)
Definition strftime (t : datetime) : string :=
  decimal (year t) ++ "-" ++ pad2 (month t) ++ "-" ++ pad2 (day t) ++ "_" ++
  pad2 (hour t) ++ "+" ++ pad2 (minute t) ++ "+" ++ pad2 (second t).

(** ** [class RsyncWrapper] *)

Module RsyncWrapper.

Record t : Type := { suffix : string }.

(** [RsyncWrapper.__init__] *)
Definition init (E : env) : t :=
  let timestr := strftime (now E) in
  {| suffix := "_" ++ timestr ++ ".old" |}.

(** The command line of [RsyncWrapper.sync]. *)
Definition argv (self : t) (source destination : string) : list string :=
  ["rsync"; "--recursive"; "--checksum"; "--backup"; "--suffix=" ++ suffix self;
   source; destination].

(** [RsyncWrapper.sync]: the exit status is dropped. *)
Definition sync (E : env) (self : t) (source destination : string) : M world unit :=
  subprocess_call E (argv self source destination) ;;; ret tt.

End RsyncWrapper.

(** ** [class Downloader] *)

Module Downloader.

Record t : Type := { workdir : path }.

Definition login_url : string :=
  "https://studip.uni-passau.de/studip/index.php?again=yes&sso=shib".
Definition files_url : string :=
  "https://studip.uni-passau.de/studip/dispatch.php/course/files?cid=".
Definition bulk_url : string :=
  "https://studip.uni-passau.de/studip/dispatch.php/file/bulk/".

(** The commands of one login attempt. *)
Definition login_attempt (u p : string) : list driver_cmd :=
  [Get login_url;
   Clear "username"; SendKeys "username" u;
   Clear "password"; SendKeys "password" p;
   SendEnter "password"; WaitPresenceById 7 "footer"].

(** [driver.find_element_by_id(id)] on the login page. *)
Definition find_element_by_id (E : env) (id : string) : M world string :=
  if login_has_id E id then ret id else raise NoSuchElementException.

(** [exit(1)] *)
Definition exit_ {A} (code : nat) : M world A := raise (SystemExit code).

(** [Downloader._login]; the bare [except:] catches whatever the wait raises. *)
Definition _login (E : env) (username password : string) : M world unit :=
  drive (Get login_url) ;;;
  username_element <- find_element_by_id E "username" ;;
  drive (Clear username_element) ;;;
  drive (SendKeys username_element username) ;;;
  password_element <- find_element_by_id E "password" ;;
  drive (Clear password_element) ;;;
  drive (SendKeys password_element password) ;;;
  drive (SendEnter password_element) ;;;
  try_except
    (drive (WaitPresenceById 7 "footer") ;;;
     if wait_presence E 7 "footer" then ret tt else raise TimeoutException)
    (fun _ => Some (print "Login failed!" ;;;
                    print "Aborting" ;;;
                    drive Quit ;;;
                    exit_ 1)).

(** [Downloader.__init__] *)
Definition init (E : env) (workdir : path) (username password : string) : M world t :=
  (if firefox_starts E then ret tt else raise WebDriverException) ;;;
  drive (ImplicitlyWait 10) ;;;
  _login E username password ;;;
  ret {| workdir := workdir |}.

(** [Downloader.__exit__] *)
Definition exit (self : t) : M world unit := drive Close.

(** [sync_only or folder_id] *)
Definition or_else (sync_only : option string) (folder_id : string) : string :=
  match sync_only with
  | Some s => if String.eqb s "" then folder_id else s
  | None => folder_id
  end.

(** The request [Downloader.download] posts for the folder [folder_id]. *)
Definition bulk_request (E : env) (course_id : string) (sync_only : option string)
    (folder_id : string) : request :=
  let params := [("cid", course_id)] in
  let url := bulk_url ++ folder_id in
  let data := [("security_token", csrf_token E);
               ("ids[]", or_else sync_only folder_id);
               ("download", "1")] in
  {| r_url := url; r_params := params; r_data := data;
     r_cookies := browser_cookies E; r_stream := true |}.

(** The world once the request for [folder_id] has been sent. *)
Definition after_request (E : env) (course_id : string) (sync_only : option string)
    (folder_id : string) (w : world) : world :=
  fst (send_request (bulk_request E course_id sync_only folder_id)
         (fst (drive GetCookies
                 (fst (drive (ExecuteScript "return STUDIP.CSRF_TOKEN.value")
                         (fst (drive (Get (files_url ++ course_id)) w))))))).

(** [Downloader.download] *)
Definition download (E : env) (self : t) (course_id : string)
    (sync_only : option string) : M world path :=
  drive (Get (files_url ++ course_id)) ;;;
  folder_id <- match parent_folder_id E course_id with
               | Some value => ret value
               | None => raise (DownloadError
                                  ("Could not locate parent folder for course: "
                                   ++ course_id))
               end ;;
  let url := bulk_url ++ folder_id in
  drive (ExecuteScript "return STUDIP.CSRF_TOKEN.value") ;;;
  drive GetCookies ;;;
  let r := bulk_request E course_id sync_only folder_id in
  send_request r ;;;
  match post E r with
  | None => raise ConnectionError
  | Some resp =>
      if negb (ok resp) then raise (DownloadError ("Download failed " ++ url))
      else
        let path := os_path_join (workdir self) course_id in
        on_fs (write_file path (raw resp)) ;;;
        ret path
  end.

End Downloader.

(** ** [class StudipSync] *)

(** The attributes of [config] the program reads. *)
Record course : Type :=
  { course_id : string; save_as : string; sync_only : option string }.

Record config : Type :=
  { target : path; username : string; password : string; courses : list course }.

Module StudipSync.

Record t : Type :=
  { workdir : path; download_dir : path; extract_dir : path; destination_dir : path }.

(** [tempfile.mkdtemp(prefix=...)]: the first of the candidate names that
    is free is made. *)
Fixpoint mkdtemp_from (dir : path) (prefix : string) (names : list string)
    : M node path :=
  match names with
  | [] => raise FileExistsError
  | n :: r =>
      try_except
        (mkdir (join dir [prefix ++ n]) ;;; ret (join dir [prefix ++ n]))
        (fun e => match e with
                  | FileExistsError => Some (mkdtemp_from dir prefix r)
                  | _ => None
                  end)
  end.

Definition mkdtemp (E : env) (prefix : string) : M node path :=
  mkdtemp_from (tempdir E) prefix (tmp_names E).

(** [StudipSync.__init__] *)
Definition init (E : env) (C : config) : M world t :=
  workdir <- on_fs (mkdtemp E "studip-sync") ;;
  let download_dir := join workdir ["zips"] in
  let extract_dir := join workdir ["extracted"] in
  let destination_dir := target C in
  on_fs (makedirs false download_dir) ;;;
  on_fs (makedirs false extract_dir) ;;;
  on_fs (makedirs true destination_dir) ;;;
  ret {| workdir := workdir; download_dir := download_dir;
         extract_dir := extract_dir; destination_dir := destination_dir |}.

(** One pass of the loop of [StudipSync.sync].  [record_outcome] notes
    which way the pass ended; the program itself only prints. *)
Definition sync_course (E : env) (extractor : Extractor.t) (downloader : Downloader.t)
    (c : course) : M world unit :=
  print ("Downloading '" ++ save_as c ++ "'...") ;;;
  try_except
    (zip_location <- Downloader.download E downloader (course_id c) (sync_only c) ;;
     on_fs (Extractor.extract extractor zip_location (save_as c) true) ;;;
     record_outcome (save_as c) staged)
    (fun e => match e with
              | DownloadError _ =>
                  Some (print ("ERROR: Download failed for '" ++ save_as c ++ "'") ;;;
                        print "       Possible Reasons:" ;;;
                        print "       - Folder is bigger than 100MB (Stud.IP does not allow downloads > 100MB)" ;;;
                        print "       - You are not subscribed to the course and cannot access files" ;;;
                        record_outcome (save_as c) download_failed)
              | ExtractionError _ =>
                  Some (print ("ERROR: Extraction failed for '" ++ save_as c ++ "'") ;;;
                        record_outcome (save_as c) extraction_failed)
              | _ => None
              end).

(** [StudipSync.sync] *)
Definition sync (E : env) (C : config) (self : t) : M world unit :=
  let extractor := {| Extractor.basedir := extract_dir self |} in
  let rsync := RsyncWrapper.init E in
  print "Logging in..." ;;;
  with_ (Downloader.init E (download_dir self) (username C) (password C))
        Downloader.exit
        (fun downloader =>
           for_each (courses C) (sync_course E extractor downloader)) ;;;
  print "Synchronizing with existing files..." ;;;
  RsyncWrapper.sync E rsync (path_str (extract_dir self) ++ "/")
                    (path_str (destination_dir self)).

(** [StudipSync.sync] up to the merge. *)
Definition before_merge (E : env) (C : config) (self : t) : M world unit :=
  print "Logging in..." ;;;
  with_ (Downloader.init E (download_dir self) (username C) (password C))
        Downloader.exit
        (fun downloader =>
           for_each (courses C)
             (sync_course E {| Extractor.basedir := extract_dir self |} downloader)) ;;;
  print "Synchronizing with existing files...".

(** [StudipSync.cleanup] *)
Definition cleanup (self : t) : M world unit := on_fs (rmtree (workdir self)).

(** [StudipSync.__exit__] *)
Definition exit (self : t) : M world unit := cleanup self.

(** Modelled from the spec: the entry point [run], which is not among the
    sources given.  The spec has it create the workspace, drive the
    pipeline and remove the workspace with the semantics of a guaranteed
    finally block; [StudipSync] is written as a context manager for that
    use: [with StudipSync() as s: s.sync()]. *)
Definition run (E : env) (C : config) : M world unit :=
  with_ (init E C) exit (fun s => sync E C s).

End StudipSync.

(** ** What decides the outcome of a course *)

(** What stops the unpacking of an entry, the file system permitting:
    BadZipFile ([corrupt]) or another exception ([failing]). *)
Inductive fault : Type :=
| corrupt
| failing.

Definition fault_of (m : member) : option fault :=
  match Zip.last_char (filename m) with
  | None => Some failing
  | Some c =>
      if Ascii.eqb c "/"%char then None
      else match payload m with
           | ReadOk _ => None
           | ReadBadZip | ReadBadCrc _ => Some corrupt
           | ReadError _ | ReadBroken _ _ => Some failing
           end
  end.

(** The first fault among the entries that [extractall] unpacks. *)
Fixpoint first_fault (ms : list member) : option fault :=
  match ms with
  | [] => None
  | m :: r =>
      match fault_of m with
      | Some f => Some f
      | None => first_fault r
      end
  end.

(** The outcome of a course as far as the answers of the portal for that
    course decide it: [None] when they make the pass raise something the
    loop does not catch. *)
Definition course_outcome (E : env) (c : course) : option outcome :=
  match parent_folder_id E (course_id c) with
  | None => Some download_failed
  | Some folder_id =>
      match post E (Downloader.bulk_request E (course_id c) (sync_only c) folder_id) with
      | None => None
      | Some resp =>
          if negb (ok resp) then Some download_failed
          else match raw resp with
               | Bytes _ => Some extraction_failed
               | ZipBytes z =>
                   match first_fault (Zip.entries z) with
                   | None => Some staged
                   | Some corrupt => Some extraction_failed
                   | Some failing => None
                   end
               end
      end
  end.

(** The line that reports a failed course, when it failed. *)
Definition reported (E : env) (c : course) (out : list string) : Prop :=
  match course_outcome E c with
  | Some download_failed =>
      In ("ERROR: Download failed for '" ++ save_as c ++ "'") out
  | Some extraction_failed =>
      In ("ERROR: Extraction failed for '" ++ save_as c ++ "'") out
  | _ => True
  end.

(** An outcome recorded for a course: under its name, and the one the
    answers of the portal for that course decide. *)
Definition settles (E : env) (c : course) (r : string * outcome) : Prop :=
  fst r = save_as c /\ course_outcome E c = Some (snd r).

(** The reading of "the final outcome of each course is one of the three":
    the run leaves one outcome per configured course. *)
Definition every_course_settled (C : config) (w w' : world) : Prop :=
  exists new,
    outcomes w' = (outcomes w ++ new)%list /\
    map fst new = map save_as (courses C).

(** The reading of "the staging subtree of a course exists and is not
    empty only if its download and its extraction succeeded": a pass that
    leaves entries under the staging directory of the course has recorded
    the outcome staged. *)
Definition staging_only_when_staged (E : env) (ex : Extractor.t)
    (dl : Downloader.t) (c : course) (w : world) : Prop :=
  forall w' o e es,
    StudipSync.sync_course E ex dl c w = (w', Ok tt) ->
    outcomes w' = (outcomes w ++ [(save_as c, o)])%list ->
    lookup (os_path_join (Extractor.basedir ex) (save_as c)) (fs w')
    = Some (Dir (e :: es)) ->
    o = staged.

(** The message the spec gives for an archive that cannot be read. *)
Definition spec_message (archive_filename : path) : string :=
  "cannot extract: " ++ path_str archive_filename.

(** ** Predicates on statements *)

(** Every exception that leaves [m] satisfies [P]. *)
Definition raises_only {S A} (P : exn -> Prop) (m : M S A) : Prop :=
  forall s s' e, m s = (s', Raise e) -> P e.

(** Every state [m] leaves is related by [R] to the state it started in. *)
Definition steps {S A} (R : S -> S -> Prop) (m : M S A) : Prop :=
  forall s, R s (fst (m s)).

(** A statement keeps names unique when every state it can leave is well
    formed. *)
Definition keeps_wf {A} (m : M node A) : Prop :=
  forall fs, wfb fs = true -> wfb (fst (m fs)) = true.

(** The errors of the operating system and of the interpreter, as opposed
    to the exceptions the program and [zipfile] define. *)
Definition os_error (e : exn) : bool :=
  match e with
  | FileNotFoundError | NotADirectoryError | IsADirectoryError | FileExistsError
  | DirectoryNotEmpty | ShutilError | RecursionError | OtherError _ => true
  | _ => false
  end.

Definition os_only (e : exn) : Prop := os_error e = true.
Definition os_or_badzip (e : exn) : Prop := os_error e = true \/ e = BadZipFile.

Definition is_DownloadError (e : exn) : bool :=
  match e with DownloadError _ => true | _ => false end.

Definition is_ExtractionError (e : exn) : bool :=
  match e with ExtractionError _ => true | _ => false end.

(** Relations between the world before and after a statement: [quiet]
    statements start no process, record no outcome and only add to what is
    printed; [calm] ones may record outcomes. *)
Definition calm (w w' : world) : Prop :=
  spawned w' = spawned w /\ incl (stdout w) (stdout w').

Definition quiet (w w' : world) : Prop :=
  spawned w' = spawned w /\ outcomes w' = outcomes w /\ incl (stdout w) (stdout w').

(** ** Sample runs *)

Module Samples.

Definition w0 : world :=
  {| fs := Dir [("tmp", Dir [])]; stdout := []; driver_log := [];
     requests := []; spawned := []; outcomes := [] |}.

Definition t0 : datetime :=
  {| year := 2024; month := 3; day := 9; hour := 7; minute := 5; second := 59 |}.

(** A portal with three courses: the folder of [c1] answers with [body1],
    the folder of [c2] with [body2], and the request for [c3] is refused. *)
Definition portal (login_ok : bool) (body1 body2 : option response) : env :=
  {| tempdir := ["tmp"];
     tmp_names := ["k3x9"];
     now := t0;
     firefox_starts := true;
     login_has_id := fun _ => true;
     wait_presence := fun _ _ => login_ok;
     parent_folder_id := fun c =>
       if String.eqb c "c1" then Some "f1"
       else if String.eqb c "c2" then Some "f2"
       else None;
     csrf_token := "tok";
     browser_cookies :=
       [{| c_name := "sid"; c_value := "v"; c_domain := "d"; c_path := "/" |}];
     post := fun r =>
       if String.eqb (r_url r) (Downloader.bulk_url ++ "f1") then body1 else body2;
     spawn := fun _ f => Some (f, 0) |}.

Definition zip (ms : list member) : option response :=
  Some {| ok := true; raw := ZipBytes ms |}.

Definition course1 : course :=
  {| course_id := "c1"; save_as := "S"; sync_only := None |}.
Definition course2 : course :=
  {| course_id := "c2"; save_as := "T"; sync_only := Some "sub" |}.

Definition cfg (cs : list course) : config :=
  {| target := ["home"; "docs"]; username := "u"; password := "p"; courses := cs |}.

(** A disk holding one downloaded file [c] and an empty staging area. *)
Definition extractor0 : Extractor.t := {| Extractor.basedir := ["w"; "extracted"] |}.
Definition archive0 : path := ["w"; "zips"; "c1"].
Definition disk (c : content) : node :=
  Dir [("w", Dir [("zips", Dir [("c1", File c)]); ("extracted", Dir [])])].

(** Archives: a chain of two empty directories; an empty chain next to a
    file; the wrapper directory [D] around the files [a] and [b]. *)
Definition zip_empty_chain : content := ZipBytes [MDir "empty1/empty2"].
Definition zip_chain_and_file : content :=
  ZipBytes [MDir "a/b"; MFile "f" (ReadOk "1")].
Definition zip_wrapped : content :=
  ZipBytes [MFile "D/a" (ReadOk "1"); MFile "D/b" (ReadOk "2")].

(** Archives that take the flattening step off its path: a single regular
    file at the top; a wrapper holding a hidden file; a wrapper holding an
    entry of its own name. *)
Definition zip_single_file : content := ZipBytes [MFile "a" (ReadOk "1")].
Definition zip_hidden : content := ZipBytes [MFile "D/.h" (ReadOk "1")].
Definition zip_same_name : content := ZipBytes [MFile "D/D" (ReadOk "1")].

(** The world once [StudipSync.__init__] has run on [w0], and the object
    it returns. *)
Definition sync0 : StudipSync.t :=
  {| StudipSync.workdir := ["tmp"; "studip-synck3x9"];
     StudipSync.download_dir := ["tmp"; "studip-synck3x9"; "zips"];
     StudipSync.extract_dir := ["tmp"; "studip-synck3x9"; "extracted"];
     StudipSync.destination_dir := ["home"; "docs"] |}.

Definition w_boot : world :=
  {| fs := Dir [("tmp", Dir [("studip-synck3x9",
                              Dir [("zips", Dir []); ("extracted", Dir [])])]);
                ("home", Dir [("docs", Dir [])])];
     stdout := []; driver_log := []; requests := []; spawned := [];
     outcomes := [] |}.

Definition extractor1 : Extractor.t :=
  {| Extractor.basedir := StudipSync.extract_dir sync0 |}.
Definition downloader1 : Downloader.t :=
  {| Downloader.workdir := StudipSync.download_dir sync0 |}.

(** A third course, unknown to the portal, a refusing answer, an archive
    of two files, and one whose second member has a bad header. *)
Definition course3 : course :=
  {| course_id := "c3"; save_as := "U"; sync_only := None |}.
Definition refused : option response := Some {| ok := false; raw := Bytes "" |}.
Definition zip_two : content :=
  ZipBytes [MFile "x" (ReadOk "2"); MFile "y" (ReadOk "3")].
Definition zip_broken : content :=
  ZipBytes [MFile "a" (ReadOk "1"); MFile "b" ReadBadZip].
Definition answer (c : content) : option response := Some {| ok := true; raw := c |}.

End Samples.

(** ** Where a statement writes *)

(** Two paths are apart when neither leads to the other: they part at some
    component.  [prefixb q p] holds when [q] leads to [p]. *)
Fixpoint apartb (p q : path) : bool :=
  match p, q with
  | x :: p', y :: q' => if String.eqb x y then apartb p' q' else true
  | _, _ => false
  end.

Fixpoint prefixb (q p : path) : bool :=
  match q, p with
  | [], _ => true
  | y :: q', x :: p' => String.eqb y x && prefixb q' p'
  | _ :: _, [] => false
  end.

(** The trees [fs] and [fs'] hold the same at every path apart from [d]. *)
Definition same_outside (d : path) (fs fs' : node) : Prop :=
  forall q, apartb d q = true -> lookup q fs' = lookup q fs.

(** A tree with nothing below it: a regular file or an empty directory. *)
Definition leaf (v : node) : Prop := forall z r, lookup (z :: r) v = None.

(** A string without a [..] part: joined to a directory, it names the
    path that [os_path_join] gives. *)
Definition no_dotdot (s : string) : bool :=
  negb (mem ".." (split_slash s "")).


(** An entry whose name says directory: the name ends with a slash. *)
Definition names_dir (m : member) : bool :=
  match Zip.last_char (filename m) with
  | Some c => Ascii.eqb c "/"%char
  | None => false
  end.

(** A path that holds none of the characters that make a name a pattern
    for [glob]: [glob] takes it as it is written. *)
Definition literal (p : path) : bool := forallb (fun x => negb (has_magic x)) p.


(** The errors of the file system that [os.makedirs], [os.mkdir] and
    [open] report. *)
Definition fs_error (e : exn) : bool :=
  match e with
  | FileNotFoundError | NotADirectoryError | IsADirectoryError | FileExistsError => true
  | _ => false
  end.

(** ** What the loop over the courses catches *)

Definition caught (e : exn) : bool := is_DownloadError e || is_ExtractionError e.

(** ** What a run prints *)

(** The lines of [studip_sync.py] that do not depend on a course, and the
    lines for a course. *)
Definition fixed_lines : list string :=
  ["Logging in..."; "Login failed!"; "Aborting";
   "       Possible Reasons:";
   "       - Folder is bigger than 100MB (Stud.IP does not allow downloads > 100MB)";
   "       - You are not subscribed to the course and cannot access files";
   "Synchronizing with existing files..."].

Definition course_lines (c : course) : list string :=
  ["Downloading '" ++ save_as c ++ "'...";
   "ERROR: Download failed for '" ++ save_as c ++ "'";
   "ERROR: Extraction failed for '" ++ save_as c ++ "'"].

Definition vocabulary (C : config) : list string :=
  (fixed_lines ++ flat_map course_lines (courses C))%list.

(** Between two worlds only lines of [L] were printed. *)
Definition prints_within (L : list string) (w w' : world) : Prop :=
  exists new, stdout w' = (stdout w ++ new)%list /\ Forall (fun l => In l L) new.

(** ** What a run asks of the portal *)

(** The request that [download] posts for a course: none when the files
    page of the course shows no parent folder. *)
Definition course_requests (E : env) (c : course) : list request :=
  match parent_folder_id E (course_id c) with
  | Some folder_id =>
      [Downloader.bulk_request E (course_id c) (sync_only c) folder_id]
  | None => []
  end.

(** No request was posted between two worlds. *)
Definition posts_nothing (w w' : world) : Prop := requests w' = requests w.

(** ** The clock *)

(** The dates and times of [datetime.now()] for which [%Y] prints four
    digits. *)
Definition valid_datetime (t : datetime) : bool :=
  Nat.leb 1000 (year t) && Nat.ltb (year t) (10 * 1000) &&
  Nat.leb 1 (month t) && Nat.leb (month t) 12 &&
  Nat.leb 1 (day t) && Nat.leb (day t) 31 &&
  Nat.ltb (hour t) 24 && Nat.ltb (minute t) 60 && Nat.ltb (second t) 60.

(** ** The browser *)

(** The commands [Downloader.download] gives the browser. *)
Definition page_cmd (c : driver_cmd) : bool :=
  match c with
  | Get _ | ExecuteScript _ | GetCookies => true
  | _ => false
  end.

(** Between two worlds the browser was given page commands only. *)
Definition browses (w w' : world) : Prop :=
  exists cmds, driver_log w' = (driver_log w ++ cmds)%list /\ forallb page_cmd cmds = true.

(** [driver.quit()] and [driver.close()]. *)
Definition ends_browser (c : driver_cmd) : bool :=
  match c with
  | Quit | Close => true
  | _ => false
  end.

(** ** The time of the login *)

(** How long the wait for the login lasts, after selenium: time is
    counted in ticks of half a second, the pause of [WebDriverWait]
    between two tries; the waits themselves pass their time, a lookup
    that finds the element takes none. *)
Module Wait.

Definition seconds (n : nat) : nat := 2 * n.

(** [driver.find_element] under an implicit wait, at the time [now], for
    an element that shows at the time [shows] ([None]: never): the
    browser looks until the element is there or the implicit wait is
    over.  The result is the time at which the call returns and whether
    the element was found. *)
Definition find_element (implicit : nat) (shows : option nat) (now : nat) : nat * bool :=
  match shows with
  | Some t =>
      if Nat.leb t now then (now, true)
      else if Nat.leb t (now + implicit) then (t, true)
      else (now + implicit, false)
  | None => (now + implicit, false)
  end.

(** The loop of [WebDriverWait.until]: try; when the element is not
    found, pause for a tick and give up once the time is past the end.
    [fuel] bounds the number of tries. *)
Fixpoint until (fuel implicit end_time : nat) (shows : option nat) (now : nat)
    : option (nat * bool) :=
  match fuel with
  | 0 => None
  | S k =>
      let (now1, found) := find_element implicit shows now in
      if found then Some (now1, true)
      else
        let now2 := now1 + 1 in
        if Nat.ltb end_time now2 then Some (now2, false)
        else until k implicit end_time shows now2
  end.

(** [WebDriverWait(driver, timeout).until(presence_of_element_located(...))],
    begun at the time 0: the time it ends and whether it found the
    element. *)
Definition wait (implicit timeout : nat) (shows : option nat) : option (nat * bool) :=
  until (S (S timeout)) implicit timeout shows 0.

End Wait.




(** ** The merge *)

(** What [rsync --recursive --checksum --backup --suffix=SUFFIX SRC/ DST]
    does to the disk (rsync 3): the tree below [SRC] is copied into
    [DST]; a file that is in [DST] with the same content is left alone; a
    file of [DST] that is to be replaced is renamed first, with the
    suffix appended to its name; nothing of [DST] is deleted.  The
    entries of a directory are taken in the order of the list (rsync
    sorts them; the order shows only when a name of the source ends with
    the suffix). *)
Module Rsync.

Definition member_read_eq_dec (a b : member_read) : {a = b} + {a <> b}.
Proof. decide equality; apply string_dec. Defined.

Definition member_eq_dec (a b : member) : {a = b} + {a <> b}.
Proof. decide equality; [apply member_read_eq_dec|apply string_dec]. Defined.

(** The comparison of [--checksum]: the same bytes. *)
Definition content_eq_dec (a b : content) : {a = b} + {a <> b}.
Proof.
  decide equality; [apply string_dec|apply (list_eq_dec member_eq_dec)].
Defined.

Fixpoint ends_with (suf s : string) : bool :=
  String.eqb s suf ||
  match s with
  | EmptyString => false
  | String _ r => ends_with suf r
  end.

(** rsync's own backups: a name that ends with the suffix and is longer. *)
Definition is_backup_file (suf name : string) : bool :=
  ends_with suf name && negb (String.eqb name suf).

(** The entries [des] of a directory of the destination once the tree
    [src] has been merged into it, and whether everything was
    transferred.  A directory of the destination that is not empty is not
    replaced by a file: that file is skipped, with an error.  A file of
    the destination makes way for a directory, after its backup. *)
Fixpoint merge (suf : string) (src : node) (des : list (string * node)) {struct src}
    : list (string * node) * bool :=
  match src with
  | File _ => (des, true)
  | Dir ses =>
      (fix go (l : list (string * node)) (des : list (string * node)) (ok : bool)
           {struct l} : list (string * node) * bool :=
         match l with
         | [] => (des, ok)
         | (x, File c) :: r =>
             match assoc x des with
             | Some (File c0) =>
                 if content_eq_dec c c0 then go r des ok
                 else go r (assoc_set x (File c)
                              (assoc_set (x ++ suf)%string (File c0) des)) ok
             | Some (Dir (_ :: _)) => go r des false
             | _ => go r (assoc_set x (File c) des) ok
             end
         | (x, (Dir _) as n) :: r =>
             match assoc x des with
             | Some (Dir sub) =>
                 let (sub', ok') := merge suf n sub in
                 go r (assoc_set x (Dir sub') des) (ok && ok')
             | Some (File c0) =>
                 let (sub', ok') := merge suf n [] in
                 go r (assoc_set x (Dir sub')
                         (if is_backup_file suf x then des
                          else assoc_set (x ++ suf)%string (File c0) des))
                      (ok && ok')
             | None =>
                 let (sub', ok') := merge suf n [] in
                 go r (assoc_set x (Dir sub') des) (ok && ok')
             end
         end) ses des true
  end.



(** The tree with [v] at the path [p]. *)
Definition set_at (p : path) (v : node) (fs : node) : node :=
  match p with
  | [] => v
  | _ :: _ => put p (Some v) fs
  end.

Definition status (ok : bool) : nat := if ok then 0 else 23.

(** The run of the command on the disk: the new disk and the exit status.
    A source that is no directory is an error (23); so are a destination
    that is a regular file (3) and one that cannot be made (11); a
    destination that is missing is made. *)
Definition run (suf : string) (src dst : path) (fs : node) : node * nat :=
  match lookup src fs with
  | Some (Dir ses) =>
      match lookup dst fs with
      | Some (Dir des) =>
          let (des', ok) := merge suf (Dir ses) des in
          (set_at dst (Dir des') fs, status ok)
      | Some (File _) => (fs, 3)
      | None =>
          match lookup (removelast dst) fs with
          | Some (Dir _) =>
              let (des', ok) := merge suf (Dir ses) [] in
              (set_at dst (Dir des') fs, status ok)
          | _ => (fs, 11)
          end
      end
  | _ => (fs, 23)
  end.




End Rsync.


(** ** Further sample inputs *)

Module Cases.
Import Samples.

(** A disk where the destination of [Samples.cfg] is a regular file. *)
Definition w_blocked : world :=
  {| fs := Dir [("tmp", Dir []); ("home", Dir [("docs", File (Bytes "x"))])];
     stdout := []; driver_log := []; requests := []; spawned := [];
     outcomes := [] |}.

(** Corrupt archives: one whose only entry does not decompress; one whose
    second entry has a bad header and lies below the place of the first,
    a regular file; one whose only entry has a bad checksum; one whose
    first entry has a bad header and is followed by a good entry of the
    same name. *)
Definition zip_garbled : content := ZipBytes [MFile "a" (ReadBroken "" "zlib.error")].
Definition zip_blocked : content :=
  ZipBytes [MFile "a" (ReadOk "1"); MFile "a/b/c" ReadBadZip].
Definition zip_bad_crc : content := ZipBytes [MFile "a" (ReadBadCrc "")].
Definition zip_shadowed : content :=
  ZipBytes [MFile "x" ReadBadZip; MFile "x" (ReadOk "new")].

(** A portal whose login page has the field [username] only. *)
Definition portal_no_password : env :=
  {| tempdir := ["tmp"]; tmp_names := ["k3x9"]; now := t0;
     firefox_starts := true;
     login_has_id := fun id => String.eqb id "username";
     wait_presence := fun _ _ => true;
     parent_folder_id := fun _ => None; csrf_token := "tok";
     browser_cookies := []; post := fun _ => None;
     spawn := fun _ f => Some (f, 0) |}.

(** The surroundings [E], one second after [Samples.t0]. *)
Definition a_second_later (E : env) : env :=
  {| tempdir := tempdir E; tmp_names := tmp_names E;
     now := {| year := 2024; month := 3; day := 9; hour := 7; minute := 6; second := 0 |};
     firefox_starts := firefox_starts E; login_has_id := login_has_id E;
     wait_presence := wait_presence E; parent_folder_id := parent_folder_id E;
     csrf_token := csrf_token E; browser_cookies := browser_cookies E;
     post := post E; spawn := spawn E |}.



(** The surroundings [E] with an [rsync] that changes nothing and exits
    with status 23. *)
Definition rsync_fails (E : env) : env :=
  {| tempdir := tempdir E; tmp_names := tmp_names E; now := now E;
     firefox_starts := firefox_starts E; login_has_id := login_has_id E;
     wait_presence := wait_presence E; parent_folder_id := parent_folder_id E;
     csrf_token := csrf_token E; browser_cookies := browser_cookies E;
     post := post E; spawn := fun _ f => Some (f, 23) |}.

End Cases.

(** * The configuration: [config.py]

    [class Config] reads the parsed JSON file that its base class
    [JSONConfig] leaves in [self.config], the command line in [self.args],
    and asks on the console for what the file lacks.  The base class, the
    argument parser and [ConfigCreator] are other modules: the embedding
    takes [self.config] and [self.args] as they are found, and records the
    calls of [ConfigCreator.replace_config]. *)

From Stdlib Require Import ZArith SpecFloat.

Module Config.

(** Python values: [None] and what [json.load] returns.  A dictionary
    keeps its keys in the order they were set. *)
Inductive value : Type :=
| VNone
| VBool (b : bool)
| VInt (z : Z)
| VFloat (f : spec_float)
| VStr (s : string)
| VList (l : list value)
| VDict (d : list (string * value)).

(** [bool(v)] *)
Definition truthy (v : value) : bool :=
  match v with
  | VNone => false
  | VBool b => b
  | VInt z => negb (Z.eqb z 0)
  | VFloat (S754_zero _) => false
  | VFloat _ => true
  | VStr s => negb (String.eqb s "")
  | VList [] => false
  | VList (_ :: _) => true
  | VDict [] => false
  | VDict (_ :: _) => true
  end.

(** The exceptions the methods can raise. *)
Inductive error : Type :=
| ConfigError (msg : string)
| AttributeError        (* [x.get] where [x] is no dictionary *)
| TypeError             (* [x[k] = v] where [x] is no dictionary; a path that is no string *)
| EOFError.             (* [input] or [getpass] at the end of the input *)

Inductive res (A : Type) : Type :=
| Return (a : A)
| Throw (e : error).
Arguments Return {A} a.
Arguments Throw {A} e.

(** The attributes of the object. *)
Record t : Type :=
  { args_destination : option string;     (* self.args.destination *)
    args_media : option string;           (* self.args.media *)
    config : value;                       (* self.config *)
    _username : value;
    _password : value }.

(** The object and its surroundings: the lines the user is going to type,
    the prompts shown so far, and the dictionaries handed to
    [ConfigCreator.replace_config]. *)
Record state : Type :=
  { self : t;
    typed : list string;
    prompts : list string;
    replaced : list value }.

Definition P (A : Type) : Type := state -> state * res A.

Definition ret {A} (a : A) : P A := fun st => (st, Return a).
Definition throw {A} (e : error) : P A := fun st => (st, Throw e).
Definition bind {A B} (m : P A) (k : A -> P B) : P B :=
  fun st => match m st with
            | (st1, Return a) => k a st1
            | (st1, Throw e) => (st1, Throw e)
            end.

Declare Scope cfg_scope.
Delimit Scope cfg_scope with cfg.
Notation "x <~ m ;; k" := (bind m (fun x => k))
  (at level 100, m at next level, right associativity) : cfg_scope.
Notation "m ~;; k" := (bind m (fun _ => k))
  (at level 100, right associativity) : cfg_scope.
Open Scope cfg_scope.

Definition get_self {A} (f : t -> A) : P A := fun st => (st, Return (f (self st))).

Definition set_config (c : value) : P unit :=
  fun st => ({| self := {| args_destination := args_destination (self st);
                           args_media := args_media (self st);
                           config := c;
                           _username := _username (self st);
                           _password := _password (self st) |};
                typed := typed st; prompts := prompts st; replaced := replaced st |},
             Return tt).

Definition set_username (v : value) : P unit :=
  fun st => ({| self := {| args_destination := args_destination (self st);
                           args_media := args_media (self st);
                           config := config (self st);
                           _username := v;
                           _password := _password (self st) |};
                typed := typed st; prompts := prompts st; replaced := replaced st |},
             Return tt).

Definition set_password (v : value) : P unit :=
  fun st => ({| self := {| args_destination := args_destination (self st);
                           args_media := args_media (self st);
                           config := config (self st);
                           _username := _username (self st);
                           _password := v |};
                typed := typed st; prompts := prompts st; replaced := replaced st |},
             Return tt).

(** [x.get(key, default)] *)
Definition get (x : value) (key : string) (default : value) : P value :=
  match x with
  | VDict d => ret (match Fs.assoc key d with Some v => v | None => default end)
  | _ => throw AttributeError
  end.

(** [new_config = self.config; new_config[key] = v]: the dictionary of the
    object itself is changed; the statement gives the dictionary. *)
Definition setitem_config (key : string) (v : value) : P value :=
  c <~ get_self config ;;
  match c with
  | VDict d => set_config (VDict (Fs.assoc_set key v d)) ~;;
               ret (VDict (Fs.assoc_set key v d))
  | _ => throw TypeError
  end.

(** [ConfigCreator.replace_config(new_config)] *)
Definition replace_config (new_config : value) : P unit :=
  fun st => ({| self := self st; typed := typed st; prompts := prompts st;
                replaced := (replaced st ++ [new_config])%list |},
             Return tt).

(** [input(prompt)] and [getpass.getpass()]: the prompt is shown and the
    next line is read. *)
Definition input (prompt : string) : P value :=
  fun st => match typed st with
            | [] => ({| self := self st; typed := [];
                        prompts := (prompts st ++ [prompt])%list;
                        replaced := replaced st |},
                     Throw EOFError)
            | line :: rest =>
                ({| self := self st; typed := rest;
                    prompts := (prompts st ++ [prompt])%list;
                    replaced := replaced st |},
                 Return (VStr line))
            end.

Definition getpass : P value := input "Password: ".

(** What [os.path.expanduser] asks of the system. *)
Record os_env : Type :=
  { home : option string;                  (* os.environ.get("HOME") *)
    pw_self : option string;               (* pwd.getpwuid(os.getuid()).pw_dir *)
    getpwnam : string -> option string }.  (* pwd.getpwnam(name).pw_dir *)

(** [s.rstrip("/")] *)
Fixpoint rstrip_slash (s : string) : string :=
  match s with
  | EmptyString => EmptyString
  | String c r =>
      match rstrip_slash r with
      | EmptyString => if Ascii.eqb c "/"%char then EmptyString else String c EmptyString
      | r' => String c r'
      end
  end.

(** The part of [s] before its first slash, and the rest from that slash
    on. *)
Fixpoint until_slash (s : string) : string * string :=
  match s with
  | EmptyString => (EmptyString, EmptyString)
  | String c r =>
      if Ascii.eqb c "/"%char then (EmptyString, s)
      else let (a, b) := until_slash r in (String c a, b)
  end.

(** [os.path.expanduser(path)] for a string *)
Definition expanduser (O : os_env) (path : string) : string :=
  match path with
  | String "~"%char rest =>
      let (name, tail) := until_slash rest in
      let userhome :=
        if String.eqb name "" then
          match home O with
          | Some h => Some h
          | None => pw_self O
          end
        else getpwnam O name in
      match userhome with
      | None => path
      | Some h =>
          let r := (rstrip_slash h ++ tail)%string in
          if String.eqb r "" then "/" else r
      end
  | _ => path
  end.

(** [os.path.expanduser(v)] for any value: what is no string is refused. *)
Definition expanduser_value (O : os_env) (v : value) : P value :=
  match v with
  | VStr s => ret (VStr (expanduser O s))
  | _ => throw TypeError
  end.

(** [Config.last_sync] *)
Definition last_sync : P value :=
  c <~ get_self config ;;
  if negb (truthy c) then ret (VInt 0)
  else
    last_sync <~ get c "last_sync" VNone ;;
    if truthy last_sync then ret last_sync else ret (VInt 0).

(** [Config.update_last_sync] *)
Definition update_last_sync (last_sync : value) : P unit :=
  c <~ get_self config ;;
  if negb (truthy c) then ret tt
  else
    new_config <~ setitem_config "last_sync" last_sync ;;
    replace_config new_config.

(** [Config.plugins] *)
Definition plugins : P value :=
  c <~ get_self config ;;
  if negb (truthy c) then ret (VList [])
  else get c "plugins" (VList []).

(** [Config.update_plugins] *)
Definition update_plugins (plugins : value) : P unit :=
  c <~ get_self config ;;
  if negb (truthy c) then ret tt
  else
    new_config <~ setitem_config "plugins" plugins ;;
    replace_config new_config.

(** [Config.user_property] *)
Definition user_property (prop : string) : P value :=
  c <~ get_self config ;;
  if negb (truthy c) then ret VNone
  else
    user <~ get c "user" VNone ;;
    if negb (truthy user) then ret VNone
    else get user prop VNone.

(** [a or b], where [b] is only run when [a] is false. *)
Definition or_else (a : value) (b : P value) : P value :=
  if truthy a then ret a else b.

(** [Config.username] *)
Definition username : P value :=
  cached <~ get_self _username ;;
  if truthy cached then ret cached
  else
    login <~ user_property "login" ;;
    v <~ or_else login (input "Username: ") ;;
    set_username v ~;;
    ret v.

(** [Config.password] *)
Definition password : P value :=
  cached <~ get_self _password ;;
  if truthy cached then ret cached
  else
    pw <~ user_property "password" ;;
    v <~ or_else pw getpass ;;
    set_password v ~;;
    ret v.

(** [Config.files_destination] *)
Definition files_destination (O : os_env) : P value :=
  a <~ get_self args_destination ;;
  match a with
  | Some files_destination => ret (VStr (expanduser O files_destination))
  | None =>
      c <~ get_self config ;;
      if negb (truthy c) then ret VNone
      else
        files_destination <~ get c "files_destination" (VStr "") ;;
        expanduser_value O files_destination
  end.

(** [Config.media_destination] *)
Definition media_destination (O : os_env) : P value :=
  a <~ get_self args_media ;;
  match a with
  | Some media_destination => ret (VStr (expanduser O media_destination))
  | None =>
      c <~ get_self config ;;
      if negb (truthy c) then ret VNone
      else
        media_destination <~ get c "media_destination" (VStr "") ;;
        expanduser_value O media_destination
  end.

Definition msg_no_target : string :=
  "Both target directories are missing. You can specify the target directories via the commandline or the JSON config file!".

(** [Config._check] *)
Definition _check (O : os_env) : P unit :=
  fd <~ files_destination O ;;
  both_missing <~ (if negb (truthy fd)
                   then md <~ media_destination O ;; ret (negb (truthy md))
                   else ret false) ;;
  if (both_missing : bool) then throw (ConfigError msg_no_target)
  else
    u <~ username ;;
    if negb (truthy u) then throw (ConfigError "Username is missing")
    else
      p <~ password ;;
      if negb (truthy p) then throw (ConfigError "Password is missing")
      else ret tt.

(** The object as [Config.__init__] leaves it before the file is read:
    nothing cached. *)
Definition fresh (dest media : option string) (c : value) : t :=
  {| args_destination := dest; args_media := media; config := c;
     _username := VNone; _password := VNone |}.

Definition start (o : t) (lines : list string) : state :=
  {| self := o; typed := lines; prompts := []; replaced := [] |}.

(** A sample: no [HOME] in the environment, a home directory in the
    password database. *)
Definition os0 : os_env :=
  {| home := None; pw_self := Some "/home/u/"; getpwnam := fun _ => None |}.

Definition file0 : value :=
  VDict [("user", VDict [("login", VStr "u")]);
         ("files_destination", VStr "~/docs");
         ("last_sync", VInt 5)].

End Config.


(** * Properties *)

Open Scope list_scope.

(** ** Directory entries *)

Section Assoc.
Context {A : Type}.
Implicit Types (k : string) (v : A) (es : list (string * A)).

Lemma assoc_set_eq k v es : assoc k (assoc_set k v es) = Some v.
Proof.
  induction es as [|[k' v'] r IH]; simpl.
  - now rewrite String.eqb_refl.
  - destruct (String.eqb_spec k k') as [->|N]; simpl.
    + now rewrite String.eqb_refl.
    + destruct (String.eqb_spec k k'); [contradiction|exact IH].
Qed.

Lemma assoc_set_neq k k' v es : k <> k' -> assoc k' (assoc_set k v es) = assoc k' es.
Proof.
  intros N. induction es as [|[k0 v0] r IH]; simpl.
  - destruct (String.eqb_spec k' k); [congruence|reflexivity].
  - destruct (String.eqb_spec k k0) as [->|N0]; simpl.
    + destruct (String.eqb_spec k' k0); [congruence|reflexivity].
    + destruct (String.eqb_spec k' k0); [reflexivity|exact IH].
Qed.

Lemma assoc_del_eq k es : assoc k (assoc_del k es) = None.
Proof.
  induction es as [|[k' v'] r IH]; simpl; auto.
  destruct (String.eqb_spec k k') as [->|N]; simpl; auto.
  destruct (String.eqb_spec k k'); [contradiction|exact IH].
Qed.

Lemma assoc_del_neq k k' es : k <> k' -> assoc k' (assoc_del k es) = assoc k' es.
Proof.
  intros N. induction es as [|[k0 v0] r IH]; simpl; auto.
  destruct (String.eqb_spec k k0) as [->|N0]; simpl.
  - destruct (String.eqb_spec k' k0); [congruence|exact IH].
  - destruct (String.eqb_spec k' k0); [reflexivity|exact IH].
Qed.

Lemma assoc_set_same k v es : assoc k es = Some v -> assoc_set k v es = es.
Proof.
  induction es as [|[k' v'] r IH]; simpl; [discriminate|].
  destruct (String.eqb_spec k k') as [->|N]; intros H.
  - now inversion H.
  - now rewrite IH.
Qed.

Lemma assoc_set_set k v1 v2 es :
  assoc_set k v2 (assoc_set k v1 es) = assoc_set k v2 es.
Proof.
  induction es as [|[k' v'] r IH]; simpl.
  - now rewrite String.eqb_refl.
  - destruct (String.eqb_spec k k') as [->|N]; simpl.
    + now rewrite String.eqb_refl.
    + destruct (String.eqb_spec k k'); [contradiction|now rewrite IH].
Qed.

Lemma assoc_del_set k v es : assoc_del k (assoc_set k v es) = assoc_del k es.
Proof.
  induction es as [|[k' v'] r IH]; simpl.
  - now rewrite String.eqb_refl.
  - destruct (String.eqb_spec k k') as [->|N]; simpl.
    + now rewrite String.eqb_refl.
    + destruct (String.eqb_spec k k'); [contradiction|now rewrite IH].
Qed.

Lemma assoc_not_mem k es : mem k (map fst es) = false -> assoc k es = None.
Proof.
  induction es as [|[k' v'] r IH]; simpl; auto.
  destruct (String.eqb_spec k k'); simpl; [discriminate|exact IH].
Qed.

Lemma assoc_app_r k es1 es2 :
  mem k (map fst es1) = false -> assoc k (es1 ++ es2) = assoc k es2.
Proof.
  induction es1 as [|[k' v'] r IH]; simpl; auto.
  destruct (String.eqb_spec k k'); simpl; [discriminate|exact IH].
Qed.

Lemma assoc_set_app_r k v v0 es1 es2 :
  mem k (map fst es1) = false ->
  assoc_set k v (es1 ++ (k, v0) :: es2) = es1 ++ (k, v) :: es2.
Proof.
  induction es1 as [|[k' v'] r IH]; simpl.
  - now rewrite String.eqb_refl.
  - destruct (String.eqb_spec k k'); simpl; [discriminate|].
    intros H. now rewrite IH.
Qed.

Lemma assoc_del_absent k es : mem k (map fst es) = false -> assoc_del k es = es.
Proof.
  induction es as [|[k' v'] r IH]; simpl; auto.
  destruct (String.eqb_spec k k'); simpl; [discriminate|].
  intros H. now rewrite IH.
Qed.

Lemma assoc_del_app_r k v0 es1 es2 :
  mem k (map fst es1) = false -> mem k (map fst es2) = false ->
  assoc_del k (es1 ++ (k, v0) :: es2) = es1 ++ es2.
Proof.
  induction es1 as [|[k' v'] r IH]; simpl.
  - rewrite String.eqb_refl. intros _ H. now apply assoc_del_absent.
  - destruct (String.eqb_spec k k'); simpl; [discriminate|].
    intros H1 H2. now rewrite IH.
Qed.

End Assoc.

Lemma mem_app x l1 l2 : mem x (l1 ++ l2) = mem x l1 || mem x l2.
Proof.
  induction l1 as [|y r IH]; simpl; auto.
  now rewrite IH, orb_assoc.
Qed.

Lemma nodupb_app_cons l1 x l2 :
  nodupb (l1 ++ x :: l2) = true ->
  mem x l1 = false /\ mem x l2 = false /\ nodupb (l1 ++ l2) = true.
Proof.
  induction l1 as [|y r IH]; simpl.
  - intros H. apply andb_true_iff in H as [H1 H2].
    apply negb_true_iff in H1. auto.
  - intros H. apply andb_true_iff in H as [H1 H2].
    apply negb_true_iff in H1. rewrite mem_app in H1. simpl in H1.
    apply orb_false_iff in H1 as [H1 H3]. apply orb_false_iff in H3 as [H3 H4].
    destruct (IH H2) as (I1 & I2 & I3).
    rewrite String.eqb_sym in H3.
    rewrite H3, I1, I3, mem_app, H1, H4. auto.
Qed.

(** ** Paths in trees *)

Lemma lookup_app p q n :
  lookup (p ++ q) n =
  match lookup p n with
  | Some c => lookup q c
  | None => None
  end.
Proof.
  revert n. induction p as [|x p IH]; intros n; simpl; auto.
  destruct n as [c|es]; auto.
  destruct (assoc x es); auto.
Qed.

Lemma put_cons x y q v es :
  put (x :: y :: q) v (Dir es) =
  match assoc x es with
  | Some c => Dir (assoc_set x (put (y :: q) v c) es)
  | None => Dir es
  end.
Proof. reflexivity. Qed.

Lemma lookup_cons x q es :
  lookup (x :: q) (Dir es) =
  match assoc x es with
  | Some c => lookup q c
  | None => None
  end.
Proof. reflexivity. Qed.

Lemma put_same p n c : lookup p n = Some c -> put p (Some c) n = n.
Proof.
  revert n. induction p as [|x q IH]; intros n; simpl; auto.
  destruct n as [c0|es]; [discriminate|].
  destruct (assoc x es) as [c1|] eqn:Hx; [|discriminate].
  destruct q as [|y q'].
  - simpl. intros H. inversion H; subst. now rewrite (assoc_set_same _ _ _ Hx).
  - intros H. rewrite (IH _ H). now rewrite (assoc_set_same _ _ _ Hx).
Qed.

Lemma lookup_put_none p n : p <> [] -> lookup p (put p None n) = None.
Proof.
  revert n. induction p as [|x q IH]; intros n Hp; [congruence|].
  destruct n as [c0|es]; simpl; auto.
  destruct q as [|y q'].
  - simpl. now rewrite assoc_del_eq.
  - destruct (assoc x es) as [c1|] eqn:Hx.
    + cbn [lookup]. rewrite assoc_set_eq. apply IH. discriminate.
    + cbn [lookup]. now rewrite Hx.
Qed.

Lemma lookup_put_eq p n v :
  p <> [] -> isdir (removelast p) n = true -> lookup p (put p v n) = v.
Proof.
  revert n. induction p as [|x q IH]; intros n Hp; [congruence|].
  destruct q as [|y q'].
  - simpl. unfold isdir. simpl. destruct n as [c0|es]; [discriminate|].
    intros _. destruct v; simpl.
    + now rewrite assoc_set_eq.
    + now rewrite assoc_del_eq.
  - unfold isdir. change (removelast (x :: y :: q')) with (x :: removelast (y :: q')).
    cbn [lookup put]. destruct n as [c0|es]; [discriminate|].
    destruct (assoc x es) as [c1|] eqn:Hx; [|discriminate].
    intros H. cbn [lookup]. rewrite assoc_set_eq. apply IH; [discriminate|exact H].
Qed.

Lemma lookup_parent_isdir p n c :
  p <> [] -> lookup p n = Some c -> isdir (removelast p) n = true.
Proof.
  revert n. induction p as [|x q IH]; intros n Hp; [congruence|].
  destruct q as [|y q'].
  - simpl. unfold isdir. simpl. destruct n; [discriminate|reflexivity].
  - unfold isdir. change (removelast (x :: y :: q')) with (x :: removelast (y :: q')).
    cbn [lookup]. destruct n as [c0|es]; [discriminate|].
    destruct (assoc x es) as [c1|] eqn:Hx; [|discriminate].
    intros H. apply (IH c1); [discriminate|exact H].
Qed.

Lemma lookup_put_present p n v c :
  p <> [] -> lookup p n = Some c -> lookup p (put p v n) = v.
Proof.
  intros Hp H. apply lookup_put_eq; auto. eapply lookup_parent_isdir; eauto.
Qed.

Lemma put_put p n c v : put p v (put p (Some c) n) = put p v n.
Proof.
  revert n. induction p as [|x q IH]; intros n; [reflexivity|].
  destruct n as [c0|es]; [reflexivity|].
  destruct q as [|y q'].
  - destruct v; simpl.
    + now rewrite assoc_set_set.
    + now rewrite assoc_del_set.
  - change (put (x :: y :: q') (Some c) (Dir es)) with
      (match assoc x es with
       | Some c1 => Dir (assoc_set x (put (y :: q') (Some c) c1) es)
       | None => Dir es
       end).
    destruct (assoc x es) as [c1|] eqn:Hx.
    + change (put (x :: y :: q') v (Dir ?e)) with
        (match assoc x e with
         | Some c1 => Dir (assoc_set x (put (y :: q') v c1) e)
         | None => Dir e
         end).
      rewrite assoc_set_eq, IH, assoc_set_set, Hx. reflexivity.
    + reflexivity.
Qed.

(** Replacing an entry of the directory at [d] is replacing that directory. *)
Lemma put_child d x v n es :
  d <> [] -> lookup d n = Some (Dir es) ->
  put (d ++ [x]) v n =
  put d (Some (Dir (match v with
                    | Some c => assoc_set x c es
                    | None => assoc_del x es
                    end))) n.
Proof.
  revert n. induction d as [|y q IH]; intros n Hd; [congruence|].
  destruct q as [|z q'].
  - simpl. destruct n as [c0|es0]; [discriminate|].
    destruct (assoc y es0) as [c1|]; [|discriminate].
    intros H. inversion H; subst. reflexivity.
  - change ((y :: z :: q') ++ [x]) with (y :: z :: (q' ++ [x])).
    destruct n as [c0|es0]; [discriminate|].
    rewrite lookup_cons, !put_cons.
    destruct (assoc y es0) as [c1|] eqn:Hy; [|discriminate].
    intros H. change (z :: q' ++ [x]) with ((z :: q') ++ [x]).
    rewrite IH; auto; discriminate.
Qed.

(** ** Trees *)

Lemma wfb_dir es : wfb (Dir es) = nodupb (map fst es) && wfb_all es.
Proof.
  simpl. f_equal. induction es as [|[x c] r IH]; simpl; auto. now rewrite IH.
Qed.

Lemma prune_topdown_dir e es :
  prune_topdown (Dir (e :: es)) = Some (Dir (prune_entries (e :: es))).
Proof. reflexivity. Qed.

Lemma height_dir es : height (Dir es) = S (height_all es).
Proof.
  simpl. f_equal. induction es as [|[x c] r IH]; simpl; auto.
Qed.

Lemma height_assoc x es c : assoc x es = Some c -> height c < height (Dir es).
Proof.
  rewrite height_dir. induction es as [|[y c'] r IH]; simpl; [discriminate|].
  destruct (String.eqb_spec x y).
  - intros H. inversion H; subst. lia.
  - intros H. specialize (IH H). lia.
Qed.

Lemma height_lookup p n c : lookup p n = Some c -> height c <= height n.
Proof.
  revert n. induction p as [|x q IH]; intros n; simpl.
  - intros H. inversion H. lia.
  - destruct n as [c0|es]; [discriminate|].
    destruct (assoc x es) as [c1|] eqn:Hx; [|discriminate].
    intros H. apply IH in H. apply height_assoc in Hx. lia.
Qed.

Lemma wfb_assoc x es c : wfb (Dir es) = true -> assoc x es = Some c -> wfb c = true.
Proof.
  rewrite wfb_dir. intros H. apply andb_true_iff in H as [_ H]. revert H.
  unfold wfb_all. induction es as [|[y c'] r IH]; simpl; [discriminate|].
  intros H. apply andb_true_iff in H as [H1 H2].
  destruct (String.eqb_spec x y).
  - intros E. now inversion E; subst.
  - auto.
Qed.

Lemma wfb_lookup p n c : wfb n = true -> lookup p n = Some c -> wfb c = true.
Proof.
  revert n. induction p as [|x q IH]; intros n W; simpl.
  - intros H. now inversion H; subst.
  - destruct n as [c0|es]; [discriminate|].
    destruct (assoc x es) as [c1|] eqn:Hx; [|discriminate].
    apply IH. eapply wfb_assoc; eauto.
Qed.

(** ** The walk of [remove_empty_dirs] *)

Import Extractor.

Lemma bind_ok {S A B} (m : M S A) (k : A -> M S B) s s1 a :
  m s = (s1, Ok a) -> bind m k s = k a s1.
Proof. unfold bind. now intros ->. Qed.

Lemma bind_raise {S A B} (m : M S A) (k : A -> M S B) s s1 e :
  m s = (s1, Raise e) -> bind m k s = (s1, Raise e).
Proof. unfold bind. now intros ->. Qed.

Lemma subdir_names_cons_file x c r :
  subdir_names ((x, File c) :: r) = subdir_names r.
Proof. reflexivity. Qed.

Lemma subdir_names_cons_dir x es r :
  subdir_names ((x, Dir es) :: r) = x :: subdir_names r.
Proof. reflexivity. Qed.

Lemma names_nonempty (e : string * node) es :
  is_nil (subdir_names (e :: es)) && is_nil (file_names (e :: es)) = false.
Proof.
  destruct e as [x [c|l]]; unfold subdir_names, file_names; simpl.
  - now rewrite andb_false_r.
  - reflexivity.
Qed.

Section Walk.
Variable k : nat.
Variable d : path.
Hypothesis d_not_root : d <> [].

(** What the walk with fuel [k] does below [d], assumed for the
    sub-directories. *)
Hypothesis walk_children :
  forall x t fs,
    height t < k -> wfb t = true ->
    lookup (d ++ [x]) fs = Some t ->
    walk_remove k (d ++ [x]) fs = (put (d ++ [x]) (prune_topdown t) fs, Ok tt).

Lemma walk_loop l : forall done fs,
  nodupb (map fst (done ++ l)) = true ->
  wfb_all l = true ->
  height_all l < k ->
  lookup d fs = Some (Dir (done ++ l)) ->
  for_each (subdir_names l) (fun x => walk_remove k (join d [x])) fs =
  (put d (Some (Dir (done ++ prune_entries l))) fs, Ok tt).
Proof.
  induction l as [|[x c] r IH]; intros done fs ND W Hh L.
  - simpl. rewrite app_nil_r in *. unfold ret. now rewrite (put_same _ _ _ L).
  - rewrite map_app in ND. simpl in ND.
    destruct (nodupb_app_cons _ _ _ ND) as (M1 & M2 & ND').
    unfold wfb_all in W. simpl in W. apply andb_true_iff in W as [Wc Wr].
    unfold height_all in Hh. simpl in Hh.
    assert (Lx : lookup (d ++ [x]) fs = Some c).
    { rewrite lookup_app, L. simpl.
      rewrite assoc_app_r by exact M1. simpl. now rewrite String.eqb_refl. }
    destruct c as [c|es'].
    + (* a regular file: not visited, kept *)
      rewrite subdir_names_cons_file. simpl.
      specialize (IH (done ++ [(x, File c)]) fs).
      rewrite <- !app_assoc in IH. simpl in IH.
      apply IH; auto;
        first [rewrite map_app; simpl; exact ND | unfold height_all; lia].
    + (* a directory: visited *)
      rewrite subdir_names_cons_dir. cbn [for_each].
      assert (Hw := walk_children x (Dir es') fs ltac:(lia) Wc Lx).
      unfold join. rewrite (bind_ok _ _ _ _ _ Hw).
      rewrite (put_child d x _ fs _ d_not_root L).
      cbn [prune_entries].
      destruct (prune_topdown (Dir es')) as [c'|].
      * rewrite assoc_set_app_r by exact M1.
        set (fs1 := put d _ fs).
        specialize (IH (done ++ [(x, c')]) fs1).
        rewrite <- !app_assoc in IH. simpl in IH.
        unfold join in IH. rewrite IH.
        -- unfold fs1. now rewrite put_put.
        -- rewrite map_app. simpl. exact ND.
        -- exact Wr.
        -- unfold height_all. lia.
        -- unfold fs1. eapply lookup_put_present; eauto.
      * rewrite assoc_del_app_r by assumption.
        set (fs1 := put d _ fs).
        specialize (IH done fs1). unfold join in IH. rewrite IH.
        -- unfold fs1. now rewrite put_put.
        -- rewrite map_app. exact ND'.
        -- exact Wr.
        -- unfold height_all. lia.
        -- unfold fs1. eapply lookup_put_present; eauto.
Qed.

End Walk.

Lemma walk_remove_prune k : forall d t fs,
  d <> [] -> height t < k -> wfb t = true ->
  lookup d fs = Some t ->
  walk_remove k d fs = (put d (prune_topdown t) fs, Ok tt).
Proof.
  induction k as [|k IH]; intros d t fs Hd Hh W L; [lia|].
  cbn [walk_remove]. rewrite L.
  destruct t as [c|es].
  - simpl. now rewrite (put_same _ _ _ L).
  - destruct es as [|e es].
    + simpl. unfold bind, rmdir. rewrite L.
      destruct d; [congruence|]. reflexivity.
    + cbv zeta. rewrite names_nonempty.
      rewrite (bind_ok _ _ fs fs tt) by reflexivity.
      rewrite prune_topdown_dir.
      rewrite wfb_dir in W. apply andb_true_iff in W as [ND W].
      rewrite height_dir in Hh.
      apply (walk_loop k d Hd) with (done := []); auto.
      * intros x t fs0 H1 H2 H3. apply IH; auto.
        destruct d; discriminate.
      * lia.
Qed.

Lemma remove_empty_dirs_prune d t fs :
  d <> [] -> wfb t = true -> lookup d fs = Some t ->
  remove_empty_dirs d fs = (put d (prune_topdown t) fs, Ok tt).
Proof.
  intros Hd W L. unfold remove_empty_dirs.
  apply walk_remove_prune; auto.
  apply height_lookup in L. lia.
Qed.

(** ** Names stay unique *)

Lemma mem_assoc_set_neq {A} y x (c : A) es :
  y <> x -> mem y (map fst (assoc_set x c es)) = mem y (map fst es).
Proof.
  intros N. induction es as [|[z v] r IH]; simpl.
  - destruct (String.eqb_spec y x); [contradiction|reflexivity].
  - destruct (String.eqb_spec x z); simpl; [reflexivity|now rewrite IH].
Qed.

Lemma nodupb_assoc_set {A} x (c : A) es :
  nodupb (map fst es) = true -> nodupb (map fst (assoc_set x c es)) = true.
Proof.
  induction es as [|[z v] r IH]; simpl; auto.
  intros H. apply andb_true_iff in H as [H1 H2].
  destruct (String.eqb_spec x z) as [->|N]; simpl.
  - now rewrite H1, H2.
  - rewrite mem_assoc_set_neq by congruence. now rewrite H1, IH.
Qed.

Lemma mem_assoc_del {A} y x (es : list (string * A)) :
  mem y (map fst es) = false -> mem y (map fst (assoc_del x es)) = false.
Proof.
  induction es as [|[z v] r IH]; simpl; auto.
  intros H. apply orb_false_iff in H as [H1 H2].
  destruct (String.eqb x z); simpl; auto. now rewrite H1, IH.
Qed.

Lemma nodupb_assoc_del {A} x (es : list (string * A)) :
  nodupb (map fst es) = true -> nodupb (map fst (assoc_del x es)) = true.
Proof.
  induction es as [|[z v] r IH]; simpl; auto.
  intros H. apply andb_true_iff in H as [H1 H2]. apply negb_true_iff in H1.
  destruct (String.eqb x z); simpl; auto.
  now rewrite mem_assoc_del, IH.
Qed.

Lemma wfb_all_assoc_set x c es :
  wfb_all es = true -> wfb c = true -> wfb_all (assoc_set x c es) = true.
Proof.
  unfold wfb_all. induction es as [|[z v] r IH]; simpl; intros H Hc.
  - now rewrite Hc.
  - apply andb_true_iff in H as [H1 H2].
    destruct (String.eqb x z); simpl.
    + now rewrite Hc, H2.
    + now rewrite H1, IH.
Qed.

Lemma wfb_all_assoc_del x es :
  wfb_all es = true -> wfb_all (assoc_del x es) = true.
Proof.
  unfold wfb_all. induction es as [|[z v] r IH]; simpl; intros H; auto.
  apply andb_true_iff in H as [H1 H2].
  destruct (String.eqb x z); simpl; auto. now rewrite H1, IH.
Qed.

Lemma wfb_set x c es :
  wfb (Dir es) = true -> wfb c = true -> wfb (Dir (assoc_set x c es)) = true.
Proof.
  rewrite !wfb_dir. intros H Hc. apply andb_true_iff in H as [H1 H2].
  now rewrite nodupb_assoc_set, wfb_all_assoc_set.
Qed.

Lemma wfb_del x es : wfb (Dir es) = true -> wfb (Dir (assoc_del x es)) = true.
Proof.
  rewrite !wfb_dir. intros H. apply andb_true_iff in H as [H1 H2].
  now rewrite nodupb_assoc_del, wfb_all_assoc_del.
Qed.

Lemma wfb_put p : forall v n,
  wfb n = true ->
  match v with Some c => wfb c = true | None => True end ->
  wfb (put p v n) = true.
Proof.
  induction p as [|x q IH]; intros v n W Hv; [exact W|].
  destruct n as [c0|es]; [exact W|].
  destruct q as [|y q'].
  - destruct v; simpl put.
    + now apply wfb_set.
    + now apply wfb_del.
  - rewrite put_cons. destruct (assoc x es) as [c1|] eqn:Hx; [|exact W].
    apply wfb_set; auto. apply IH; auto. eapply wfb_assoc; eauto.
Qed.

Lemma wfb_mkdir_p p : forall n n',
  wfb n = true -> mkdir_p p n = Ok n' -> wfb n' = true.
Proof.
  induction p as [|x q IH]; intros n n' W; destruct n as [c0|es]; simpl;
    try discriminate.
  - intros H. now inversion H; subst.
  - destruct (mkdir_p q _) as [c|e] eqn:Hq; [|discriminate].
    intros H. inversion H; subst. apply wfb_set; auto.
    eapply IH; [|exact Hq].
    destruct (assoc x es) eqn:Hx; [eapply wfb_assoc; eauto|reflexivity].
Qed.

Lemma keeps_wf_ret {A} (a : A) : keeps_wf (ret a).
Proof. intros fs W. exact W. Qed.

Lemma keeps_wf_raise {A} e : keeps_wf (@raise node A e).
Proof. intros fs W. exact W. Qed.

Lemma keeps_wf_bind {A B} (m : M node A) (f : A -> M node B) :
  keeps_wf m -> (forall a, keeps_wf (f a)) -> keeps_wf (bind m f).
Proof.
  intros Hm Hf fs W. unfold bind. specialize (Hm fs W).
  destruct (m fs) as [fs1 [a|e]]; simpl in *; auto. now apply Hf.
Qed.

Lemma keeps_wf_for_each {A} (xs : list A) body :
  (forall x, keeps_wf (body x)) -> keeps_wf (for_each xs body).
Proof.
  intros Hb. induction xs as [|x r IH]; simpl.
  - apply keeps_wf_ret.
  - apply keeps_wf_bind; auto.
Qed.

Lemma keeps_wf_listdir p : keeps_wf (listdir p).
Proof.
  intros fs W. unfold listdir. destruct (lookup p fs) as [[|]|]; exact W.
Qed.

Lemma keeps_wf_rmdir p : keeps_wf (rmdir p).
Proof.
  intros fs W. unfold rmdir.
  destruct (lookup p fs) as [[|[|]]|]; try exact W.
  destruct p; [exact W|]. cbn [fst]. now apply wfb_put.
Qed.

Lemma keeps_wf_mkdir p : keeps_wf (mkdir p).
Proof.
  intros fs W. unfold mkdir.
  destruct (lookup p fs); [exact W|].
  destruct (lookup (removelast p) fs) as [[|]|]; try exact W.
  cbn [fst]. now apply wfb_put.
Qed.

Lemma keeps_wf_makedirs b p : keeps_wf (makedirs b p).
Proof.
  intros fs W. unfold makedirs.
  destruct (negb b && exists_ p fs); [exact W|].
  destruct (mkdir_p p fs) eqn:H; [|exact W].
  cbn [fst]. eapply wfb_mkdir_p; eauto.
Qed.

Lemma keeps_wf_write_file p c : keeps_wf (write_file p c).
Proof.
  intros fs W. unfold write_file.
  destruct (lookup p fs) as [[|]|]; try exact W;
    destruct p; try exact W;
    destruct (lookup (removelast _) fs) as [[|]|]; try exact W;
    cbn [fst]; now apply wfb_put.
Qed.

Lemma keeps_wf_rename s t : keeps_wf (rename s t).
Proof.
  intros fs W. unfold rename.
  destruct (lookup s fs) as [n|] eqn:Hs; [|exact W].
  destruct s; [exact W|].
  destruct (lookup (removelast t) _) as [[|]|]; try exact W.
  destruct t; [exact W|]. cbn [fst].
  apply wfb_put; [now apply wfb_put|]. eapply wfb_lookup; eauto.
Qed.

Lemma keeps_wf_move s t : keeps_wf (move s t).
Proof.
  intros fs W. unfold move.
  destruct (isdir t fs).
  - destruct (exists_ _ fs); [exact W|]. now apply keeps_wf_rename.
  - destruct (exists_ t fs); [|now apply keeps_wf_rename].
    destruct (lookup s fs) as [[|]|]; try exact W.
    cbn [fst]. apply wfb_put; [now apply wfb_put|reflexivity].
Qed.

Lemma keeps_wf_copy_member target r : keeps_wf (Zip.copy_member target r).
Proof.
  destruct r as [data| |name|written|written name]; cbn [Zip.copy_member].
  - apply keeps_wf_write_file.
  - apply keeps_wf_raise.
  - apply keeps_wf_raise.
  - apply keeps_wf_bind; [apply keeps_wf_write_file|intros _; apply keeps_wf_raise].
  - apply keeps_wf_bind; [apply keeps_wf_write_file|intros _; apply keeps_wf_raise].
Qed.

Lemma keeps_wf_extract_member dest m : keeps_wf (Zip.extract_member dest m).
Proof.
  unfold Zip.extract_member. apply keeps_wf_bind.
  - intros fs W. unfold Zip.make_upperdirs. destruct (exists_ _ fs); [exact W|].
    now apply keeps_wf_makedirs.
  - intros _. unfold Zip.write_member, Zip.is_dir.
    destruct (Zip.last_char (filename m)) as [c|].
    + apply keeps_wf_bind; [apply keeps_wf_ret|]. intros [|].
      * intros fs W. destruct (isdir _ fs); [exact W|].
        now apply keeps_wf_mkdir.
      * apply keeps_wf_copy_member.
    + apply keeps_wf_bind; [apply keeps_wf_raise|]. intros [|].
      * intros fs W. destruct (isdir _ fs); [exact W|].
        now apply keeps_wf_mkdir.
      * apply keeps_wf_copy_member.
Qed.

Lemma keeps_wf_getinfo z name : keeps_wf (Zip.getinfo z name).
Proof.
  unfold Zip.getinfo. destruct (Zip.find_info name z);
    [apply keeps_wf_ret|apply keeps_wf_raise].
Qed.

Lemma keeps_wf_extractall dest z : keeps_wf (Zip.extractall dest z).
Proof.
  apply keeps_wf_for_each. intros name.
  apply keeps_wf_bind; [apply keeps_wf_getinfo|].
  intros m. apply keeps_wf_extract_member.
Qed.

Lemma keeps_wf_remove_intermediary_dir d : keeps_wf (remove_intermediary_dir d).
Proof.
  unfold remove_intermediary_dir. apply keeps_wf_bind; [apply keeps_wf_listdir|].
  intros subdirs. destruct (Nat.eqb _ 1); [|apply keeps_wf_ret].
  apply keeps_wf_bind; [|intros _; apply keeps_wf_rmdir].
  intros fs W. apply keeps_wf_for_each; auto. intros x. apply keeps_wf_move.
Qed.

Lemma keeps_wf_ZipFile a : keeps_wf (Zip.ZipFile a).
Proof.
  intros fs W. unfold Zip.ZipFile. destruct (lookup a fs) as [[[|]|]|]; exact W.
Qed.

Lemma keeps_wf_unpack_and_flatten self a dst :
  keeps_wf (unpack_and_flatten self a dst).
Proof.
  unfold unpack_and_flatten.
  apply keeps_wf_bind; [apply keeps_wf_ZipFile|]. intros z.
  apply keeps_wf_bind; [apply keeps_wf_extractall|]. intros _.
  apply keeps_wf_bind; [apply keeps_wf_remove_intermediary_dir|]. intros _.
  apply keeps_wf_ret.
Qed.

(** ** Pruning *)

Import Samples.

Lemma assoc_prune_entries x l :
  nodupb (map fst l) = true ->
  assoc x (prune_entries l) =
  match assoc x l with
  | Some c => prune_topdown c
  | None => None
  end.
Proof.
  induction l as [|[y c] r IH]; simpl; auto.
  intros H. apply andb_true_iff in H as [H1 H2]. apply negb_true_iff in H1.
  destruct (String.eqb_spec x y) as [->|N].
  - destruct (prune_topdown c) as [c'|]; simpl.
    + now rewrite String.eqb_refl.
    + rewrite IH by exact H2. now rewrite (assoc_not_mem _ _ H1).
  - destruct (prune_topdown c) as [c'|]; simpl.
    + destruct (String.eqb_spec x y); [contradiction|]. now apply IH.
    + now apply IH.
Qed.

(** What one pass leaves at a path: a directory found empty is gone, any
    other directory is still a directory, files and free names are as
    before. *)
Lemma prune_topdown_lookup q : forall t,
  wfb t = true ->
  match lookup q t with
  | Some (Dir []) => olookup q (prune_topdown t) = None
  | Some (Dir (_ :: _)) => exists es', olookup q (prune_topdown t) = Some (Dir es')
  | Some (File c) => olookup q (prune_topdown t) = Some (File c)
  | None => olookup q (prune_topdown t) = None
  end.
Proof.
  induction q as [|x r IH]; intros t W.
  - simpl. destruct t as [c|[|e es]]; simpl; eauto.
  - destruct t as [c|[|e es]]; [reflexivity|reflexivity|].
    rewrite prune_topdown_dir. cbn [olookup]. rewrite !lookup_cons.
    rewrite wfb_dir in W. apply andb_true_iff in W as [ND W'].
    rewrite assoc_prune_entries by exact ND.
    destruct (assoc x (e :: es)) as [c|] eqn:Hx; [|reflexivity].
    assert (Wc : wfb c = true).
    { apply (wfb_assoc x (e :: es)); auto. rewrite wfb_dir. now rewrite ND, W'. }
    specialize (IH c Wc). unfold olookup in IH.
    destruct (prune_topdown c) as [c'|]; exact IH.
Qed.

Lemma extract_after_flatten self a dst fs fs1 d :
  unpack_and_flatten self a dst fs = (fs1, Ok d) ->
  extract self a dst true fs =
  match remove_empty_dirs d fs1 with
  | (fs2, Ok _) => (fs2, Ok d)
  | (fs2, Raise BadZipFile) =>
      (fs2, Raise (ExtractionError ("Cannot extract file: " ++ path_str a)%string))
  | (fs2, Raise e) => (fs2, Raise e)
  end.
Proof.
  unfold unpack_and_flatten, extract, extract_body, try_except, bind.
  destruct (Zip.ZipFile a fs) as [fs_a [z|e]]; [|discriminate].
  destruct (Zip.extractall _ z fs_a) as [fs_b [[]|e]]; [|discriminate].
  destruct (remove_intermediary_dir _ fs_b) as [fs_c [[]|e]]; [|discriminate].
  unfold ret. intros H. inversion H; subst.
  destruct (remove_empty_dirs _ fs1) as [fs2 [[]|e]]; [reflexivity|].
  destruct e; reflexivity.
Qed.

Lemma walk_remove_absent k d fs :
  lookup d fs = None -> walk_remove (S k) d fs = (fs, Ok tt).
Proof. intros L. simpl. now rewrite L. Qed.

(** C1, as the program has it.  After the flattening step every directory
    of the unpacked tree that is then empty is removed, in one top-down
    pass: a directory that held anything at that moment stays a directory
    (also when the pass empties it), files and free names are untouched.
    For the archive that unpacks to empty1/empty2 alone, nothing is left
    under the staging directory of the course. *)
Theorem remove_empty_dirs_single_pass :
  forall self a dst fs fs1 d,
    wfb fs = true -> d <> [] ->
    unpack_and_flatten self a dst fs = (fs1, Ok d) ->
    (exists fs2,
        extract self a dst true fs = (fs2, Ok d) /\
        forall q,
          match lookup (join d q) fs1 with
          | Some (Dir []) => lookup (join d q) fs2 = None
          | Some (Dir (_ :: _)) => isdir (join d q) fs2 = true
          | Some (File c) => lookup (join d q) fs2 = Some (File c)
          | None => lookup (join d q) fs2 = None
          end) /\
    (exists fs2,
        extract extractor0 archive0 "S" true (disk zip_empty_chain)
        = (fs2, Ok ["w"; "extracted"; "S"]) /\
        lookup ["w"; "extracted"; "S"] fs2 = Some (Dir [])).
Proof.
  intros self a dst fs fs1 d W Hd H. split.
  - rewrite (extract_after_flatten _ _ _ _ _ _ H).
    assert (W1 : wfb fs1 = true).
    { generalize (keeps_wf_unpack_and_flatten self a dst fs W). now rewrite H. }
    destruct (lookup d fs1) as [t|] eqn:L.
    + assert (Wt : wfb t = true) by (eapply wfb_lookup; eauto).
      rewrite (remove_empty_dirs_prune d t fs1 Hd Wt L).
      eexists; split; [reflexivity|]. intros q. unfold join, isdir.
      rewrite !lookup_app, L, (lookup_put_present d fs1 _ t Hd L).
      generalize (prune_topdown_lookup q t Wt). unfold olookup.
      destruct (lookup q t) as [[c|[|e es]]|];
        destruct (prune_topdown t); auto; try discriminate.
      * intros [es' ->]. reflexivity.
      * intros [es' E]. discriminate.
    + unfold remove_empty_dirs. rewrite walk_remove_absent by exact L.
      eexists; split; [reflexivity|]. intros q. unfold join.
      rewrite lookup_app, L. reflexivity.
  - eexists. split; vm_compute; reflexivity.
Qed.

Lemma remove_empty_dirs_single_pass_witness :
  exists fs2,
    extract extractor0 archive0 "S" true (disk zip_chain_and_file)
    = (fs2, Ok ["w"; "extracted"; "S"]) /\
    lookup ["w"; "extracted"; "S"; "a"; "b"] fs2 = None /\
    isdir ["w"; "extracted"; "S"; "a"] fs2 = true.
Proof.
  destruct (remove_empty_dirs_single_pass extractor0 archive0 "S"
              (disk zip_chain_and_file)
              (fst (unpack_and_flatten extractor0 archive0 "S" (disk zip_chain_and_file)))
              ["w"; "extracted"; "S"]
              eq_refl ltac:(discriminate) eq_refl) as [[fs2 [E P]] _].
  exists fs2. split; [exact E|]. split.
  - exact (P ["a"; "b"]).
  - exact (P ["a"]).
Defined.

(** The claim of C1 as written fails: for the archive holding the empty
    chain a/b next to a file f, [extract] returns and leaves the directory
    a, which is empty. *)
Lemma pruned_to_fixpoint_fails :
  ~ pruned_to_fixpoint extractor0 archive0 "S" (disk zip_chain_and_file).
Proof.
  intros H.
  apply (H _ _ eq_refl ["a"]); [discriminate|].
  vm_compute. reflexivity.
Qed.

(** ** Flattening *)

(** The example of the spec: the wrapper [D] around [a] and [b] unpacks to
    [S/a] and [S/b]. *)
Lemma flatten_wrapped_example :
  exists fs2,
    extract extractor0 archive0 "S" true (disk zip_wrapped)
    = (fs2, Ok ["w"; "extracted"; "S"]) /\
    lookup ["w"; "extracted"; "S"] fs2
    = Some (Dir [("a", File (Bytes "1")); ("b", File (Bytes "2"))]).
Proof. eexists. split; vm_compute; reflexivity. Qed.

(** The test of [remove_intermediary_dir] is the number of entries alone. *)
Lemma remove_intermediary_dir_one_entry d x n fs :
  lookup d fs = Some (Dir [(x, n)]) ->
  remove_intermediary_dir d fs =
  ((fun fs => for_each (glob_star (join d [x]) fs) (fun f => move f d) fs) ;;;
   rmdir (join d [x])) fs.
Proof.
  intros L. unfold remove_intermediary_dir.
  rewrite (bind_ok _ _ fs fs [x]); [reflexivity|].
  unfold listdir. now rewrite L.
Qed.

(** A single entry that is a regular file, whatever its name and content:
    nothing is moved and [os.rmdir] is called on the file. *)
Lemma flatten_single_file_raises d x c fs :
  lookup d fs = Some (Dir [(x, File c)]) ->
  remove_intermediary_dir d fs = (fs, Raise NotADirectoryError).
Proof.
  intros L. rewrite (remove_intermediary_dir_one_entry _ _ _ _ L).
  assert (Lx : lookup (join d [x]) fs = Some (File c)).
  { unfold join. rewrite lookup_app, L. simpl. now rewrite String.eqb_refl. }
  unfold bind, glob_star, rmdir. rewrite Lx. cbn [for_each ret]. now rewrite Lx.
Qed.

(** C2 at the inputs where the program leaves the claim.  An archive whose
    only top-level entry is a regular file takes the flattening branch all
    the same: nothing is hoisted, [os.rmdir] is called on the file, and
    [extract] ends with NotADirectoryError.  A wrapper that holds a hidden
    file keeps it, so removing the wrapper fails; a wrapper that holds an
    entry of its own name cannot be emptied, the move is refused. *)
Theorem flattening_leaves_claim :
  (exists fs2,
      extract extractor0 archive0 "S" true (disk zip_single_file)
      = (fs2, Raise NotADirectoryError) /\
      lookup ["w"; "extracted"; "S"] fs2 = Some (Dir [("a", File (Bytes "1"))])) /\
  (exists fs2,
      extract extractor0 archive0 "S" true (disk zip_hidden)
      = (fs2, Raise DirectoryNotEmpty) /\
      lookup ["w"; "extracted"; "S"] fs2
      = Some (Dir [("D", Dir [(".h", File (Bytes "1"))])])) /\
  (exists fs2,
      extract extractor0 archive0 "S" true (disk zip_same_name)
      = (fs2, Raise ShutilError) /\
      lookup ["w"; "extracted"; "S"] fs2
      = Some (Dir [("D", Dir [("D", File (Bytes "1"))])])).
Proof.
  split; [|split].
  - eexists. split.
    + vm_compute. reflexivity.
    + vm_compute. reflexivity.
  - eexists. split; vm_compute; reflexivity.
  - eexists. split; vm_compute; reflexivity.
Qed.

(** ** Flattening a well-behaved wrapper *)

Lemma assoc_set_absent {A} k (v : A) es :
  mem k (map fst es) = false -> assoc_set k v es = es ++ [(k, v)].
Proof.
  induction es as [|[k' v'] r IH]; simpl; auto.
  destruct (String.eqb_spec k k'); simpl; [discriminate|].
  intros H. now rewrite IH.
Qed.

Lemma last_app_cons {A} (l : list A) x y : List.last (l ++ [x]) y = x.
Proof. induction l as [|a l IH]; simpl; auto. destruct (l ++ [x]) eqn:E; auto.
  destruct l; discriminate. Qed.

Section Hoist.
Variable d : path.
Variable x : string.
Hypothesis d_not_root : d <> [].

(** Moving the first entry [n] of the wrapper [x] into [d]. *)
Lemma move_into n c rest moved fs :
  lookup d fs = Some (Dir ((x, Dir ((n, c) :: rest)) :: moved)) ->
  n <> x -> mem n (map fst moved) = false -> mem n (map fst rest) = false ->
  move (join (join d [x]) [n]) d fs
  = (put d (Some (Dir ((x, Dir rest) :: moved ++ [(n, c)]))) fs, Ok tt).
Proof.
  intros L Nx Nm Nr. unfold join.
  assert (Lx : lookup (d ++ [x]) fs = Some (Dir ((n, c) :: rest))).
  { rewrite lookup_app, L. simpl. now rewrite String.eqb_refl. }
  assert (Ls : lookup ((d ++ [x]) ++ [n]) fs = Some c).
  { rewrite lookup_app, Lx. simpl. now rewrite String.eqb_refl. }
  assert (Ln : lookup (d ++ [n]) fs = None).
  { rewrite lookup_app, L. simpl.
    destruct (String.eqb_spec n x); [contradiction|].
    now rewrite (assoc_not_mem _ _ Nm). }
  assert (P1 : put ((d ++ [x]) ++ [n]) None fs
               = put d (Some (Dir ((x, Dir rest) :: moved))) fs).
  { rewrite (put_child (d ++ [x]) n None fs _ ltac:(destruct d; discriminate) Lx).
    simpl assoc_del. rewrite String.eqb_refl, (assoc_del_absent _ _ Nr).
    rewrite (put_child d x _ fs _ d_not_root L).
    simpl assoc_set. now rewrite String.eqb_refl. }
  unfold move, isdir, exists_, join. rewrite L, last_app_cons, Ln.
  unfold rename. rewrite Ls, P1.
  destruct ((d ++ [x]) ++ [n]) as [|a b] eqn:Es.
  { destruct d; discriminate. }
  rewrite removelast_last.
  rewrite (lookup_put_present d fs _ _ d_not_root L).
  destruct (d ++ [n]) as [|a' b'] eqn:Ed.
  { destruct d; discriminate. }
  rewrite <- Ed.
  rewrite (put_child d n (Some c) _ ((x, Dir rest) :: moved) d_not_root
             (lookup_put_present d fs _ _ d_not_root L)).
  rewrite put_put. simpl assoc_set.
  destruct (String.eqb_spec n x); [contradiction|].
  now rewrite (assoc_set_absent _ _ _ Nm).
Qed.

Lemma hoist_loop rest : forall moved fs,
  lookup d fs = Some (Dir ((x, Dir rest) :: moved)) ->
  nodupb (map fst (moved ++ rest)) = true ->
  mem x (map fst rest) = false ->
  for_each (map (fun n => join (join d [x]) [n]) (map fst rest))
    (fun filename => move filename d) fs
  = (put d (Some (Dir ((x, Dir []) :: moved ++ rest))) fs, Ok tt).
Proof.
  induction rest as [|[n c] rest IH]; intros moved fs L ND Nx.
  - simpl. rewrite app_nil_r. unfold ret. now rewrite (put_same _ _ _ L).
  - rewrite map_app in ND. simpl in ND.
    destruct (nodupb_app_cons _ _ _ ND) as (M1 & M2 & ND').
    simpl in Nx. apply orb_false_iff in Nx as [Nx1 Nx2].
    apply String.eqb_neq in Nx1.
    cbn [map fst for_each].
    rewrite (bind_ok _ _ _ _ _ (move_into n c rest moved fs L
                                  ltac:(congruence) M1 M2)).
    rewrite (IH (moved ++ [(n, c)])).
    + rewrite put_put, <- app_assoc. reflexivity.
    + eapply lookup_put_present; eauto.
    + rewrite <- app_assoc, map_app. exact ND.
    + exact Nx2.
Qed.

End Hoist.

Lemma filter_all {A} (f : A -> bool) l : forallb f l = true -> filter f l = l.
Proof.
  induction l as [|a l IH]; simpl; auto.
  intros H. apply andb_true_iff in H as [-> H]. now rewrite IH.
Qed.

(** X1.  Where the flattening of C2 holds: when the unpacked tree is a single
    directory whose entries have distinct names, none hidden and none the
    name of the directory itself, and the path of that directory holds no
    pattern character of [glob], the entries are hoisted, in order, and
    the directory is removed. *)
Theorem flatten_hoists_wrapper :
  forall d x es fs,
    d <> [] ->
    literal (join d [x]) = true ->
    lookup d fs = Some (Dir [(x, Dir es)]) ->
    nodupb (map fst es) = true ->
    forallb (fun n => negb (hidden n)) (map fst es) = true ->
    mem x (map fst es) = false ->
    remove_intermediary_dir d fs = (put d (Some (Dir es)) fs, Ok tt).
Proof.
  intros d x es fs Hd _ L ND NH Nx.
  rewrite (remove_intermediary_dir_one_entry _ _ _ _ L).
  assert (Lx : lookup (join d [x]) fs = Some (Dir es)).
  { unfold join. rewrite lookup_app, L. simpl. now rewrite String.eqb_refl. }
  unfold bind at 1. unfold glob_star. rewrite Lx, (filter_all _ _ NH).
  rewrite (hoist_loop d x Hd es [] fs L ND Nx). cbn [app].
  unfold rmdir.
  assert (L1 : lookup d (put d (Some (Dir ((x, Dir []) :: es))) fs)
               = Some (Dir ((x, Dir []) :: es)))
    by (eapply lookup_put_present; eauto).
  unfold join. rewrite lookup_app, L1. simpl lookup. rewrite String.eqb_refl.
  destruct (d ++ [x]) as [|a b] eqn:E; [destruct d; discriminate|].
  rewrite <- E. rewrite (put_child d x None _ _ Hd L1), put_put.
  simpl assoc_del. rewrite String.eqb_refl, (assoc_del_absent _ _ Nx).
  reflexivity.
Qed.

Lemma flatten_hoists_wrapper_witness :
  remove_intermediary_dir ["S"]
    (Dir [("S", Dir [("D", Dir [("a", File (Bytes "1")); ("b", File (Bytes "2"))])])])
  = (Dir [("S", Dir [("a", File (Bytes "1")); ("b", File (Bytes "2"))])], Ok tt).
Proof.
  exact (flatten_hoists_wrapper ["S"] "D"
           [("a", File (Bytes "1")); ("b", File (Bytes "2"))]
           (Dir [("S", Dir [("D", Dir [("a", File (Bytes "1"));
                                       ("b", File (Bytes "2"))])])])
           ltac:(discriminate) eq_refl eq_refl eq_refl eq_refl eq_refl).
Defined.

(** ** Which exceptions a statement can raise *)

Section RaisesOnly.
Context {S : Type}.

Lemma raises_only_weaken {A} (P Q : exn -> Prop) (m : M S A) :
  (forall e, P e -> Q e) -> raises_only P m -> raises_only Q m.
Proof. intros PQ H s s' e E. apply PQ. eapply H; eauto. Qed.

Lemma raises_only_ret {A} P (a : A) : raises_only P (@ret S A a).
Proof. intros s s' e E. discriminate. Qed.

Lemma raises_only_raise {A} (P : exn -> Prop) e : P e -> raises_only P (@raise S A e).
Proof. intros H s s' e' E. inversion E; subst. exact H. Qed.

Lemma raises_only_bind {A B} P (m : M S A) (k : A -> M S B) :
  raises_only P m -> (forall a, raises_only P (k a)) -> raises_only P (bind m k).
Proof.
  intros Hm Hk s s' e. unfold bind.
  destruct (m s) as [s1 [a|e1]] eqn:E1.
  - apply Hk.
  - intros E. inversion E; subst. eapply Hm; eauto.
Qed.

Lemma raises_only_for_each {A} P (xs : list A) (body : A -> M S unit) :
  (forall x, raises_only P (body x)) -> raises_only P (for_each xs body).
Proof.
  intros Hb. induction xs as [|x r IH]; simpl.
  - apply raises_only_ret.
  - apply raises_only_bind; auto.
Qed.

End RaisesOnly.

Lemma os_only_listdir p : raises_only os_only (listdir p).
Proof.
  intros fs fs' e. unfold listdir.
  destruct (lookup p fs) as [[|]|]; intros E; inversion E; reflexivity.
Qed.

Lemma os_only_rmdir p : raises_only os_only (rmdir p).
Proof.
  intros fs fs' e. unfold rmdir.
  destruct (lookup p fs) as [[|[|]]|]; try destruct p;
    intros E; inversion E; reflexivity.
Qed.

Lemma os_only_mkdir p : raises_only os_only (mkdir p).
Proof.
  intros fs fs' e. unfold mkdir.
  destruct (lookup p fs); [intros E; inversion E; reflexivity|].
  destruct (lookup (removelast p) fs) as [[|]|];
    intros E; inversion E; reflexivity.
Qed.

Lemma mkdir_p_raises p : forall n e, mkdir_p p n = Raise e -> os_only e.
Proof.
  induction p as [|x q IH]; intros n e; destruct n as [c|es]; simpl;
    try (intros E; inversion E; reflexivity).
  destruct (mkdir_p q _) as [c|e'] eqn:Hq; [discriminate|].
  intros E. inversion E; subst. eapply IH; eauto.
Qed.

Lemma os_only_makedirs b p : raises_only os_only (makedirs b p).
Proof.
  intros fs fs' e. unfold makedirs.
  destruct (negb b && exists_ p fs); [intros E; inversion E; reflexivity|].
  destruct (mkdir_p p fs) eqn:H; [discriminate|].
  intros E. inversion E; subst. eapply mkdir_p_raises; eauto.
Qed.

Lemma os_only_write_file p c : raises_only os_only (write_file p c).
Proof.
  intros fs fs' e. unfold write_file.
  destruct (lookup p fs) as [[|]|]; destruct p;
    try destruct (lookup (removelast _) fs) as [[|]|];
    intros E; inversion E; reflexivity.
Qed.

Lemma os_only_rename s t : raises_only os_only (rename s t).
Proof.
  intros fs fs' e. unfold rename.
  destruct (lookup s fs) as [n|]; [|intros E; inversion E; reflexivity].
  destruct s; [intros E; inversion E; reflexivity|].
  destruct (lookup (removelast t) _) as [[|]|]; destruct t;
    intros E; inversion E; reflexivity.
Qed.

Lemma os_only_move s t : raises_only os_only (move s t).
Proof.
  intros fs fs' e. unfold move.
  destruct (isdir t fs).
  - destruct (exists_ _ fs); [intros E; inversion E; reflexivity|].
    apply os_only_rename.
  - destruct (exists_ t fs); [|apply os_only_rename].
    destruct (lookup s fs) as [[|]|]; intros E; inversion E; reflexivity.
Qed.

Lemma os_only_remove_intermediary_dir d : raises_only os_only (remove_intermediary_dir d).
Proof.
  unfold remove_intermediary_dir.
  apply raises_only_bind; [apply os_only_listdir|]. intros subdirs.
  destruct (Nat.eqb _ 1); [|apply raises_only_ret].
  apply raises_only_bind; [|intros _; apply os_only_rmdir].
  intros fs. apply raises_only_for_each. intros x. apply os_only_move.
Qed.

Lemma os_only_walk_remove k : forall d, raises_only os_only (walk_remove k d).
Proof.
  induction k as [|k IH]; intros d.
  - apply raises_only_raise. reflexivity.
  - intros fs. cbn [walk_remove].
    destruct (lookup d fs) as [[c|es]|]; try (intros s' e E; discriminate).
    apply raises_only_bind.
    + destruct (_ && _); [apply os_only_rmdir|apply raises_only_ret].
    + intros _. apply raises_only_for_each. intros x. apply IH.
Qed.

Lemma os_only_remove_empty_dirs d : raises_only os_only (remove_empty_dirs d).
Proof. intros fs. apply os_only_walk_remove. Qed.

Lemma os_only_or_badzip (e : exn) : os_only e -> os_or_badzip e.
Proof. now left. Qed.

Lemma raises_ZipFile a : raises_only os_or_badzip (Zip.ZipFile a).
Proof.
  intros fs fs' e. unfold Zip.ZipFile.
  destruct (lookup a fs) as [[[|]|]|]; intros E; inversion E;
    first [now left | now right].
Qed.

Lemma os_only_make_upperdirs target : raises_only os_only (Zip.make_upperdirs target).
Proof.
  intros fs. unfold Zip.make_upperdirs.
  destruct (exists_ _ fs); [intros s' e E; discriminate|].
  apply os_only_makedirs.
Qed.

Lemma raises_copy_member target r : raises_only os_or_badzip (Zip.copy_member target r).
Proof.
  destruct r as [data| |name|written|written name]; cbn [Zip.copy_member].
  - apply (raises_only_weaken _ _ _ os_only_or_badzip (os_only_write_file _ _)).
  - apply raises_only_raise. now right.
  - apply raises_only_raise. now left.
  - apply raises_only_bind.
    + apply (raises_only_weaken _ _ _ os_only_or_badzip (os_only_write_file _ _)).
    + intros _. apply raises_only_raise. now right.
  - apply raises_only_bind.
    + apply (raises_only_weaken _ _ _ os_only_or_badzip (os_only_write_file _ _)).
    + intros _. apply raises_only_raise. now left.
Qed.

Lemma os_only_is_dir m : raises_only os_only (@Zip.is_dir m).
Proof.
  unfold Zip.is_dir. destruct (Zip.last_char (filename m));
    [apply raises_only_ret|now apply raises_only_raise].
Qed.

Lemma raises_write_member target m : raises_only os_or_badzip (Zip.write_member target m).
Proof.
  unfold Zip.write_member. apply raises_only_bind.
  - apply (raises_only_weaken _ _ _ os_only_or_badzip (os_only_is_dir m)).
  - intros [|].
    + intros fs. destruct (isdir _ fs); [intros s' e E; discriminate|].
      apply (raises_only_weaken _ _ _ os_only_or_badzip (os_only_mkdir _)).
    + apply raises_copy_member.
Qed.

Lemma raises_extract_member dest m : raises_only os_or_badzip (Zip.extract_member dest m).
Proof.
  unfold Zip.extract_member. apply raises_only_bind.
  - apply (raises_only_weaken _ _ _ os_only_or_badzip (os_only_make_upperdirs _)).
  - intros _. apply raises_write_member.
Qed.

Lemma os_only_getinfo z name : raises_only os_only (Zip.getinfo z name).
Proof.
  unfold Zip.getinfo. destruct (Zip.find_info name z);
    [apply raises_only_ret|now apply raises_only_raise].
Qed.

Lemma raises_extractall dest z : raises_only os_or_badzip (Zip.extractall dest z).
Proof.
  apply raises_only_for_each. intros name. apply raises_only_bind.
  - apply (raises_only_weaken _ _ _ os_only_or_badzip (os_only_getinfo z name)).
  - intros m. apply raises_extract_member.
Qed.

Lemma raises_extract_body self a dst cl :
  raises_only os_or_badzip (extract_body self a dst cl).
Proof.
  unfold extract_body.
  apply raises_only_bind; [apply raises_ZipFile|]. intros z.
  apply raises_only_bind; [apply raises_extractall|]. intros _.
  apply raises_only_bind; [|intros _; apply raises_only_ret].
  destruct cl; [|apply raises_only_ret].
  apply (raises_only_weaken _ _ _ os_only_or_badzip).
  apply raises_only_bind; [apply os_only_remove_intermediary_dir|].
  intros _. apply os_only_remove_empty_dirs.
Qed.

(** ** What a statement leaves unchanged *)

Section Steps.
Context {S : Type} (R : S -> S -> Prop).
Hypothesis R_refl : forall s, R s s.
Hypothesis R_trans : forall a b c, R a b -> R b c -> R a c.

Lemma steps_ret {A} (a : A) : steps R (ret a).
Proof. intros s. apply R_refl. Qed.

Lemma steps_raise {A} e : steps R (@raise S A e).
Proof. intros s. apply R_refl. Qed.

Lemma steps_bind {A B} (m : M S A) (k : A -> M S B) :
  steps R m -> (forall a, steps R (k a)) -> steps R (bind m k).
Proof.
  intros Hm Hk s. unfold bind. specialize (Hm s).
  destruct (m s) as [s1 [a|e]]; simpl in *; auto.
  eapply R_trans; [exact Hm|apply Hk].
Qed.

Lemma steps_for_each {A} (xs : list A) (body : A -> M S unit) :
  (forall x, steps R (body x)) -> steps R (for_each xs body).
Proof.
  intros Hb. induction xs as [|x r IH]; simpl.
  - apply steps_ret.
  - apply steps_bind; auto.
Qed.

Lemma steps_try_except {A} (m : M S A) h :
  steps R m -> (forall e handler, h e = Some handler -> steps R handler) ->
  steps R (try_except m h).
Proof.
  intros Hm Hh s. unfold try_except. specialize (Hm s).
  destruct (m s) as [s1 [a|e]]; simpl in *; auto.
  destruct (h e) as [handler|] eqn:E; simpl; auto.
  eapply R_trans; [exact Hm|]. eapply Hh; eauto.
Qed.

Lemma steps_with {A B} (enter : M S A) exit (body : A -> M S B) :
  steps R enter -> (forall x, steps R (exit x)) -> (forall x, steps R (body x)) ->
  steps R (with_ enter exit body).
Proof.
  intros He Hx Hb. unfold with_. apply steps_bind; auto.
  intros x s. specialize (Hb x s).
  destruct (body x s) as [s1 [b|e]]; simpl in *.
  - eapply R_trans; [exact Hb|].
    apply (steps_bind (exit x) (fun _ => ret b)); auto using steps_ret.
  - eapply R_trans; [exact Hb|].
    apply (steps_bind (exit x) (fun _ => raise e)); auto using steps_raise.
Qed.

End Steps.

Lemma quiet_refl w : quiet w w.
Proof. repeat split; auto. apply incl_refl. Qed.

Lemma quiet_trans a b c : quiet a b -> quiet b c -> quiet a c.
Proof.
  intros (H1 & H2 & H3) (I1 & I2 & I3). repeat split; try congruence.
  eapply incl_tran; eauto.
Qed.

Lemma calm_refl w : calm w w.
Proof. split; auto. apply incl_refl. Qed.

Lemma calm_trans a b c : calm a b -> calm b c -> calm a c.
Proof.
  intros (H1 & H3) (I1 & I3). split; try congruence. eapply incl_tran; eauto.
Qed.

Lemma quiet_calm a b : quiet a b -> calm a b.
Proof. intros (H1 & H2 & H3). now split. Qed.

Lemma steps_weaken {S A} (R Q : S -> S -> Prop) (m : M S A) :
  (forall a b, R a b -> Q a b) -> steps R m -> steps Q m.
Proof. intros RQ H s. apply RQ, H. Qed.

Lemma quiet_print line : steps quiet (print line).
Proof.
  intros w. repeat split; auto. simpl. apply incl_appl, incl_refl.
Qed.

Lemma quiet_drive c : steps quiet (drive c).
Proof. intros w. repeat split; auto. apply incl_refl. Qed.

Lemma quiet_send_request r : steps quiet (send_request r).
Proof. intros w. repeat split; auto. apply incl_refl. Qed.

Lemma quiet_on_fs {A} (m : M node A) : steps quiet (on_fs m).
Proof.
  intros w. unfold on_fs, zoom. destruct (m (fs w)) as [f r].
  repeat split; auto. apply incl_refl.
Qed.

Lemma calm_record_outcome n o : steps calm (record_outcome n o).
Proof. intros w. split; auto. apply incl_refl. Qed.

Ltac quiet_step :=
  first
    [ apply quiet_print | apply quiet_drive | apply quiet_send_request
    | apply quiet_on_fs
    | apply (steps_ret quiet quiet_refl)
    | apply (steps_raise quiet quiet_refl)
    | apply (steps_bind quiet quiet_trans); [|intros ?]
    | apply (steps_try_except quiet quiet_trans); [|intros ? ? ?]
    | match goal with
      | H : Some _ = Some _ |- _ => inversion H; subst; clear H
      | |- steps quiet (if ?b then _ else _) => destruct b
      | |- steps quiet (match ?x with _ => _ end) => destruct x
      end ].

Lemma quiet_login E u p : steps quiet (Downloader._login E u p).
Proof.
  unfold Downloader._login, Downloader.find_element_by_id, Downloader.exit_.
  repeat quiet_step.
Qed.

Lemma quiet_Downloader_init E d u p : steps quiet (Downloader.init E d u p).
Proof.
  unfold Downloader.init.
  apply (steps_bind quiet quiet_trans); [repeat quiet_step|intros _].
  apply (steps_bind quiet quiet_trans); [apply quiet_drive|intros _].
  apply (steps_bind quiet quiet_trans); [apply quiet_login|intros _].
  apply (steps_ret quiet quiet_refl).
Qed.

Lemma quiet_Downloader_exit dl : steps quiet (Downloader.exit dl).
Proof. apply quiet_drive. Qed.

Lemma quiet_download E dl cid so : steps quiet (Downloader.download E dl cid so).
Proof. unfold Downloader.download. repeat quiet_step. Qed.

(** ** The entries of an archive *)

Lemma find_info_name name z m :
  Zip.find_info name z = Some m -> filename m = name /\ In m z.
Proof.
  induction z as [|m0 r IH]; cbn [Zip.find_info]; [discriminate|].
  destruct (Zip.find_info name r) as [m'|].
  - intros H. inversion H; subst. destruct (IH eq_refl) as [H1 H2].
    split; [exact H1|now right].
  - destruct (String.eqb_spec name (filename m0)) as [->|N]; [|discriminate].
    intros H. inversion H; subst. split; [reflexivity|now left].
Qed.

Lemma find_info_in z m : In m z -> Zip.find_info (filename m) z <> None.
Proof.
  induction z as [|m0 r IH]; cbn [Zip.find_info]; [intros []|].
  intros [->|I].
  - destruct (Zip.find_info (filename m) r); [discriminate|].
    rewrite String.eqb_refl. discriminate.
  - specialize (IH I). destruct (Zip.find_info (filename m) r); [discriminate|].
    contradiction.
Qed.

Lemma for_each_names dest z names : forall fs,
  (forall n, In n names -> Zip.find_info n z <> None) ->
  for_each names (fun name => m <- Zip.getinfo z name ;; Zip.extract_member dest m) fs
  = for_each (flat_map (fun name => match Zip.find_info name z with
                                    | Some m => [m]
                                    | None => []
                                    end) names)
      (Zip.extract_member dest) fs.
Proof.
  induction names as [|n r IH]; intros fs H; [reflexivity|].
  assert (Hn := H n (or_introl eq_refl)).
  cbn [for_each flat_map].
  destruct (Zip.find_info n z) as [m|] eqn:F; [|contradiction].
  cbn [app for_each].
  transitivity
    ((Zip.extract_member dest m ;;;
      for_each r (fun name => m <- Zip.getinfo z name ;; Zip.extract_member dest m)) fs).
  { unfold bind at 1 2. unfold Zip.getinfo at 1. rewrite F. reflexivity. }
  unfold bind at 1 3.
  destruct (Zip.extract_member dest m fs) as [fs1 [[]|e]]; [|reflexivity].
  apply IH. intros n' I. apply H. now right.
Qed.

(** [extractall] unpacks the entries of [Zip.entries], in order. *)
Lemma extractall_entries dest z fs :
  Zip.extractall dest z fs = for_each (Zip.entries z) (Zip.extract_member dest) fs.
Proof.
  unfold Zip.extractall, Zip.entries. apply for_each_names.
  intros n I. unfold Zip.namelist in I. apply in_map_iff in I as (m & <- & I).
  now apply find_info_in.
Qed.

Lemma mem_in x l : In x l -> mem x l = true.
Proof.
  induction l as [|y r IH]; [intros []|]. cbn [mem].
  intros [->|I]; [now rewrite String.eqb_refl|].
  rewrite (IH I). apply orb_true_r.
Qed.

(** An archive without two entries of one name is unpacked entry by
    entry. *)
Lemma find_info_unique z : forall m,
  nodupb (map filename z) = true -> In m z -> Zip.find_info (filename m) z = Some m.
Proof.
  induction z as [|m0 r IH]; intros m N I; [destruct I|].
  cbn [map nodupb] in N. apply andb_true_iff in N as [N1 N2].
  apply negb_true_iff in N1. cbn [Zip.find_info].
  destruct I as [->|I].
  - destruct (Zip.find_info (filename m) r) as [m'|] eqn:F.
    + apply find_info_name in F as [F1 F2].
      exfalso. apply (in_map filename) in F2. rewrite F1 in F2.
      apply mem_in in F2. congruence.
    + now rewrite String.eqb_refl.
  - now rewrite (IH m N2 I).
Qed.

Lemma entries_unique z : nodupb (map filename z) = true -> Zip.entries z = z.
Proof.
  intros N. unfold Zip.entries, Zip.namelist.
  assert (H : forall l, (forall m, In m l -> In m z) ->
              flat_map (fun name => match Zip.find_info name z with
                                    | Some m => [m]
                                    | None => []
                                    end) (map filename l) = l).
  { induction l as [|m r IH]; intros Hl; [reflexivity|].
    cbn [map flat_map]. rewrite (find_info_unique z m N) by (apply Hl; now left).
    cbn [app]. f_equal. apply IH. intros m' I. apply Hl. now right. }
  apply H. auto.
Qed.

(** ** One course *)

Lemma download_unfold E self cid so w :
  Downloader.download E self cid so w =
  match parent_folder_id E cid with
  | None =>
      (fst (drive (Get (Downloader.files_url ++ cid)%string) w),
       Raise (DownloadError ("Could not locate parent folder for course: " ++ cid)%string))
  | Some fid =>
      let w2 := Downloader.after_request E cid so fid w in
      match post E (Downloader.bulk_request E cid so fid) with
      | None => (w2, Raise ConnectionError)
      | Some resp =>
          if ok resp then
            match write_file (os_path_join (Downloader.workdir self) cid)
                    (raw resp) (fs w2) with
            | (f, Ok _) => (set_fs f w2, Ok (os_path_join (Downloader.workdir self) cid))
            | (f, Raise e) => (set_fs f w2, Raise e)
            end
          else (w2, Raise (DownloadError
                             ("Download failed " ++ Downloader.bulk_url ++ fid)%string))
      end
  end.
Proof.
  unfold Downloader.download, bind, Downloader.after_request.
  destruct (parent_folder_id E cid) as [fid|]; try reflexivity.
  simpl. destruct (post E _) as [resp|]; [|reflexivity].
  destruct (ok resp); simpl; [|reflexivity].
  unfold on_fs, zoom. simpl.
  destruct (write_file _ _ _) as [f [[]|e]]; reflexivity.
Qed.

Lemma after_request_fs E cid so fid w :
  fs (Downloader.after_request E cid so fid w) = fs w.
Proof. reflexivity. Qed.

Lemma write_file_ok p c fs f :
  write_file p c fs = (f, Ok tt) ->
  f = put p (Some (File c)) fs /\ lookup p f = Some (File c).
Proof.
  unfold write_file. intros H.
  assert (exists x q es, p = x :: q /\ lookup (removelast p) fs = Some (Dir es) /\
                         f = put p (Some (File c)) fs) as (x & q & es & -> & Lp & ->).
  { destruct (lookup p fs) as [[c0|es]|]; try discriminate;
      destruct p as [|x q];
      destruct (lookup (removelast _) fs) as [[|es']|]; try discriminate;
      inversion H; subst; do 3 eexists; repeat split; eauto. }
  split; [reflexivity|].
  apply lookup_put_eq; try discriminate. unfold isdir. now rewrite Lp.
Qed.

Lemma write_file_raise p c fs f e :
  write_file p c fs = (f, Raise e) -> f = fs /\ os_only e.
Proof.
  unfold write_file.
  destruct (lookup p fs) as [[c0|es]|]; destruct p as [|x q];
    try destruct (lookup (removelast _) fs) as [[|]|];
    intros H; inversion H; subst; split; reflexivity.
Qed.

(** What the result of [extractall] says about the archive. *)
Lemma copy_member_result target r fs fs' res :
  Zip.copy_member target r fs = (fs', res) ->
  match res with
  | Ok _ => exists data, r = ReadOk data
  | Raise BadZipFile => r = ReadBadZip \/ exists written, r = ReadBadCrc written
  | Raise _ => True
  end.
Proof.
  destruct r as [data| |name|written|written name]; cbn [Zip.copy_member].
  - intros H. destruct res as [[]|e]; [eauto|].
    apply os_only_write_file in H. destruct e; auto; discriminate.
  - intros H. inversion H; subst. now left.
  - intros H. inversion H; subst. exact I.
  - unfold bind. destruct (write_file _ _ fs) as [f [[]|e]] eqn:W.
    + intros H. inversion H; subst. right. eauto.
    + intros H. inversion H; subst. apply os_only_write_file in W.
      destruct e; auto; discriminate.
  - unfold bind. destruct (write_file _ _ fs) as [f [[]|e]] eqn:W.
    + intros H. inversion H; subst. exact I.
    + intros H. inversion H; subst. apply os_only_write_file in W.
      destruct e; auto; discriminate.
Qed.

Lemma write_member_result target m fs fs' r :
  Zip.write_member target m fs = (fs', r) ->
  match r with
  | Ok _ => fault_of m = None
  | Raise BadZipFile => fault_of m = Some corrupt
  | Raise _ => True
  end.
Proof.
  unfold Zip.write_member, Zip.is_dir, fault_of, bind.
  destruct (Zip.last_char (filename m)) as [c|].
  - cbn [ret]. destruct (Ascii.eqb c "/").
    + destruct (isdir _ fs).
      * intros H. inversion H; subst. reflexivity.
      * intros H. destruct r as [[]|e]; [reflexivity|].
        apply os_only_mkdir in H. destruct e; auto; discriminate.
    + intros H. apply copy_member_result in H.
      destruct r as [[]|e].
      * destruct H as [data ->]. reflexivity.
      * destruct e; auto. destruct H as [->|[written ->]]; reflexivity.
  - intros H. inversion H; subst. exact I.
Qed.

Lemma extract_member_result dest m fs fs' r :
  Zip.extract_member dest m fs = (fs', r) ->
  match r with
  | Ok _ => fault_of m = None
  | Raise BadZipFile => fault_of m = Some corrupt
  | Raise _ => True
  end.
Proof.
  unfold Zip.extract_member, bind.
  destruct (Zip.make_upperdirs _ fs) as [fs1 [[]|e]] eqn:E1.
  - apply write_member_result.
  - intros H. inversion H; subst.
    apply os_only_make_upperdirs in E1. destruct e; auto; discriminate.
Qed.

Lemma for_each_entries_result dest ms : forall fs fs' r,
  for_each ms (Zip.extract_member dest) fs = (fs', r) ->
  match r with
  | Ok _ => first_fault ms = None
  | Raise BadZipFile => first_fault ms = Some corrupt
  | Raise _ => True
  end.
Proof.
  induction ms as [|m ms IH]; intros fs fs' r; cbn [for_each first_fault].
  - intros H. inversion H; subst. reflexivity.
  - unfold bind. destruct (Zip.extract_member dest m fs) as [fs1 [[]|e]] eqn:E1.
    + intros H. apply extract_member_result in E1. rewrite E1.
      eapply IH; eauto.
    + intros H. inversion H; subst. apply extract_member_result in E1.
      destruct e; auto. now rewrite E1.
Qed.

Lemma extractall_result dest z fs fs' r :
  Zip.extractall dest z fs = (fs', r) ->
  match r with
  | Ok _ => first_fault (Zip.entries z) = None
  | Raise BadZipFile => first_fault (Zip.entries z) = Some corrupt
  | Raise _ => True
  end.
Proof. rewrite extractall_entries. apply for_each_entries_result. Qed.

(** What the result of [extract] says about the file it was given. *)
Lemma extract_result self a dst cl fs fs' r c :
  lookup a fs = Some (File c) ->
  extract self a dst cl fs = (fs', r) ->
  match r with
  | Ok _ => exists ms, c = ZipBytes ms /\ first_fault (Zip.entries ms) = None
  | Raise (ExtractionError _) =>
      match c with
      | Bytes _ => True
      | ZipBytes ms => first_fault (Zip.entries ms) = Some corrupt
      end
  | Raise e => os_only e
  end.
Proof.
  intros L. unfold extract, try_except.
  destruct (extract_body self a dst cl fs) as [fs1 [d|e]] eqn:B.
  - intros H. inversion H; subst. revert B.
    unfold extract_body, bind, Zip.ZipFile. rewrite L.
    destruct c as [b|ms]; [discriminate|].
    destruct (Zip.extractall _ ms fs) as [fs2 [[]|e]] eqn:X; [|discriminate].
    intros _. exists ms. split; auto. apply extractall_result in X. exact X.
  - assert (R := raises_extract_body _ _ _ _ _ _ _ B).
    destruct R as [O|Eb]; [|subst e].
    + destruct e; try discriminate; intros H; inversion H; subst; exact O.
    + intros H. inversion H; subst. revert B.
      unfold extract_body, bind, Zip.ZipFile. rewrite L.
      destruct c as [b|ms]; [auto|].
      destruct (Zip.extractall _ ms fs) as [fs2 [[]|e]] eqn:X.
      * destruct cl.
        -- destruct (remove_intermediary_dir _ fs2) as [fs3 [[]|e]] eqn:Y.
           ++ destruct (remove_empty_dirs _ fs3) as [fs4 [[]|e]] eqn:Z;
                [discriminate|].
              intros H'. inversion H'; subst.
              apply os_only_remove_empty_dirs in Z. discriminate.
           ++ intros H'. inversion H'; subst.
              apply os_only_remove_intermediary_dir in Y. discriminate.
        -- discriminate.
      * intros H'. inversion H'; subst. apply extractall_result in X. exact X.
Qed.

Lemma bind_inv_ok {S A B} (m : M S A) (k : A -> M S B) s s' b :
  bind m k s = (s', Ok b) ->
  exists s1 a, m s = (s1, Ok a) /\ k a s1 = (s', Ok b).
Proof.
  unfold bind. destruct (m s) as [s1 [a|e]]; [eauto|discriminate].
Qed.

Lemma with_inv_ok {S A B} (enter : M S A) exit (body : A -> M S B) s s' b :
  with_ enter exit body s = (s', Ok b) ->
  exists s1 x s2,
    enter s = (s1, Ok x) /\ body x s1 = (s2, Ok b) /\ exit x s2 = (s', Ok tt).
Proof.
  unfold with_. intros H. apply bind_inv_ok in H as (s1 & x & He & H).
  destruct (body x s1) as [s2 [b'|e]] eqn:Hb.
  - apply bind_inv_ok in H as (s3 & [] & Hx & H). inversion H; subst.
    exists s1, x, s2. auto.
  - unfold bind in H. destruct (exit x s2) as [s3 [[]|e']]; discriminate.
Qed.

Lemma calm_sync_course E ex dl c : steps calm (StudipSync.sync_course E ex dl c).
Proof.
  unfold StudipSync.sync_course.
  apply (steps_bind calm calm_trans).
  { apply (steps_weaken quiet calm _ quiet_calm), quiet_print. }
  intros _. apply (steps_try_except calm calm_trans).
  - apply (steps_bind calm calm_trans).
    { apply (steps_weaken quiet calm _ quiet_calm), quiet_download. }
    intros z. apply (steps_bind calm calm_trans).
    { apply (steps_weaken quiet calm _ quiet_calm), quiet_on_fs. }
    intros _. apply calm_record_outcome.
  - intros e handler H.
    destruct e; try discriminate; inversion H; subst;
      repeat first
        [ apply calm_record_outcome
        | apply (steps_weaken quiet calm _ quiet_calm), quiet_print
        | apply (steps_bind calm calm_trans); [|intros _] ].
Qed.

(** A pass of the loop that ends without an exception has recorded the
    outcome that the portal's answers for the course decide, and has
    printed the report of a failure. *)
Lemma sync_course_ok E ex dl c w w' :
  StudipSync.sync_course E ex dl c w = (w', Ok tt) ->
  exists o,
    course_outcome E c = Some o /\
    outcomes w' = outcomes w ++ [(save_as c, o)] /\
    reported E c (stdout w').
Proof.
  unfold StudipSync.sync_course. intros H.
  apply bind_inv_ok in H as (w0 & [] & Hp & H).
  assert (O0 : outcomes w0 = outcomes w) by (inversion Hp; reflexivity).
  rewrite <- O0. clear Hp O0 w.
  unfold try_except, bind in H. rewrite download_unfold in H.
  unfold reported, course_outcome.
  destruct (parent_folder_id E (course_id c)) as [fid|].
  - cbv zeta in H.
    assert (O2 : outcomes (Downloader.after_request E (course_id c) (sync_only c) fid w0)
                 = outcomes w0) by reflexivity.
    destruct (post E _) as [resp|]; [|discriminate].
    destruct (ok resp); cbn [negb].
    + destruct (write_file _ _ _) as [f [[]|e]] eqn:Wf.
      * apply write_file_ok in Wf as [_ L].
        unfold on_fs, zoom in H. cbn [fs set_fs] in H.
        destruct (extract _ _ _ true f) as [f' [d|e]] eqn:X.
        -- destruct (extract_result _ _ _ _ _ _ _ _ L X) as (ms & -> & ->).
           cbn in H. inversion H; subst. exists staged. cbn. auto.
        -- assert (R := extract_result _ _ _ _ _ _ _ _ L X). cbv beta iota in R.
           destruct e; try (exfalso; revert R; unfold os_only; simpl;
                            discriminate); try discriminate.
           cbn in H. inversion H; subst. exists extraction_failed. cbn.
           destruct (raw resp) as [b|ms]; [|rewrite R];
             (split; [reflexivity|split; [reflexivity|]]);
             apply in_or_app; right; now left.
      * apply write_file_raise in Wf as [_ O].
        destruct e; try discriminate.
    + cbn in H. inversion H; subst. exists download_failed. cbn.
      split; [reflexivity|split; [reflexivity|]].
      apply in_or_app. left. apply in_or_app. left. apply in_or_app. left.
      apply in_or_app. right. now left.
  - cbn in H. inversion H; subst. exists download_failed. cbn.
    split; [reflexivity|split; [reflexivity|]].
    apply in_or_app. left. apply in_or_app. left. apply in_or_app. left.
    apply in_or_app. right. now left.
Qed.

Lemma try_except_raise {S A} (m : M S A) h s s' e :
  try_except m h s = (s', Raise e) ->
  (exists s1 e1 handler,
      m s = (s1, Raise e1) /\ h e1 = Some handler /\ handler s1 = (s', Raise e)) \/
  (m s = (s', Raise e) /\ h e = None).
Proof.
  unfold try_except. destruct (m s) as [s1 [a|e1]]; [discriminate|].
  destruct (h e1) as [handler|] eqn:Hh.
  - intros H. left. eauto 6.
  - intros H. inversion H; subst. now right.
Qed.

Lemma sync_course_raise E ex dl c w w' e :
  StudipSync.sync_course E ex dl c w = (w', Raise e) ->
  is_DownloadError e = false /\ is_ExtractionError e = false.
Proof.
  unfold StudipSync.sync_course. intros H.
  unfold bind at 1 in H. cbn [print] in H.
  apply try_except_raise in H as [(s1 & e1 & handler & _ & Hh & Hr)|[_ Hn]].
  - destruct e1; try discriminate; inversion Hh; subst; discriminate.
  - destruct e; try discriminate; auto.
Qed.

(** ** The loop over the courses *)

Lemma for_each_app {S A} (l1 l2 : list A) (body : A -> M S unit) s :
  for_each (l1 ++ l2) body s = (for_each l1 body ;;; for_each l2 body) s.
Proof.
  revert s. induction l1 as [|x r IH]; intros s; simpl.
  - reflexivity.
  - unfold bind in *. destruct (body x s) as [s1 [[]|e]]; auto.
Qed.

Lemma reported_incl E c out out' :
  incl out out' -> reported E c out -> reported E c out'.
Proof.
  unfold reported. intros I.
  destruct (course_outcome E c) as [[| |]|]; auto.
Qed.

Lemma calm_loop E ex dl cs : steps calm (for_each cs (StudipSync.sync_course E ex dl)).
Proof.
  apply (steps_for_each calm calm_refl calm_trans). intros c.
  apply calm_sync_course.
Qed.

Lemma loop_ok E ex dl cs : forall w w',
  for_each cs (StudipSync.sync_course E ex dl) w = (w', Ok tt) ->
  exists new,
    outcomes w' = outcomes w ++ new /\
    Forall2 (settles E) cs new /\
    forall c, In c cs -> reported E c (stdout w').
Proof.
  induction cs as [|c r IH]; intros w w' H.
  - inversion H; subst. exists []. rewrite app_nil_r.
    repeat split; auto. intros c [].
  - cbn [for_each] in H. apply bind_inv_ok in H as (w1 & [] & Hc & Hr).
    destruct (sync_course_ok _ _ _ _ _ _ Hc) as (o & Ho & Oc & Rc).
    destruct (IH _ _ Hr) as (new & On & Fn & Rn).
    exists ((save_as c, o) :: new). repeat split.
    + rewrite On, Oc, <- app_assoc. reflexivity.
    + constructor; [split; auto|exact Fn].
    + intros c' [<-|I]; [|now apply Rn].
      assert (Cl := calm_loop E ex dl r w1). rewrite Hr in Cl.
      destruct Cl as [_ Cl]. eapply reported_incl; eauto.
Qed.

(** ** The merge *)

Lemma rsync_ok E r src dst w w' :
  RsyncWrapper.sync E r src dst w = (w', Ok tt) ->
  spawned w' = spawned w ++ [RsyncWrapper.argv r src dst] /\
  outcomes w' = outcomes w /\ stdout w' = stdout w.
Proof.
  unfold RsyncWrapper.sync, bind, subprocess_call.
  destruct (spawn E _ (fs w)) as [[f st]|]; [|discriminate].
  intros H. inversion H; subst. auto.
Qed.

Lemma rsync_raise E r src dst w w' e :
  RsyncWrapper.sync E r src dst w = (w', Raise e) -> w' = w.
Proof.
  unfold RsyncWrapper.sync, bind, subprocess_call.
  destruct (spawn E _ (fs w)) as [[f st]|]; [discriminate|].
  intros H. now inversion H.
Qed.

(** ** The run *)

Lemma sync_split E C s w :
  StudipSync.sync E C s w =
  (StudipSync.before_merge E C s ;;;
   RsyncWrapper.sync E (RsyncWrapper.init E)
     (path_str (StudipSync.extract_dir s) ++ "/")%string
     (path_str (StudipSync.destination_dir s))) w.
Proof.
  unfold StudipSync.sync, StudipSync.before_merge, bind.
  destruct (print "Logging in..." w) as [w1 [[]|e]]; [|reflexivity].
  destruct (with_ _ _ _ w1) as [w2 [[]|e]]; [|reflexivity].
  destruct (print _ w2) as [w3 [[]|e]]; reflexivity.
Qed.

Lemma calm_before_merge E C s : steps calm (StudipSync.before_merge E C s).
Proof.
  unfold StudipSync.before_merge.
  apply (steps_bind calm calm_trans).
  { apply (steps_weaken quiet calm _ quiet_calm), quiet_print. }
  intros _. apply (steps_bind calm calm_trans).
  - apply (steps_with calm calm_refl calm_trans).
    + apply (steps_weaken quiet calm _ quiet_calm), quiet_Downloader_init.
    + intros dl. apply (steps_weaken quiet calm _ quiet_calm), quiet_Downloader_exit.
    + intros dl. apply calm_loop.
  - intros _. apply (steps_weaken quiet calm _ quiet_calm), quiet_print.
Qed.

(** A run that ends with an exception has started no merge. *)
Lemma sync_raise_no_merge E C s w w' e :
  StudipSync.sync E C s w = (w', Raise e) -> spawned w' = spawned w.
Proof.
  rewrite sync_split. unfold bind.
  assert (Cb := calm_before_merge E C s w).
  destruct (StudipSync.before_merge E C s w) as [w1 [[]|e1]]; cbn [fst] in Cb.
  - intros H. apply rsync_raise in H. subst. apply Cb.
  - intros H. inversion H; subst. apply Cb.
Qed.
(** ** What lies apart from a path that is written *)

Lemma apartb_app p : forall q r, apartb p q = true -> apartb (p ++ r) q = true.
Proof.
  induction p as [|x p IH]; intros [|y q] r; simpl; try discriminate.
  destruct (String.eqb x y); auto.
Qed.

Lemma apartb_not_prefix p : forall q, apartb p q = true -> prefixb q p = false.
Proof.
  induction p as [|x p IH]; intros [|y q]; simpl; try discriminate.
  rewrite (String.eqb_sym y x). destruct (String.eqb x y); simpl; auto.
Qed.

Lemma prefixb_removelast q : forall p, prefixb q (removelast p) = true -> prefixb q p = true.
Proof.
  induction q as [|y q IH]; intros p; [reflexivity|].
  destruct p as [|x [|x' p']]; try discriminate.
  change (removelast (x :: x' :: p')) with (x :: removelast (x' :: p')).
  cbn [prefixb]. intros H. apply andb_true_iff in H as [-> H]. simpl.
  now apply IH.
Qed.

Lemma lookup_put_apart p : forall q v n,
  apartb p q = true -> lookup q (put p v n) = lookup q n.
Proof.
  induction p as [|x p IH]; intros [|y q] v n; simpl apartb; try discriminate.
  destruct n as [c|es]; [reflexivity|].
  destruct (String.eqb_spec x y) as [->|N]; intros H.
  - destruct p as [|x' p']; [discriminate|].
    rewrite put_cons. destruct (assoc y es) as [c|] eqn:Hy; [|reflexivity].
    rewrite !lookup_cons, assoc_set_eq, Hy. now apply IH.
  - destruct p as [|x' p'].
    + cbn [put]. rewrite !lookup_cons.
      destruct v; [rewrite assoc_set_neq|rewrite assoc_del_neq]; congruence.
    + rewrite put_cons. destruct (assoc x es) as [c|]; [|reflexivity].
      rewrite !lookup_cons, assoc_set_neq by congruence. reflexivity.
Qed.

Lemma same_outside_refl d fs : same_outside d fs fs.
Proof. intros q _. reflexivity. Qed.

Lemma same_outside_trans d a b c :
  same_outside d a b -> same_outside d b c -> same_outside d a c.
Proof. intros H1 H2 q Hq. rewrite H2, H1; auto. Qed.

Lemma same_outside_put d r v fs : same_outside d fs (put (d ++ r) v fs).
Proof. intros q Hq. apply lookup_put_apart. now apply apartb_app. Qed.

Lemma same_outside_put_self d v fs : same_outside d fs (put d v fs).
Proof. intros q Hq. now apply lookup_put_apart. Qed.

(** [os.makedirs] leaves every path that does not lead to the new
    directory as it was. *)
Lemma mkdir_p_frame p : forall n n' q,
  mkdir_p p n = Ok n' -> prefixb q p = false -> lookup q n' = lookup q n.
Proof.
  induction p as [|x p IH]; intros n n' q.
  - destruct n; simpl; [discriminate|]. intros H. now inversion H.
  - destruct n as [c|es]; [discriminate|]. cbn [mkdir_p].
    destruct (mkdir_p p _) as [c'|e] eqn:Hc; [|discriminate].
    intros H Hq. inversion H; subst n'; clear H.
    destruct q as [|y q]; [discriminate|]. cbn [prefixb] in Hq.
    rewrite !lookup_cons.
    destruct (String.eqb_spec y x) as [->|N].
    + simpl in Hq. rewrite assoc_set_eq.
      rewrite (IH _ _ q Hc Hq).
      destruct (assoc x es); [reflexivity|].
      destruct q; [discriminate|reflexivity].
    + rewrite assoc_set_neq by congruence. reflexivity.
Qed.

Section Frame.
Variable d : path.

Let R := same_outside d.
Let R_refl := same_outside_refl d.
Let R_trans := same_outside_trans d.

Lemma frame_listdir p : steps R (listdir p).
Proof. intros fs. unfold listdir. destruct (lookup p fs) as [[|]|]; apply R_refl. Qed.

Lemma frame_rmdir r : steps R (rmdir (d ++ r)).
Proof.
  intros fs. unfold rmdir.
  destruct (lookup (d ++ r) fs) as [[c|[|e es]]|]; try apply R_refl.
  destruct (d ++ r) eqn:E; [apply R_refl|]. rewrite <- E. apply same_outside_put.
Qed.

Lemma frame_mkdir r : steps R (mkdir (d ++ r)).
Proof.
  intros fs. unfold mkdir.
  destruct (lookup (d ++ r) fs); [apply R_refl|].
  destruct (lookup (removelast (d ++ r)) fs) as [[c|es]|]; try apply R_refl.
  apply same_outside_put.
Qed.

Lemma frame_write_file r c : steps R (write_file (d ++ r) c).
Proof.
  intros fs. unfold write_file.
  destruct (lookup (d ++ r) fs) as [[c0|es]|]; try apply R_refl;
    (destruct (d ++ r) eqn:E;
     [destruct (lookup (removelast []) fs) as [[|]|]; apply R_refl|]);
    rewrite <- E;
    destruct (lookup (removelast (d ++ r)) fs) as [[|]|]; try apply R_refl;
    apply same_outside_put.
Qed.

Lemma frame_rename r1 r2 : steps R (rename (d ++ r1) (d ++ r2)).
Proof.
  intros fs. unfold rename.
  destruct (lookup (d ++ r1) fs) as [n|]; [|apply R_refl].
  destruct (d ++ r1) eqn:E1; [apply R_refl|]. rewrite <- E1.
  destruct (lookup (removelast (d ++ r2)) _) as [[c|es]|]; try apply R_refl.
  destruct (d ++ r2) eqn:E2; [apply R_refl|]. rewrite <- E2. simpl.
  eapply R_trans; apply same_outside_put.
Qed.

Lemma frame_move r : steps R (move (d ++ r) d).
Proof.
  intros fs. unfold move.
  destruct (isdir d fs).
  - destruct (exists_ _ fs); [apply R_refl|]. unfold join.
    apply (frame_rename r [List.last (d ++ r) ""]).
  - destruct (exists_ d fs).
    + destruct (lookup (d ++ r) fs) as [[c|es]|]; try apply R_refl. simpl.
      eapply R_trans; [apply same_outside_put|apply same_outside_put_self].
    + generalize (frame_rename r [] fs). now rewrite app_nil_r.
Qed.

Lemma frame_makedirs b p :
  (forall q, apartb d q = true -> prefixb q p = false) -> steps R (makedirs b p).
Proof.
  intros Hp fs. unfold makedirs.
  destruct (negb b && exists_ p fs); [apply R_refl|].
  destruct (mkdir_p p fs) as [fs'|e] eqn:Hm; [|apply R_refl].
  intros q Hq. simpl. eapply mkdir_p_frame; eauto.
Qed.

Lemma steps_for_each_in {S A} (Q : S -> S -> Prop) (xs : list A) (body : A -> M S unit) :
  (forall s, Q s s) -> (forall a b c, Q a b -> Q b c -> Q a c) ->
  (forall x, In x xs -> steps Q (body x)) -> steps Q (for_each xs body).
Proof.
  intros Qr Qt. induction xs as [|x r IH]; intros Hb; simpl.
  - now apply steps_ret.
  - apply steps_bind; auto.
    + apply Hb. now left.
    + intros _. apply IH. intros y Hy. apply Hb. now right.
Qed.

Lemma glob_star_below sub fs f : In f (glob_star sub fs) -> exists x, f = sub ++ [x].
Proof.
  unfold glob_star. destruct (lookup sub fs) as [[c|es]|]; try contradiction.
  intros H. apply in_map_iff in H as (x & <- & _). now exists x.
Qed.

Lemma frame_remove_intermediary_dir : steps R (remove_intermediary_dir d).
Proof.
  unfold remove_intermediary_dir.
  apply (steps_bind R R_trans); [apply frame_listdir|]. intros subdirs.
  destruct (Nat.eqb _ 1); [|apply (steps_ret R R_refl)].
  apply (steps_bind R R_trans).
  - intros fs. apply (steps_for_each_in R _ _ R_refl R_trans).
    intros f Hf. apply glob_star_below in Hf as (x & ->).
    unfold join. rewrite <- app_assoc. apply frame_move.
  - intros _. apply frame_rmdir.
Qed.

Lemma frame_walk_remove k : forall r, steps R (walk_remove k (d ++ r)).
Proof.
  induction k as [|k IH]; intros r; [apply (steps_raise R R_refl)|].
  intros fs. cbn [walk_remove].
  destruct (lookup (d ++ r) fs) as [[c|es]|]; try apply R_refl.
  cbv zeta.
  apply (steps_bind R R_trans).
  - destruct (_ && _); [apply frame_rmdir|apply (steps_ret R R_refl)].
  - intros _. apply (steps_for_each R R_refl R_trans).
    intros x. unfold join. rewrite <- app_assoc. apply IH.
Qed.

Lemma frame_remove_empty_dirs : steps R (remove_empty_dirs d).
Proof.
  intros fs. unfold remove_empty_dirs.
  generalize (frame_walk_remove (S (height fs)) [] fs). now rewrite app_nil_r.
Qed.

Lemma frame_ZipFile a : steps R (Zip.ZipFile a).
Proof.
  intros fs. unfold Zip.ZipFile.
  destruct (lookup a fs) as [[[b|ms]|es]|]; apply R_refl.
Qed.

Lemma frame_copy_member r0 r : steps R (Zip.copy_member (d ++ r0) r).
Proof.
  destruct r as [data| |name|written|written name]; cbn [Zip.copy_member].
  - apply frame_write_file.
  - apply (steps_raise R R_refl).
  - apply (steps_raise R R_refl).
  - apply (steps_bind R R_trans); [apply frame_write_file|].
    intros _. apply (steps_raise R R_refl).
  - apply (steps_bind R R_trans); [apply frame_write_file|].
    intros _. apply (steps_raise R R_refl).
Qed.

Lemma frame_extract_member m : steps R (Zip.extract_member d m).
Proof.
  unfold Zip.extract_member. apply (steps_bind R R_trans).
  - intros fs. unfold Zip.make_upperdirs.
    destruct (exists_ _ fs); [apply R_refl|].
    apply frame_makedirs. intros q Hq.
    destruct (prefixb q (removelast (Zip.place d m))) eqn:P;
      [|reflexivity].
    apply prefixb_removelast in P. unfold Zip.place, join in P.
    now rewrite (apartb_not_prefix _ _ (apartb_app _ _ (Zip.arcname (filename m)) Hq)) in P.
  - intros _. unfold Zip.place, join, Zip.write_member, Zip.is_dir.
    apply (steps_bind R R_trans).
    + destruct (Zip.last_char (filename m));
        [apply (steps_ret R R_refl)|apply (steps_raise R R_refl)].
    + intros [|].
      * intros fs. destruct (isdir _ fs); [apply R_refl|apply frame_mkdir].
      * apply frame_copy_member.
Qed.

Lemma frame_extractall z : steps R (Zip.extractall d z).
Proof.
  apply (steps_for_each R R_refl R_trans). intros name.
  apply (steps_bind R R_trans).
  - unfold Zip.getinfo. destruct (Zip.find_info name z);
      [apply (steps_ret R R_refl)|apply (steps_raise R R_refl)].
  - intros m. apply frame_extract_member.
Qed.

End Frame.

Lemma frame_extract_body self a dst cl :
  steps (same_outside (os_path_join (basedir self) dst)) (extract_body self a dst cl).
Proof.
  set (d := os_path_join (basedir self) dst).
  pose proof (same_outside_refl d) as Rr. pose proof (same_outside_trans d) as Rt.
  unfold extract_body. fold d.
  apply (steps_bind _ Rt); [apply frame_ZipFile|]. intros z.
  apply (steps_bind _ Rt); [apply frame_extractall|]. intros _.
  apply (steps_bind _ Rt); [|intros _; apply (steps_ret _ Rr)].
  destruct cl; [|apply (steps_ret _ Rr)].
  apply (steps_bind _ Rt); [apply frame_remove_intermediary_dir|].
  intros _. apply frame_remove_empty_dirs.
Qed.

Lemma frame_extract self a dst cl :
  steps (same_outside (os_path_join (basedir self) dst)) (extract self a dst cl).
Proof.
  unfold extract.
  apply (steps_try_except _ (same_outside_trans _)); [apply frame_extract_body|].
  intros e handler H. destruct e; try discriminate. inversion H; subst.
  apply (steps_raise _ (same_outside_refl _)).
Qed.

(** X2.  Whatever the archive holds and however [extract] ends, nothing changes
    at a path apart from the directory the course is unpacked into:
    unpacking, flattening and pruning write at that directory, below it and
    (to create it) at the directories that lead to it.  The path of that
    directory is taken to hold no [..] part and no pattern character of
    [glob]. *)
Theorem extract_writes_only_at_destination :
  forall self archive_filename destination cleanup fs q,
    no_dotdot destination = true ->
    literal (os_path_join (basedir self) destination) = true ->
    apartb (os_path_join (basedir self) destination) q = true ->
    lookup q (fst (extract self archive_filename destination cleanup fs))
    = lookup q fs.
Proof.
  intros self a dst cl fs q _ _ Hq. exact (frame_extract self a dst cl fs q Hq).
Qed.

Lemma extract_writes_only_at_destination_witness :
  lookup ["w"; "zips"; "c1"]
    (fst (extract extractor0 archive0 "S" true (disk zip_wrapped)))
  = Some (File zip_wrapped).
Proof.
  exact (extract_writes_only_at_destination extractor0 archive0 "S" true
           (disk zip_wrapped) ["w"; "zips"; "c1"] eq_refl eq_refl eq_refl).
Defined.
(** ** Where unpacking puts the members *)

Lemma prefixb_app_same d : forall q p, prefixb (d ++ q) (d ++ p) = prefixb q p.
Proof.
  induction d as [|x d IH]; intros q p; simpl; auto.
  rewrite String.eqb_refl. apply IH.
Qed.

Lemma prefixb_true q : forall p, prefixb q p = true -> exists r, p = q ++ r.
Proof.
  induction q as [|y q IH]; intros p; simpl; [eauto|].
  destruct p as [|x p]; [discriminate|].
  destruct (String.eqb_spec y x) as [->|]; [|discriminate]. simpl.
  intros H. destruct (IH _ H) as [r ->]. eauto.
Qed.

Lemma lookup_prefix q r n : lookup (q ++ r) n <> None -> lookup q n <> None.
Proof. rewrite lookup_app. destruct (lookup q n); congruence. Qed.

Lemma lookup_below_none q r n : lookup q n = None -> lookup (q ++ r) n = None.
Proof. intros H. now rewrite lookup_app, H. Qed.

(** Putting a file or an empty directory where no directory is changes
    nothing but the entry itself and the directories that lead to it. *)
Lemma leaf_file c : leaf (File c).
Proof. intros z r. reflexivity. Qed.

Lemma leaf_empty : leaf (Dir []).
Proof. intros z r. reflexivity. Qed.

Lemma lookup_put_leaf p : forall v n q,
  leaf v -> isdir p n = false -> prefixb q p = false ->
  lookup q (put p (Some v) n) = lookup q n.
Proof.
  induction p as [|x p IH]; intros v n q Hv Hd Hq; [reflexivity|].
  destruct n as [c|es]; [reflexivity|].
  destruct q as [|y q]; [discriminate|]. cbn [prefixb] in Hq.
  destruct p as [|x' p'].
  - cbn [put]. rewrite !lookup_cons.
    destruct (String.eqb_spec y x) as [->|N].
    + rewrite assoc_set_eq. simpl in Hq. destruct q as [|z r]; [discriminate|].
      rewrite Hv. unfold isdir in Hd. rewrite lookup_cons in Hd.
      destruct (assoc x es) as [[c|es']|]; try reflexivity. discriminate.
    + rewrite assoc_set_neq by congruence. reflexivity.
  - rewrite put_cons. unfold isdir in Hd. rewrite lookup_cons in Hd.
    destruct (assoc x es) as [c0|] eqn:Hx; [|reflexivity].
    rewrite !lookup_cons.
    destruct (String.eqb_spec y x) as [->|N].
    + rewrite assoc_set_eq, Hx. simpl in Hq. apply IH; auto.
    + rewrite assoc_set_neq by congruence. reflexivity.
Qed.

Lemma prefixb_removelast_false q p : prefixb q p = false -> prefixb q (removelast p) = false.
Proof.
  intros H. destruct (prefixb q (removelast p)) eqn:P; [|reflexivity].
  apply prefixb_removelast in P. congruence.
Qed.

Lemma make_upperdirs_frame target q fs :
  prefixb q target = false ->
  lookup q (fst (Zip.make_upperdirs target fs)) = lookup q fs.
Proof.
  intros Hq. unfold Zip.make_upperdirs, makedirs.
  destruct (exists_ _ fs); [reflexivity|]. simpl.
  destruct (mkdir_p _ fs) as [fs'|e] eqn:Hm; [|reflexivity].
  simpl. eapply mkdir_p_frame; eauto. now apply prefixb_removelast_false.
Qed.

Lemma mkdir_frame p q fs :
  prefixb q p = false -> lookup q (fst (mkdir p fs)) = lookup q fs.
Proof.
  intros Hq. unfold mkdir. destruct (lookup p fs) eqn:L; [reflexivity|].
  destruct (lookup (removelast p) fs) as [[c|es]|]; try reflexivity.
  cbn [fst]. apply lookup_put_leaf; auto using leaf_empty.
  unfold isdir. now rewrite L.
Qed.

Lemma write_file_frame p c q fs :
  prefixb q p = false -> lookup q (fst (write_file p c fs)) = lookup q fs.
Proof.
  intros Hq. unfold write_file.
  destruct (lookup p fs) as [[c0|es]|] eqn:L; try reflexivity;
    (destruct p as [|x p'];
     [destruct (lookup (removelast []) fs) as [[|]|]; reflexivity|]);
    destruct (lookup (removelast (x :: p')) fs) as [[|]|]; try reflexivity;
    cbn [fst]; apply lookup_put_leaf; auto using leaf_file;
    unfold isdir; now rewrite L.
Qed.

Lemma copy_member_frame p r q fs :
  prefixb q p = false -> lookup q (fst (Zip.copy_member p r fs)) = lookup q fs.
Proof.
  intros Hq. destruct r as [data| |name|written|written name]; cbn [Zip.copy_member];
    try reflexivity; try (now apply write_file_frame);
    unfold bind; generalize (write_file_frame p (Bytes written) q fs Hq);
    destruct (write_file p (Bytes written) fs) as [f [[]|e]]; auto.
Qed.

Lemma write_member_frame p m q fs :
  prefixb q p = false -> lookup q (fst (Zip.write_member p m fs)) = lookup q fs.
Proof.
  intros Hq. unfold Zip.write_member, Zip.is_dir, bind.
  destruct (Zip.last_char (filename m)) as [c|]; [|reflexivity].
  cbn [ret]. destruct (Ascii.eqb c "/").
  - destruct (isdir p fs); [reflexivity|]. now apply mkdir_frame.
  - now apply copy_member_frame.
Qed.

(** Unpacking an entry changes nothing at a path that does not lead to
    the place of the entry. *)
Lemma extract_member_frame dest m q fs :
  prefixb q (Zip.place dest m) = false ->
  lookup q (fst (Zip.extract_member dest m fs)) = lookup q fs.
Proof.
  intros Hq. unfold Zip.extract_member, bind.
  generalize (make_upperdirs_frame (Zip.place dest m) q fs Hq).
  destruct (Zip.make_upperdirs _ fs) as [fs1 [[]|e]]; simpl; [|auto].
  intros <-. generalize (write_member_frame (Zip.place dest m) m q fs1 Hq).
  destruct (Zip.write_member _ m fs1) as [fs2 [[]|e]]; auto.
Qed.

Lemma for_each_frame dest ms q : forall fs,
  (forall m, In m ms -> prefixb q (Zip.place dest m) = false) ->
  lookup q (fst (for_each ms (Zip.extract_member dest) fs)) = lookup q fs.
Proof.
  induction ms as [|m ms IH]; intros fs H; [reflexivity|].
  cbn [for_each]. unfold bind.
  generalize (extract_member_frame dest m q fs (H m (or_introl eq_refl))).
  destruct (Zip.extract_member dest m fs) as [fs1 [[]|e]]; simpl; [|auto].
  intros <-. apply IH. intros m' Hm'. apply H. now right.
Qed.

Lemma entries_in z m : In m (Zip.entries z) -> In m z.
Proof.
  unfold Zip.entries. intros H. apply in_flat_map in H as (name & _ & H).
  destruct (Zip.find_info name z) as [m'|] eqn:F; [|destruct H].
  destruct H as [<-|[]]. now apply find_info_name in F.
Qed.

Lemma extractall_frame dest z q fs :
  (forall m, In m z -> prefixb q (Zip.place dest m) = false) ->
  lookup q (fst (Zip.extractall dest z fs)) = lookup q fs.
Proof.
  intros H. rewrite extractall_entries. apply for_each_frame.
  intros m Hm. apply H. now apply entries_in.
Qed.

(** A regular file on the way stops [os.makedirs]. *)
Lemma mkdir_p_through_file p : forall n c r,
  lookup p n = Some (File c) -> exists e, mkdir_p (p ++ r) n = Raise e.
Proof.
  induction p as [|x p IH]; intros n c r.
  - simpl. intros H. inversion H; subst. destruct r; simpl; eauto.
  - destruct n as [c0|es]; [discriminate|]. rewrite lookup_cons.
    destruct (assoc x es) as [c1|] eqn:Hx; [|discriminate].
    intros H. destruct (IH c1 c r H) as [e He].
    exists e. cbn [app mkdir_p]. now rewrite Hx, He.
Qed.

Lemma mkdir_p_keeps_file p n n' q c :
  mkdir_p p n = Ok n' -> lookup q n = Some (File c) -> lookup q n' = Some (File c).
Proof.
  intros Hm L. destruct (prefixb q p) eqn:P.
  - apply prefixb_true in P as [r ->].
    destruct (mkdir_p_through_file q n c r L) as [e He]. congruence.
  - now rewrite (mkdir_p_frame _ _ _ _ Hm P).
Qed.

Lemma not_isdir_below_file q r n c :
  lookup q n = Some (File c) -> isdir (q ++ r) n = false.
Proof.
  intros L. unfold isdir. rewrite lookup_app, L. destruct r; reflexivity.
Qed.

Lemma put_keeps_file p v n q c :
  leaf v -> isdir p n = false -> isdir (removelast p) n = true ->
  lookup q n = Some (File c) -> q <> p ->
  lookup q (put p (Some v) n) = Some (File c).
Proof.
  intros Hv Hd Hp L N. destruct (prefixb q p) eqn:P.
  - apply prefixb_true in P as [r ->].
    destruct r as [|z r]; [now rewrite app_nil_r in N|].
    rewrite removelast_app in Hp by discriminate.
    now rewrite (not_isdir_below_file _ _ _ _ L) in Hp.
  - now rewrite lookup_put_leaf.
Qed.

Lemma make_upperdirs_keeps_file target fs fs1 r q c :
  Zip.make_upperdirs target fs = (fs1, r) ->
  lookup q fs = Some (File c) -> lookup q fs1 = Some (File c).
Proof.
  unfold Zip.make_upperdirs, makedirs.
  destruct (exists_ _ fs); [intros H; now inversion H|]. simpl.
  destruct (mkdir_p _ fs) as [fs'|e] eqn:Hm; intros H; inversion H; subst; auto.
  eapply mkdir_p_keeps_file; eauto.
Qed.

Lemma mkdir_ok p fs fs' :
  mkdir p fs = (fs', Ok tt) ->
  lookup p fs = None /\ isdir (removelast p) fs = true /\
  fs' = put p (Some (Dir [])) fs.
Proof.
  unfold mkdir, isdir. destruct (lookup p fs); [discriminate|].
  destruct (lookup (removelast p) fs) as [[c|es]|]; try discriminate.
  intros H. now inversion H.
Qed.

Lemma mkdir_raise p fs fs' e : mkdir p fs = (fs', Raise e) -> fs' = fs.
Proof.
  unfold mkdir. destruct (lookup p fs); [intros H; now inversion H|].
  destruct (lookup (removelast p) fs) as [[c|es]|]; intros H; now inversion H.
Qed.

Lemma write_file_ok_parent p c fs f :
  write_file p c fs = (f, Ok tt) ->
  isdir p fs = false /\ isdir (removelast p) fs = true.
Proof.
  unfold write_file, isdir.
  destruct (lookup p fs) as [[c0|es]|]; try discriminate;
    destruct p as [|x q];
    destruct (lookup (removelast _) fs) as [[|es']|]; try discriminate; auto.
Qed.

Lemma write_file_keeps_file p c0 fs fs' r q c :
  write_file p c0 fs = (fs', r) ->
  lookup q fs = Some (File c) -> q <> p -> lookup q fs' = Some (File c).
Proof.
  intros H L N. destruct r as [[]|e].
  - destruct (write_file_ok_parent _ _ _ _ H) as [Hd Hp].
    apply write_file_ok in H as [-> _].
    apply put_keeps_file; auto using leaf_file.
  - apply write_file_raise in H as [-> _]. exact L.
Qed.

Lemma copy_member_keeps_file p rd fs fs' r q c :
  Zip.copy_member p rd fs = (fs', r) ->
  lookup q fs = Some (File c) -> q <> p -> lookup q fs' = Some (File c).
Proof.
  intros H L N.
  destruct rd as [data| |name|written|written name]; cbn [Zip.copy_member] in H.
  - eapply write_file_keeps_file; eauto.
  - inversion H; subst. exact L.
  - inversion H; subst. exact L.
  - unfold bind in H. destruct (write_file p (Bytes written) fs) as [f rw] eqn:W.
    assert (Lf := write_file_keeps_file _ _ _ _ _ _ _ W L N).
    destruct rw as [[]|e]; inversion H; subst; exact Lf.
  - unfold bind in H. destruct (write_file p (Bytes written) fs) as [f rw] eqn:W.
    assert (Lf := write_file_keeps_file _ _ _ _ _ _ _ W L N).
    destruct rw as [[]|e]; inversion H; subst; exact Lf.
Qed.

(** A regular file stays as it is while an entry is unpacked, however
    that ends, unless the entry is a file that goes to the very same
    place. *)
Lemma extract_member_keeps_file dest m fs fs' r q c :
  Zip.extract_member dest m fs = (fs', r) ->
  lookup q fs = Some (File c) ->
  names_dir m = true \/ Zip.place dest m <> q ->
  lookup q fs' = Some (File c).
Proof.
  unfold Zip.extract_member, bind. intros H L N.
  destruct (Zip.make_upperdirs (Zip.place dest m) fs) as [fs1 r1] eqn:H1.
  assert (L1 := make_upperdirs_keeps_file _ _ _ _ _ _ H1 L). clear H1 L.
  destruct r1 as [[]|e]; [|inversion H; subst; exact L1].
  revert H N. unfold Zip.write_member, Zip.is_dir, names_dir, bind.
  destruct (Zip.last_char (filename m)) as [ch|];
    [|intros H; inversion H; subst; auto].
  cbn [ret]. destruct (Ascii.eqb ch "/").
  - intros H _. destruct (isdir (Zip.place dest m) fs1) eqn:D;
      [inversion H; subst; exact L1|].
    destruct r as [[]|e].
    + apply mkdir_ok in H as (Ln & Hp & ->).
      apply put_keeps_file; auto using leaf_empty. congruence.
    + apply mkdir_raise in H. now subst.
  - intros H [N|N]; [discriminate|].
    eapply copy_member_keeps_file; eauto.
Qed.

(** An entry that is unpacked is there afterwards. *)
Lemma extract_member_there dest m fs fs' :
  Zip.extract_member dest m fs = (fs', Ok tt) ->
  if names_dir m then isdir (Zip.place dest m) fs' = true
  else exists data, payload m = ReadOk data /\
                    lookup (Zip.place dest m) fs' = Some (File (Bytes data)).
Proof.
  unfold Zip.extract_member. intros H.
  apply bind_inv_ok in H as (fs1 & [] & _ & H2).
  revert H2. unfold Zip.write_member, Zip.is_dir, names_dir, bind.
  destruct (Zip.last_char (filename m)) as [ch|]; [|discriminate].
  cbn [ret]. destruct (Ascii.eqb ch "/").
  - destruct (isdir (Zip.place dest m) fs1) eqn:D;
      [intros H2; inversion H2; subst; exact D|].
    intros H2. apply mkdir_ok in H2 as (Ln & Hp & ->). unfold isdir.
    destruct (Zip.place dest m) eqn:E; [discriminate|]. rewrite <- E in *.
    rewrite lookup_put_eq; auto. rewrite E. discriminate.
  - intros H2. destruct (copy_member_result _ _ _ _ _ H2) as [data Hd].
    exists data. split; [exact Hd|].
    rewrite Hd in H2. cbn [Zip.copy_member] in H2.
    now apply write_file_ok in H2 as [_ H2].
Qed.

Lemma for_each_keeps_file dest ms q c : forall fs fs' r,
  for_each ms (Zip.extract_member dest) fs = (fs', r) ->
  lookup q fs = Some (File c) ->
  (forall m, In m ms -> names_dir m = true \/ Zip.place dest m <> q) ->
  lookup q fs' = Some (File c).
Proof.
  induction ms as [|m ms IH]; intros fs fs' r H L N.
  - inversion H; subst. exact L.
  - cbn [for_each] in H. unfold bind in H.
    destruct (Zip.extract_member dest m fs) as [fs1 r1] eqn:H1.
    assert (L1 : lookup q fs1 = Some (File c)).
    { apply (extract_member_keeps_file _ _ _ _ _ _ _ H1 L). apply N. now left. }
    destruct r1 as [[]|e]; [|inversion H; subst; exact L1].
    apply (IH fs1 fs' r H L1). intros m' Hm'. apply N. now right.
Qed.

(** The data of the entry [m] is at its place once the entries [ms] are
    unpacked, when [m] is the only file among them that goes there. *)
Lemma for_each_puts dest m data q ms : forall fs fs',
  names_dir m = false -> payload m = ReadOk data -> q = Zip.place dest m ->
  for_each ms (Zip.extract_member dest) fs = (fs', Ok tt) ->
  (forall m', In m' ms -> Zip.place dest m' = q -> m' = m) ->
  In m ms \/ lookup q fs = Some (File (Bytes data)) ->
  lookup q fs' = Some (File (Bytes data)).
Proof.
  intros fs fs' Hf Hp ->. revert fs fs'.
  induction ms as [|m0 ms IH]; intros fs fs' H U S.
  - inversion H; subst. destruct S as [[]|S]. exact S.
  - cbn [for_each] in H. apply bind_inv_ok in H as (fs1 & [] & H1 & H2).
    apply (IH fs1 fs' H2); [intros m' Hm'; apply U; now right|].
    destruct (list_eq_dec string_dec (Zip.place dest m0) (Zip.place dest m)) as [E|N].
    + right. rewrite (U m0 (or_introl eq_refl) E) in H1.
      apply extract_member_there in H1. rewrite Hf in H1.
      destruct H1 as (data' & Hd & H1). rewrite Hp in Hd. inversion Hd; subst.
      exact H1.
    + destruct S as [[->|S]|S]; [congruence|now left|right].
      eapply extract_member_keeps_file; eauto.
Qed.

Lemma extract_plain_inv self a dst fs fs' d ms :
  lookup a fs = Some (File (ZipBytes ms)) ->
  extract self a dst false fs = (fs', Ok d) ->
  d = os_path_join (basedir self) dst /\
  Zip.extractall (os_path_join (basedir self) dst) ms fs = (fs', Ok tt).
Proof.
  intros L. unfold extract, try_except, extract_body, bind, Zip.ZipFile. rewrite L.
  destruct (Zip.extractall _ ms fs) as [fs1 [[]|e]].
  - unfold ret. intros H. inversion H; subst. auto.
  - destruct e; discriminate.
Qed.

Lemma find_info_entry z n m : Zip.find_info n z = Some m -> In m (Zip.entries z).
Proof.
  intros F. unfold Zip.entries. apply in_flat_map. exists n. split.
  - destruct (find_info_name _ _ _ F) as [<- I]. unfold Zip.namelist.
    now apply in_map.
  - rewrite F. now left.
Qed.

Lemma entry_found z m : In m (Zip.entries z) -> Zip.find_info (filename m) z = Some m.
Proof.
  unfold Zip.entries. intros H. apply in_flat_map in H as (name & _ & H).
  destruct (Zip.find_info name z) as [m'|] eqn:F; [|destruct H].
  destruct H as [<-|[]]. destruct (find_info_name _ _ _ F) as [-> _]. exact F.
Qed.


(** ** The claims about the run *)

Lemma raises_only_try_except {S A} (P : exn -> Prop) (m : M S A) h :
  (forall e handler, h e = Some handler -> raises_only P handler) ->
  (forall s s' e, m s = (s', Raise e) -> h e = None -> P e) ->
  raises_only P (try_except m h).
Proof.
  intros Hh Hm s s' e H.
  apply try_except_raise in H as [(s1 & e1 & handler & _ & Eh & Hr)|[Hr Eh]].
  - eapply Hh; eauto.
  - eapply Hm; eauto.
Qed.

Lemma raises_only_print P line : raises_only P (print line).
Proof. intros w w' e H. discriminate. Qed.

Lemma raises_only_drive P c : raises_only P (drive c).
Proof. intros w w' e H. discriminate. Qed.

Lemma uncaught_login E u p :
  raises_only (fun e => caught e = false) (Downloader._login E u p).
Proof.
  unfold Downloader._login, Downloader.find_element_by_id, Downloader.exit_.
  repeat first
    [ apply raises_only_drive | apply raises_only_print
    | apply raises_only_ret
    | apply raises_only_raise; reflexivity
    | apply raises_only_bind; [|intros ?]
    | match goal with
      | |- raises_only _ (if ?b then _ else _) => destruct b
      end ].
  apply raises_only_try_except.
  - intros e handler H. inversion H; subst.
    repeat first
      [ apply raises_only_drive | apply raises_only_print
      | apply raises_only_raise; reflexivity
      | apply raises_only_bind; [|intros ?] ].
  - intros s s' e _ H. discriminate.
Qed.

Lemma uncaught_Downloader_init E d u p :
  raises_only (fun e => caught e = false) (Downloader.init E d u p).
Proof.
  unfold Downloader.init.
  apply raises_only_bind.
  { destruct (firefox_starts E);
      [apply raises_only_ret|apply raises_only_raise; reflexivity]. }
  intros _. apply raises_only_bind; [apply raises_only_drive|intros _].
  apply raises_only_bind; [apply uncaught_login|intros _].
  apply raises_only_ret.
Qed.

Lemma sync_course_uncaught E ex dl c :
  raises_only (fun e => caught e = false) (StudipSync.sync_course E ex dl c).
Proof.
  intros w w' e H. apply sync_course_raise in H as [H1 H2].
  unfold caught. now rewrite H1, H2.
Qed.

(** A pass of the loop that an exception leaves has recorded no
    outcome. *)
Lemma sync_course_raise_outcomes E ex dl c w w' e :
  StudipSync.sync_course E ex dl c w = (w', Raise e) -> outcomes w' = outcomes w.
Proof.
  unfold StudipSync.sync_course. intros H.
  unfold bind at 1 in H. cbn [print] in H.
  apply try_except_raise in H as [(s1 & e1 & handler & _ & Hh & Hr)|[Hb _]].
  - exfalso. destruct e1; try discriminate; inversion Hh; subst; clear Hh;
      revert Hr; unfold bind, print, record_outcome; discriminate.
  - revert Hb. unfold bind at 1.
    match goal with
    | |- context [Downloader.download E dl ?a ?b ?w0] =>
        generalize (quiet_download E dl a b w0);
        destruct (Downloader.download E dl a b w0) as [w1 [z|e1]]
    end.
    + intros (_ & Q1 & _). cbn [fst] in Q1. unfold bind at 1.
      match goal with
      | |- context [on_fs ?m w1] =>
          generalize (quiet_on_fs m w1); destruct (on_fs m w1) as [w2 [d|e2]]
      end.
      * intros _. unfold record_outcome. discriminate.
      * intros (_ & Q2 & _) Hb. cbn [fst] in Q2. inversion Hb; subst.
        rewrite Q2, Q1. reflexivity.
    + intros (_ & Q1 & _) Hb. cbn [fst] in Q1. inversion Hb; subst.
      rewrite Q1. reflexivity.
Qed.

(** The loop, however it ends: the courses it got through are settled,
    in order; it ends early only with an exception that it does not
    catch. *)
Lemma loop_any E ex dl cs : forall w w' r,
  for_each cs (StudipSync.sync_course E ex dl) w = (w', r) ->
  exists done rest new,
    cs = done ++ rest /\
    outcomes w' = outcomes w ++ new /\
    Forall2 (settles E) done new /\
    (forall c, In c done -> reported E c (stdout w')) /\
    match r with
    | Ok _ => rest = []
    | Raise e => caught e = false
    end.
Proof.
  induction cs as [|c cs IH]; intros w w' r H.
  - inversion H; subst. exists [], [], [].
    split; [reflexivity|]. split; [now rewrite app_nil_r|].
    split; [constructor|]. split; [intros c []|reflexivity].
  - cbn [for_each] in H. unfold bind in H.
    destruct (StudipSync.sync_course E ex dl c w) as [w1 [[]|e]] eqn:Hc.
    + destruct (sync_course_ok _ _ _ _ _ _ Hc) as (o & Ho & Oc & Rc).
      destruct (IH _ _ _ H) as (done & rest & new & Ecs & On & Fn & Rn & Hr).
      exists (c :: done), rest, ((save_as c, o) :: new). repeat split.
      * cbn [app]. now rewrite Ecs.
      * rewrite On, Oc, <- app_assoc. reflexivity.
      * constructor; [split; auto|exact Fn].
      * intros c' [<-|I]; [|now apply Rn].
        assert (Cl := calm_loop E ex dl cs w1). rewrite H in Cl.
        destruct Cl as [_ Cl]. eapply reported_incl; eauto.
      * exact Hr.
    + inversion H; subst. exists [], (c :: cs), [].
      split; [reflexivity|]. split.
      { rewrite app_nil_r. eapply sync_course_raise_outcomes; eauto. }
      split; [constructor|]. split; [intros c' []|].
      eapply sync_course_uncaught; eauto.
Qed.

Lemma before_merge_any E C s w w' r :
  StudipSync.before_merge E C s w = (w', r) ->
  exists done rest new,
    courses C = done ++ rest /\
    outcomes w' = outcomes w ++ new /\
    Forall2 (settles E) done new /\
    (forall c, In c done -> reported E c (stdout w')) /\
    match r with
    | Ok _ => rest = []
    | Raise e => caught e = false
    end.
Proof.
  unfold StudipSync.before_merge. intros H.
  unfold bind at 1 in H. cbn [print] in H.
  set (w0 := {| fs := fs w; stdout := stdout w ++ ["Logging in..."];
                driver_log := driver_log w; requests := requests w;
                spawned := spawned w; outcomes := outcomes w |}) in H.
  unfold bind at 1 in H. unfold with_ in H. unfold bind at 1 in H.
  assert (Qi := quiet_Downloader_init E (StudipSync.download_dir s)
                  (username C) (password C) w0).
  destruct (Downloader.init E (StudipSync.download_dir s) (username C) (password C) w0)
    as [w1 [dl|e]] eqn:Hi; cbn [fst] in Qi; destruct Qi as (_ & Oi & _).
  2:{ inversion H; subst w' r. exists [], (courses C), [].
      split; [reflexivity|]. split; [rewrite app_nil_r; exact Oi|].
      split; [constructor|]. split; [intros c []|].
      eapply uncaught_Downloader_init; eauto. }
  destruct (for_each (courses C)
              (StudipSync.sync_course E
                 {| Extractor.basedir := StudipSync.extract_dir s |} dl) w1)
    as [w2 rl] eqn:Hl.
  destruct (loop_any _ _ _ _ _ _ _ Hl) as (done & rest & new & Ecs & On & Fn & Rn & Hr).
  exists done, rest, new.
  destruct rl as [[]|e].
  - unfold bind at 1 in H. unfold Downloader.exit, drive in H. cbn [ret] in H.
    unfold bind, print in H. inversion H; subst w' r.
    cbn [fs stdout driver_log requests spawned outcomes].
    split; [exact Ecs|]. split; [rewrite On, Oi; reflexivity|].
    split; [exact Fn|]. split; [|exact Hr].
    intros c I. eapply reported_incl; [|apply Rn; exact I].
    apply incl_appl, incl_refl.
  - unfold bind at 1 in H. unfold Downloader.exit, drive in H. cbn [raise] in H.
    inversion H; subst w' r.
    cbn [fs stdout driver_log requests spawned outcomes].
    split; [exact Ecs|]. split; [rewrite On, Oi; reflexivity|].
    split; [exact Fn|]. split; [exact Rn|exact Hr].
Qed.

Lemma rsync_uncaught E r src dst :
  raises_only (fun e => caught e = false) (RsyncWrapper.sync E r src dst).
Proof.
  intros w w' e. unfold RsyncWrapper.sync, bind, subprocess_call.
  destruct (spawn E _ (fs w)) as [[f st]|]; [discriminate|].
  intros H. inversion H; subst. reflexivity.
Qed.

(** C3, as the program has it.  For every run of [sync], however it ends:
    the courses the run got through, in the order of the configuration,
    have one outcome each, one of staged, download_failed and
    extraction_failed, decided by the answers of the portal for that
    course alone, and a failure is reported under the name of the course.
    A run that returns got through every course, so a failed course does
    not keep the loop from the next one; and an exception that ends a run
    is never a DownloadError or an ExtractionError: those are caught. *)
Theorem sync_settles_every_course :
  forall E C s w,
    exists done rest new,
      courses C = done ++ rest /\
      outcomes (fst (StudipSync.sync E C s w)) = outcomes w ++ new /\
      Forall2 (settles E) done new /\
      (forall c, In c done -> reported E c (stdout (fst (StudipSync.sync E C s w)))) /\
      match snd (StudipSync.sync E C s w) with
      | Ok _ => rest = []
      | Raise e => is_DownloadError e = false /\ is_ExtractionError e = false
      end.
Proof.
  intros E C s w.
  assert (K : forall e, caught e = false ->
                        is_DownloadError e = false /\ is_ExtractionError e = false).
  { intros e. unfold caught. apply orb_false_iff. }
  destruct (StudipSync.sync E C s w) as [wf rf] eqn:Hs. cbn [fst snd].
  rewrite sync_split in Hs. unfold bind in Hs.
  destruct (StudipSync.before_merge E C s w) as [w3 rb] eqn:Hb.
  destruct (before_merge_any _ _ _ _ _ _ Hb)
    as (done & rest & new & Ecs & On & Fn & Rn & Hr).
  exists done, rest, new.
  destruct rb as [[]|e].
  - destruct rf as [[]|e].
    + apply rsync_ok in Hs as (_ & Om & Sm). rewrite Om, Sm. auto.
    + assert (U := rsync_uncaught _ _ _ _ _ _ _ Hs).
      apply rsync_raise in Hs. subst wf.
      split; [exact Ecs|]. split; [exact On|]. split; [exact Fn|].
      split; [exact Rn|]. now apply K.
  - inversion Hs; subst wf rf.
    split; [exact Ecs|]. split; [exact On|]. split; [exact Fn|].
    split; [exact Rn|]. now apply K.
Qed.

(** The run of three courses: the first is refused, the archive of the
    second breaks at its second entry, the third is unknown to the
    portal; all three are settled and the merge is started. *)
Lemma sync_three_courses :
  StudipSync.sync (portal true refused (answer zip_broken))
    (cfg [course1; course2; course3]) sync0 w_boot
  = (fst (StudipSync.sync (portal true refused (answer zip_broken))
            (cfg [course1; course2; course3]) sync0 w_boot), Ok tt) /\
  outcomes (fst (StudipSync.sync (portal true refused (answer zip_broken))
                   (cfg [course1; course2; course3]) sync0 w_boot))
  = [("S", download_failed); ("T", extraction_failed); ("U", download_failed)].
Proof. split; vm_compute; reflexivity. Qed.

(** The claim of C3 as written fails: when the connection breaks during
    the download of the first course, the exception is not one the loop
    catches; the run ends there and neither course has an outcome. *)
Lemma every_course_settled_fails :
  ~ every_course_settled (cfg [course1; course2]) w_boot
      (fst (StudipSync.sync (portal true None (answer zip_two))
              (cfg [course1; course2]) sync0 w_boot)).
Proof.
  intros (new & H1 & H2). vm_compute in H1.
  destruct new; discriminate.
Qed.

(** ** Exceptions the loop does not catch *)

Lemma extract_propagates self a dst cl fs fs' e :
  extract_body self a dst cl fs = (fs', Raise e) -> e <> BadZipFile ->
  extract self a dst cl fs = (fs', Raise e).
Proof.
  intros B N. unfold extract, try_except. rewrite B.
  destruct e; try reflexivity. contradiction.
Qed.

Lemma sync_course_propagates E ex dl c w w1 z f2 e :
  Downloader.download E dl (course_id c) (sync_only c)
    (fst (print ("Downloading '" ++ save_as c ++ "'...")%string w)) = (w1, Ok z) ->
  extract_body ex z (save_as c) true (fs w1) = (f2, Raise e) ->
  e <> BadZipFile ->
  StudipSync.sync_course E ex dl c w = (set_fs f2 w1, Raise e).
Proof.
  intros D B N. unfold StudipSync.sync_course.
  unfold bind at 1. cbn [print]. cbn [print fst] in D.
  unfold try_except, bind. rewrite D.
  unfold on_fs, zoom. rewrite (extract_propagates _ _ _ _ _ _ _ B N).
  destruct (raises_extract_body _ _ _ _ _ _ _ B) as [O|O]; [|contradiction].
  destruct e; try discriminate; reflexivity.
Qed.

(** C10.  [extract] turns BadZipFile alone into ExtractionError: any other
    exception of its body leaves it unchanged.  When that happens to a
    course of the run, the exception is none the loop catches: the run
    ends with it in the state that pass had reached, the browser is
    closed, the courses that follow are not attempted and no merge is
    started. *)
Theorem other_exceptions_end_the_run :
  forall E C s cs1 c cs2 w w_in dl w1 w2 z f2 e,
    courses C = cs1 ++ c :: cs2 ->
    (print "Logging in..." ;;;
     Downloader.init E (StudipSync.download_dir s) (username C) (password C)) w
    = (w_in, Ok dl) ->
    for_each cs1 (StudipSync.sync_course E
                    {| Extractor.basedir := StudipSync.extract_dir s |} dl) w_in
    = (w1, Ok tt) ->
    Downloader.download E dl (course_id c) (sync_only c)
      (fst (print ("Downloading '" ++ save_as c ++ "'...")%string w1)) = (w2, Ok z) ->
    extract_body {| Extractor.basedir := StudipSync.extract_dir s |} z (save_as c)
      true (fs w2) = (f2, Raise e) ->
    e <> BadZipFile ->
    extract {| Extractor.basedir := StudipSync.extract_dir s |} z (save_as c)
      true (fs w2) = (f2, Raise e) /\
    StudipSync.sync E C s w = (fst (Downloader.exit dl (set_fs f2 w2)), Raise e) /\
    spawned (fst (StudipSync.sync E C s w)) = spawned w.
Proof.
  intros E C s cs1 c cs2 w w_in dl w1 w2 z f2 e HC HL H1 HD HB HN.
  assert (HS : StudipSync.sync E C s w
               = (fst (Downloader.exit dl (set_fs f2 w2)), Raise e)).
  { unfold StudipSync.sync.
    unfold bind at 1 in HL. unfold bind at 1.
    destruct (print "Logging in..." w) as [w0 [[]|e0]]; [|discriminate].
    unfold bind at 1. unfold with_. unfold bind at 1. rewrite HL.
    rewrite HC, for_each_app. unfold bind at 1. rewrite H1.
    cbn [for_each]. unfold bind at 1.
    rewrite (sync_course_propagates _ _ _ _ _ _ _ _ _ HD HB HN).
    reflexivity. }
  split; [now apply extract_propagates|]. split; [exact HS|].
  rewrite HS. cbn [fst]. exact (sync_raise_no_merge _ _ _ _ _ _ HS).
Qed.

Lemma other_exceptions_end_the_run_witness :
  snd (StudipSync.sync (portal true (answer zip_single_file) (answer zip_two))
         (cfg [course1; course2]) sync0 w_boot) = Raise NotADirectoryError /\
  spawned (fst (StudipSync.sync (portal true (answer zip_single_file) (answer zip_two))
                  (cfg [course1; course2]) sync0 w_boot)) = [].
Proof.
  pose (E := portal true (answer zip_single_file) (answer zip_two)).
  pose (C := cfg [course1; course2]).
  pose (login := (print "Logging in..." ;;;
                  Downloader.init E (StudipSync.download_dir sync0)
                    (username C) (password C)) w_boot).
  pose (got := Downloader.download E downloader1 (course_id course1)
                 (sync_only course1)
                 (fst (print ("Downloading '" ++ save_as course1 ++ "'...")%string
                         (fst login)))).
  pose (body := extract_body extractor1 ["tmp"; "studip-synck3x9"; "zips"; "c1"]
                  (save_as course1) true (fs (fst got))).
  assert (H1 : login = (fst login, Ok downloader1)) by (vm_compute; reflexivity).
  assert (H2 : got = (fst got, Ok ["tmp"; "studip-synck3x9"; "zips"; "c1"]))
    by (vm_compute; reflexivity).
  assert (H3 : body = (fst body, Raise NotADirectoryError))
    by (vm_compute; reflexivity).
  destruct (other_exceptions_end_the_run E C sync0 [] course1 [course2] w_boot
              (fst login) downloader1 (fst login) (fst got)
              ["tmp"; "studip-synck3x9"; "zips"; "c1"] (fst body) NotADirectoryError
              eq_refl H1 eq_refl H2 H3 ltac:(discriminate))
    as (_ & H & S).
  split.
  - fold E C. rewrite H. reflexivity.
  - fold E C. rewrite S. reflexivity.
Defined.

(** ** The workspace *)

Lemma mkdtemp_from_path dir prefix names : forall fs fs' p,
  StudipSync.mkdtemp_from dir prefix names fs = (fs', Ok p) ->
  exists n, p = dir ++ [n].
Proof.
  induction names as [|n r IH]; intros fs fs' p; cbn [StudipSync.mkdtemp_from].
  - discriminate.
  - unfold try_except, bind.
    destruct (mkdir _ fs) as [fs1 [[]|e]].
    + intros H. inversion H; subst. unfold join. eauto.
    + destruct e; try discriminate. apply IH.
Qed.

Lemma init_workdir E C w w1 s :
  StudipSync.init E C w = (w1, Ok s) -> StudipSync.workdir s <> [].
Proof.
  unfold StudipSync.init. intros H.
  apply bind_inv_ok in H as (wa & p & Hm & H).
  unfold on_fs, zoom in Hm.
  destruct (StudipSync.mkdtemp E "studip-sync" (fs w)) as [f [p'|e]] eqn:T;
    [|discriminate].
  inversion Hm; subst. apply mkdtemp_from_path in T as [n ->].
  apply bind_inv_ok in H as (wb & [] & _ & H).
  apply bind_inv_ok in H as (wc & [] & _ & H).
  apply bind_inv_ok in H as (wd & [] & _ & H).
  inversion H; subst. cbn. intros E0. apply app_eq_nil in E0 as [_ E0].
  discriminate.
Qed.

Lemma cleanup_removes s w :
  StudipSync.workdir s <> [] ->
  isdir (StudipSync.workdir s) (fs (fst (StudipSync.cleanup s w))) = false.
Proof.
  intros N. unfold StudipSync.cleanup, on_fs, zoom, rmtree, isdir.
  destruct (lookup (StudipSync.workdir s) (fs w)) as [[c|es]|] eqn:L.
  - cbn. now rewrite L.
  - destruct (StudipSync.workdir s) as [|x q] eqn:Wd; [congruence|].
    cbn [fst fs set_fs]. now rewrite lookup_put_none.
  - cbn. now rewrite L.
Qed.

(** C4.  Once the workspace has been made, however [sync] ends (normally,
    with the exit of a failed login, with an exception of a download, of
    an extraction or of the merge), leaving the [with] block runs
    [cleanup], and no directory is left at the path of the workspace. *)
Theorem workspace_removed_on_all_paths :
  forall E C w w1 s,
    StudipSync.init E C w = (w1, Ok s) ->
    isdir (StudipSync.workdir s) (fs (fst (StudipSync.run E C w))) = false.
Proof.
  intros E C w w1 s H.
  assert (N := init_workdir _ _ _ _ _ H).
  unfold StudipSync.run, with_. unfold bind at 1. rewrite H.
  destruct (StudipSync.sync E C s w1) as [w2 [[]|e]];
    unfold bind, StudipSync.exit;
    generalize (cleanup_removes s w2 N);
    destruct (StudipSync.cleanup s w2) as [w3 [[]|e']]; auto.
Qed.

Lemma workspace_removed_on_all_paths_witness :
  snd (StudipSync.run (portal false None None) (cfg [course1; course2]) w0)
  = Raise (SystemExit 1) /\
  isdir ["tmp"; "studip-synck3x9"]
    (fs (fst (StudipSync.run (portal false None None) (cfg [course1; course2]) w0)))
  = false.
Proof.
  split; [vm_compute; reflexivity|].
  assert (H : StudipSync.init (portal false None None) (cfg [course1; course2]) w0
              = (w_boot, Ok sync0)) by (vm_compute; reflexivity).
  exact (workspace_removed_on_all_paths _ _ _ _ _ H).
Defined.

(** ** Login *)

Lemma with_enter_raise {S A B} (enter : M S A) exit (body : A -> M S B) s s1 e :
  enter s = (s1, Raise e) -> with_ enter exit body s = (s1, Raise e).
Proof. intros H. unfold with_. now apply bind_raise. Qed.

Ltac run_step :=
  unfold bind at 1;
  cbn [drive print ret raise fs stdout driver_log requests spawned outcomes].

Lemma login_result E u p w :
  login_has_id E "username" = true ->
  login_has_id E "password" = true ->
  Downloader._login E u p w =
  if wait_presence E 7 "footer" then
    ({| fs := fs w; stdout := stdout w;
        driver_log := driver_log w ++ Downloader.login_attempt u p;
        requests := requests w; spawned := spawned w; outcomes := outcomes w |},
     Ok tt)
  else
    ({| fs := fs w; stdout := stdout w ++ ["Login failed!"; "Aborting"];
        driver_log := driver_log w ++ Downloader.login_attempt u p ++ [Quit];
        requests := requests w; spawned := spawned w; outcomes := outcomes w |},
     Raise (SystemExit 1)).
Proof.
  intros Hu Hp.
  unfold Downloader._login, Downloader.find_element_by_id, Downloader.exit_.
  rewrite Hu, Hp.
  do 8 run_step.
  unfold try_except. run_step.
  unfold Downloader.login_attempt.
  destruct (wait_presence E 7 "footer").
  - cbn [ret]. rewrite <- !app_assoc. reflexivity.
  - cbn [raise]. do 3 run_step. rewrite <- !app_assoc. reflexivity.
Qed.

(** *** How long the wait lasts *)

Lemma find_element_later implicit shows now :
  now <= fst (Wait.find_element implicit shows now).
Proof.
  unfold Wait.find_element. destruct shows as [t|]; [|simpl; lia].
  destruct (Nat.leb t now) eqn:A; [simpl; lia|].
  apply Nat.leb_gt in A.
  destruct (Nat.leb t (now + implicit)); simpl; lia.
Qed.

(** The loop of the wait ends: each try takes the time on by a tick at
    least. *)
Lemma until_total implicit end_time shows : forall fuel now,
  now <= end_time -> end_time < now + fuel ->
  exists r, Wait.until fuel implicit end_time shows now = Some r.
Proof.
  induction fuel as [|k IH]; intros now Lo Hi; [lia|].
  cbn [Wait.until].
  assert (F := find_element_later implicit shows now).
  destruct (Wait.find_element implicit shows now) as [now1 found]. cbn [fst] in F.
  destruct found; [eauto|].
  destruct (Nat.ltb end_time (now1 + 1)) eqn:T; [eauto|].
  apply Nat.ltb_ge in T. apply IH; lia.
Qed.

Lemma wait_total implicit timeout shows :
  exists r, Wait.wait implicit timeout shows = Some r.
Proof. unfold Wait.wait. apply until_total; lia. Qed.









(** ** Failed courses and the staging area *)

(** Writing below one entry of a directory leaves its other entries. *)
Lemma lookup_put_sibling d : forall x y p q v n,
  x <> y -> lookup (d ++ x :: p) (put (d ++ y :: q) v n) = lookup (d ++ x :: p) n.
Proof.
  induction d as [|z d IH]; intros x y p q v n N.
  - cbn [app]. destruct n as [c|es]; [reflexivity|].
    destruct q as [|y' q'].
    + cbn [put]. rewrite !lookup_cons.
      destruct v; [rewrite assoc_set_neq|rewrite assoc_del_neq]; congruence.
    + rewrite put_cons. destruct (assoc y es) as [c|]; [|reflexivity].
      rewrite !lookup_cons, assoc_set_neq by congruence. reflexivity.
  - cbn [app]. destruct n as [c|es]; [reflexivity|].
    assert (Hq : exists a b, d ++ y :: q = a :: b).
    { destruct d; cbn; eauto. }
    destruct Hq as (a & b & Hq). rewrite Hq, put_cons, <- Hq.
    destruct (assoc z es) as [c|] eqn:Hz; [|reflexivity].
    rewrite !lookup_cons, assoc_set_eq, Hz. apply IH. exact N.
Qed.

Lemma extract_not_zip self a dst cl fs b :
  lookup a fs = Some (File (Bytes b)) ->
  extract self a dst cl fs
  = (fs, Raise (ExtractionError ("Cannot extract file: " ++ path_str a)%string)).
Proof.
  intros L. unfold extract, try_except, extract_body, bind, Zip.ZipFile.
  rewrite L. reflexivity.
Qed.

(** A loop that an exception leaves: the elements before the one that
    raised went through. *)
Lemma for_each_raise_split {S A} (body : A -> M S unit) (xs : list A) : forall s s' e,
  for_each xs body s = (s', Raise e) ->
  exists pre x post s1,
    xs = pre ++ x :: post /\
    for_each pre body s = (s1, Ok tt) /\
    body x s1 = (s', Raise e).
Proof.
  induction xs as [|x xs IH]; intros s s' e H; [discriminate|].
  cbn [for_each] in H. unfold bind in H.
  destruct (body x s) as [s1 [[]|e1]] eqn:Hx.
  - destruct (IH _ _ _ H) as (pre & y & post & s2 & -> & Hp & Hy).
    exists (x :: pre), y, post, s2. split; [reflexivity|]. split; [|exact Hy].
    cbn [for_each]. unfold bind. now rewrite Hx.
  - inversion H; subst. exists [], x, xs, s. auto.
Qed.

(** An archive whose unpacking ends with BadZipFile: the entries before
    the faulty one were unpacked, and the disk is as the faulty entry left
    it. *)
Lemma extractall_breaks dest z fs fs' :
  Zip.extractall dest z fs = (fs', Raise BadZipFile) ->
  exists pre m post fs1,
    Zip.entries z = pre ++ m :: post /\
    first_fault pre = None /\ fault_of m = Some corrupt /\
    for_each pre (Zip.extract_member dest) fs = (fs1, Ok tt) /\
    Zip.extract_member dest m fs1 = (fs', Raise BadZipFile).
Proof.
  rewrite extractall_entries. intros H.
  apply for_each_raise_split in H as (pre & m & post & fs1 & E & Hp & Hm).
  exists pre, m, post, fs1. split; [exact E|].
  split; [exact (for_each_entries_result _ _ _ _ _ Hp)|].
  split; [exact (extract_member_result _ _ _ _ _ Hm)|]. auto.
Qed.

(** [extract] on an archive, when it ends with ExtractionError. *)
Lemma extract_breaks self a dst fs fs' z msg :
  lookup a fs = Some (File (ZipBytes z)) ->
  extract self a dst true fs = (fs', Raise (ExtractionError msg)) ->
  Zip.extractall (os_path_join (basedir self) dst) z fs = (fs', Raise BadZipFile).
Proof.
  intros L. unfold extract, try_except.
  destruct (extract_body self a dst true fs) as [fs1 [d|e]] eqn:B; [discriminate|].
  assert (R := raises_extract_body _ _ _ _ _ _ _ B).
  destruct e; try (destruct R as [R|R]; discriminate); try discriminate.
  intros H. inversion H; subst. clear H R. revert B.
  unfold extract_body, bind, Zip.ZipFile. rewrite L.
  destruct (Zip.extractall _ z fs) as [fs2 [[]|e]] eqn:X.
  - destruct (remove_intermediary_dir _ fs2) as [fs3 [[]|e]] eqn:Y.
    + destruct (remove_empty_dirs _ fs3) as [fs4 [[]|e]] eqn:Z; [discriminate|].
      intros H. inversion H; subst.
      apply os_only_remove_empty_dirs in Z. discriminate.
    + intros H. inversion H; subst.
      apply os_only_remove_intermediary_dir in Y. discriminate.
  - intros H. now inversion H.
Qed.

(** C6, as the program has it.  A course whose download fails leaves the
    whole file system as it was, and a course whose downloaded file is no
    zip archive leaves the staging area as it was.  When an archive breaks
    part-way, nothing is undone: the disk is the one that unpacking the
    entries before the faulty one left, with what the faulty entry itself
    did (the directories above its place, and an empty or partial file
    when the fault shows while its data is copied); every file unpacked
    before is still there, short of a file at the very place of the faulty
    entry. *)
Theorem failed_course_leaves_staging :
  forall E W c n w w',
    is_absolute (course_id c) = false ->
    components (course_id c) = [n] ->
    StudipSync.sync_course E {| Extractor.basedir := W ++ ["extracted"] |}
      {| Downloader.workdir := W ++ ["zips"] |} c w = (w', Ok tt) ->
    (course_outcome E c = Some download_failed -> fs w' = fs w) /\
    (forall fid resp b,
        parent_folder_id E (course_id c) = Some fid ->
        post E (Downloader.bulk_request E (course_id c) (sync_only c) fid) = Some resp ->
        ok resp = true -> raw resp = Bytes b ->
        course_outcome E c = Some extraction_failed /\
        forall p, lookup (W ++ "extracted" :: p) (fs w')
                  = lookup (W ++ "extracted" :: p) (fs w)) /\
    (forall fid resp z,
        parent_folder_id E (course_id c) = Some fid ->
        post E (Downloader.bulk_request E (course_id c) (sync_only c) fid) = Some resp ->
        ok resp = true -> raw resp = ZipBytes z ->
        course_outcome E c = Some extraction_failed ->
        let dest := os_path_join (W ++ ["extracted"]) (save_as c) in
        exists pre m post fs1,
          Zip.entries z = pre ++ m :: post /\
          first_fault pre = None /\ fault_of m = Some corrupt /\
          for_each pre (Zip.extract_member dest)
            (put (W ++ ["zips"; n]) (Some (File (ZipBytes z))) (fs w)) = (fs1, Ok tt) /\
          fs w' = fst (Zip.extract_member dest m fs1) /\
          forall q c0, lookup q fs1 = Some (File c0) -> q <> Zip.place dest m ->
                       lookup q (fs w') = Some (File c0)).
Proof.
  intros E W c n w w' Ha Hn H.
  unfold StudipSync.sync_course in H.
  apply bind_inv_ok in H as (w0 & [] & Hp & H).
  assert (F0 : fs w0 = fs w) by (inversion Hp; reflexivity).
  rewrite <- F0. clear Hp F0 w.
  unfold try_except, bind in H. rewrite download_unfold in H.
  unfold course_outcome.
  destruct (parent_folder_id E (course_id c)) as [fid|].
  - cbv zeta in H.
    destruct (post E _) as [resp|] eqn:Hpost; [|discriminate].
    destruct (ok resp) eqn:Hok; cbn [negb].
    + split; [|split].
      { destruct (raw resp) as [b|ms]; [discriminate|].
        destruct (first_fault (Zip.entries ms)) as [[|]|]; discriminate. }
      { intros fid' resp' b E1 E2 _ Hb. inversion E1; subst fid'.
        rewrite Hpost in E2. inversion E2; subst resp'.
        rewrite Hb. split; [reflexivity|]. intros p.
        rewrite Hb in H.
        destruct (write_file _ _ _) as [f [[]|e]] eqn:Wf.
        * apply write_file_ok in Wf as [-> L].
          unfold on_fs, zoom in H. cbn [fs set_fs] in H.
          rewrite (extract_not_zip _ _ _ _ _ _ L) in H.
          cbn in H. inversion H; subst. cbn [fs].
          unfold os_path_join. rewrite Ha, Hn. unfold join.
          rewrite <- app_assoc. cbn [app].
          apply lookup_put_sibling. discriminate.
        * apply write_file_raise in Wf as [_ O]. destruct e; discriminate. }
      intros fid' resp' z E1 E2 _ Hz Ho.
      set (dest := os_path_join (W ++ ["extracted"]) (save_as c)).
      inversion E1; subst fid'.
      rewrite Hpost in E2. inversion E2; subst resp'.
      rewrite Hz in H, Ho.
      assert (Ea : os_path_join
                     (Downloader.workdir {| Downloader.workdir := W ++ ["zips"] |})
                     (course_id c) = W ++ ["zips"; n]).
      { unfold os_path_join. rewrite Ha, Hn. unfold join. cbn [Downloader.workdir].
        rewrite <- app_assoc. reflexivity. }
      rewrite Ea in H.
      destruct (write_file _ _ _) as [f [[]|e]] eqn:Wf.
      * apply write_file_ok in Wf as [-> L].
        unfold on_fs, zoom in H. cbn [fs set_fs] in H.
        rewrite after_request_fs in *.
        destruct (extract _ _ _ true _) as [f' [d|e]] eqn:X.
        -- exfalso. assert (R := extract_result _ _ _ _ _ _ _ _ L X).
           cbv beta iota in R. destruct R as (ms & E0 & N). inversion E0; subst ms.
           rewrite N in Ho. discriminate.
        -- assert (R := extract_result _ _ _ _ _ _ _ _ L X). cbv beta iota in R.
           destruct e; try discriminate; try (exfalso; discriminate R).
           clear R. cbn in H. inversion H; subst w'. cbn [fs].
           apply (extract_breaks _ _ _ _ _ _ _ L) in X.
           apply extractall_breaks in X
             as (pre & m & post & fs1 & Ez & Fp & Fm & Hpre & Hm).
           exists pre, m, post, fs1.
           split; [exact Ez|]. split; [exact Fp|]. split; [exact Fm|].
           cbn [basedir] in Hpre, Hm. fold dest in Hpre, Hm.
           split; [exact Hpre|]. rewrite Hm. cbn [fst].
           split; [reflexivity|]. intros q c0 Lq Nq.
           eapply extract_member_keeps_file; eauto.
      * apply write_file_raise in Wf as [_ O]. destruct e; discriminate.
    + split; [|split].
      * intros _. cbn in H. inversion H; subst. reflexivity.
      * intros fid' resp' b E1 E2 Hok'. inversion E1; subst fid'.
        rewrite Hpost in E2. inversion E2; subst resp'. congruence.
      * intros fid' resp' z E1 E2 Hok'. inversion E1; subst fid'.
        rewrite Hpost in E2. inversion E2; subst resp'. congruence.
  - split; [|split]; try discriminate.
    intros _. cbn in H. inversion H; subst. reflexivity.
Qed.

Lemma failed_course_leaves_staging_witness :
  fs (fst (StudipSync.sync_course (portal true refused (answer (Bytes "<html>")))
             extractor1 downloader1 course1 w_boot)) = fs w_boot /\
  lookup ["tmp"; "studip-synck3x9"; "extracted"]
    (fs (fst (StudipSync.sync_course (portal true refused (answer (Bytes "<html>")))
                extractor1 downloader1 course2 w_boot)))
  = Some (Dir []) /\
  lookup ["tmp"; "studip-synck3x9"; "extracted"; "S"; "a"]
    (fs (fst (StudipSync.sync_course (portal true (answer zip_broken) None)
                extractor1 downloader1 course1 w_boot)))
  = Some (File (Bytes "1")).
Proof.
  pose (E := portal true refused (answer (Bytes "<html>"))).
  pose (E' := portal true (answer zip_broken) None).
  pose (W := ["tmp"; "studip-synck3x9"]).
  pose (pass := fun E c =>
          StudipSync.sync_course E {| Extractor.basedir := W ++ ["extracted"] |}
            {| Downloader.workdir := W ++ ["zips"] |} c w_boot).
  assert (H1 : pass E course1 = (fst (pass E course1), Ok tt)) by (vm_compute; reflexivity).
  assert (H2 : pass E course2 = (fst (pass E course2), Ok tt)) by (vm_compute; reflexivity).
  assert (H3 : pass E' course1 = (fst (pass E' course1), Ok tt))
    by (vm_compute; reflexivity).
  apply (failed_course_leaves_staging E W course1 "c1" w_boot _ eq_refl eq_refl)
    in H1 as [H1 _].
  apply (failed_course_leaves_staging E W course2 "c2" w_boot _ eq_refl eq_refl)
    in H2 as [_ [H2 _]].
  apply (failed_course_leaves_staging E' W course1 "c1" w_boot _ eq_refl eq_refl)
    in H3 as [_ [_ H3]].
  specialize (H1 eq_refl).
  destruct (H2 "f2" {| ok := true; raw := Bytes "<html>" |} "<html>"
              eq_refl eq_refl eq_refl eq_refl) as [_ H4].
  specialize (H4 []).
  destruct (H3 "f1" {| ok := true; raw := zip_broken |}
              [MFile "a" (ReadOk "1"); MFile "b" ReadBadZip]
              eq_refl eq_refl eq_refl eq_refl eq_refl)
    as (pre & m & post & fs1 & Ez & Fp & Fm & Hpre & _ & Keep).
  split; [exact H1|]. split; [vm_compute in H4 |- *; exact H4|].
  assert (Ez' : [MFile "a" (ReadOk "1"); MFile "b" ReadBadZip] = pre ++ m :: post)
    by exact Ez.
  destruct pre as [|p0 [|p1 pre]].
  - inversion Ez'; subst m. discriminate Fm.
  - inversion Ez'; subst p0 m post. clear Ez Ez'.
    apply (Keep _ (Bytes "1")); [|discriminate].
    vm_compute in Hpre. inversion Hpre; subst fs1. reflexivity.
  - inversion Ez' as [[A B Cc]]. destruct pre; discriminate.
Defined.

(** The claim of C6 as written fails: the second member of the archive has
    a bad header, so the extraction fails, and the first member stays in
    the staging directory of the course. *)
Lemma staging_only_when_staged_fails :
  ~ staging_only_when_staged (portal true (answer zip_broken) None)
      extractor1 downloader1 course1 w_boot.
Proof.
  intros H.
  pose (w1 := fst (StudipSync.sync_course (portal true (answer zip_broken) None)
                     extractor1 downloader1 course1 w_boot)).
  assert (R : StudipSync.sync_course (portal true (answer zip_broken) None)
                extractor1 downloader1 course1 w_boot = (w1, Ok tt))
    by (vm_compute; reflexivity).
  assert (O : outcomes w1 = outcomes w_boot ++ [(save_as course1, extraction_failed)])
    by (vm_compute; reflexivity).
  assert (L : lookup (os_path_join (Extractor.basedir extractor1) (save_as course1))
                (fs w1) = Some (Dir [("a", File (Bytes "1"))]))
    by (vm_compute; reflexivity).
  specialize (H _ _ _ _ R O L). discriminate.
Qed.

(** ** Download *)




(** ** Archives that cannot be read *)

Lemma extract_error_message self a dst cl fs fs' m :
  extract self a dst cl fs = (fs', Raise (ExtractionError m)) ->
  m = ("Cannot extract file: " ++ path_str a)%string.
Proof.
  unfold extract, try_except.
  destruct (extract_body self a dst cl fs) as [fs1 [d|e]] eqn:B; [discriminate|].
  destruct (raises_extract_body _ _ _ _ _ _ _ B) as [O|O].
  - destruct e; try discriminate; intros H; inversion H.
  - subst e. intros H. now inversion H.
Qed.

Lemma fs_error_mkdir p : raises_only (fun e => fs_error e = true) (mkdir p).
Proof.
  intros fs fs' e. unfold mkdir.
  destruct (lookup p fs); [intros E; inversion E; reflexivity|].
  destruct (lookup (removelast p) fs) as [[|]|];
    intros E; inversion E; reflexivity.
Qed.

Lemma fs_error_mkdir_p p : forall n e, mkdir_p p n = Raise e -> fs_error e = true.
Proof.
  induction p as [|x q IH]; intros n e; destruct n as [c|es]; simpl;
    try (intros E; inversion E; reflexivity).
  destruct (mkdir_p q _) as [c|e'] eqn:Hq; [discriminate|].
  intros E. inversion E; subst. eapply IH; eauto.
Qed.

Lemma fs_error_make_upperdirs target :
  raises_only (fun e => fs_error e = true) (Zip.make_upperdirs target).
Proof.
  intros fs fs' e. unfold Zip.make_upperdirs, makedirs.
  destruct (exists_ _ fs); [discriminate|]. cbn [negb andb].
  destruct (mkdir_p _ fs) eqn:H; [discriminate|].
  intros E. inversion E; subst. eapply fs_error_mkdir_p; eauto.
Qed.

Lemma fs_error_write_file p c : raises_only (fun e => fs_error e = true) (write_file p c).
Proof.
  intros fs fs' e. unfold write_file.
  destruct (lookup p fs) as [[|]|]; destruct p;
    try destruct (lookup (removelast _) fs) as [[|]|];
    intros E; inversion E; reflexivity.
Qed.

(** What stops the unpacking of an entry: an error of the file system,
    or the fault of the entry. *)
Lemma extract_member_raise dest m fs fs' e :
  Zip.extract_member dest m fs = (fs', Raise e) ->
  fs_error e = true \/
  (e = BadZipFile /\ fault_of m = Some corrupt) \/
  fault_of m = Some failing.
Proof.
  unfold Zip.extract_member, bind.
  destruct (Zip.make_upperdirs _ fs) as [fs1 [[]|e1]] eqn:E1.
  2:{ intros H. inversion H; subst. left. eapply fs_error_make_upperdirs; eauto. }
  unfold Zip.write_member, Zip.is_dir, fault_of, bind.
  destruct (Zip.last_char (filename m)) as [ch|]; [|intros _; now right; right].
  cbn [ret]. destruct (Ascii.eqb ch "/").
  - destruct (isdir _ fs1); [discriminate|].
    intros H. left. eapply fs_error_mkdir; eauto.
  - destruct (payload m) as [data| |name|written|written name]; cbn [Zip.copy_member].
    + intros H. left. eapply fs_error_write_file; eauto.
    + intros H. inversion H; subst. right. left. auto.
    + intros H. now right; right.
    + unfold bind. destruct (write_file _ _ fs1) as [f [[]|e2]] eqn:W.
      * intros H. inversion H; subst. right. left. auto.
      * intros H. inversion H; subst. left. eapply fs_error_write_file; eauto.
    + intros H. now right; right.
Qed.

Lemma for_each_entries_raise dest ms : forall fs fs' e,
  for_each ms (Zip.extract_member dest) fs = (fs', Raise e) ->
  fs_error e = true \/
  (e = BadZipFile /\ first_fault ms = Some corrupt) \/
  first_fault ms = Some failing.
Proof.
  induction ms as [|m ms IH]; intros fs fs' e; cbn [for_each first_fault];
    [discriminate|].
  unfold bind. destruct (Zip.extract_member dest m fs) as [fs1 [[]|e1]] eqn:E1.
  - intros H. apply extract_member_result in E1. rewrite E1. eapply IH; eauto.
  - intros H. inversion H; subst.
    destruct (extract_member_raise _ _ _ _ _ E1) as [F|[[-> F]|F]]; auto;
      rewrite F; auto.
Qed.

(** C8, as the program has it.  A file that is no zip archive makes
    [extract] raise ExtractionError with the message
    [Cannot extract file: <archive_path>], and nothing on the disk changes:
    no part of the file reaches the staging tree that the merge reads.  An
    archive in which the first entry that does not unpack fails with
    BadZipFile (a bad header, a bad checksum) never unpacks to the end:
    [extract] raises that ExtractionError, unless an error of the file
    system (a missing, an existing or a wrong kind of entry on the way)
    stops the unpacking before the faulty entry is read. *)
Theorem extract_rejects_bad_archive :
  forall self a dst cl fs c,
    lookup a fs = Some (File c) ->
    match c with
    | Bytes _ =>
        extract self a dst cl fs
        = (fs, Raise (ExtractionError ("Cannot extract file: " ++ path_str a)%string))
    | ZipBytes z =>
        first_fault (Zip.entries z) = Some corrupt ->
        forall fs' r,
          extract self a dst cl fs = (fs', r) ->
          r = Raise (ExtractionError ("Cannot extract file: " ++ path_str a)%string) \/
          exists e, r = Raise e /\ fs_error e = true
    end.
Proof.
  intros self a dst cl fs c L. destruct c as [b|z].
  - eapply extract_not_zip; eauto.
  - intros F fs' r X. revert X. unfold extract, try_except.
    destruct (extract_body self a dst cl fs) as [fs1 [d|e]] eqn:B.
    + exfalso. revert B. unfold extract_body, bind, Zip.ZipFile. rewrite L.
      destruct (Zip.extractall _ z fs) as [fs2 [[]|e]] eqn:X; [|discriminate].
      apply extractall_result in X. congruence.
    + revert B. unfold extract_body, bind, Zip.ZipFile. rewrite L.
      destruct (Zip.extractall _ z fs) as [fs2 [[]|e0]] eqn:X.
      { apply extractall_result in X. congruence. }
      intros B. inversion B; subst e0 fs2. clear B.
      rewrite extractall_entries in X.
      destruct (for_each_entries_raise _ _ _ _ _ X) as [Fe|[[-> _]|Ff]].
      * intros H. right. exists e. split; [|exact Fe].
        destruct e; try discriminate; inversion H; reflexivity.
      * intros H. inversion H. now left.
      * congruence.
Qed.

Lemma extract_rejects_bad_archive_witness :
  extract extractor0 archive0 "S" true (disk (Bytes "<html>"))
  = (disk (Bytes "<html>"), Raise (ExtractionError "Cannot extract file: /w/zips/c1")) /\
  snd (extract extractor0 archive0 "S" true (disk zip_broken))
  = Raise (ExtractionError "Cannot extract file: /w/zips/c1").
Proof.
  split.
  - exact (extract_rejects_bad_archive extractor0 archive0 "S" true
             (disk (Bytes "<html>")) (Bytes "<html>") eq_refl).
  - pose (out := extract extractor0 archive0 "S" true (disk zip_broken)).
    assert (X : out = (fst out, snd out)) by (destruct out; reflexivity).
    destruct (extract_rejects_bad_archive extractor0 archive0 "S" true
                (disk zip_broken) zip_broken eq_refl eq_refl _ _ X) as [H|(e & H & O)].
    + exact H.
    + exfalso. revert H O. vm_compute. intros H. inversion H. discriminate.
Defined.

(** Where unpacking goes by name: a bad entry that a later entry of the
    same name replaces is never read, and the archive unpacks; a bad
    checksum shows while the data is copied, and leaves an empty file. *)
Lemma shadowed_entry_is_not_read :
  exists fs2,
    extract extractor0 archive0 "S" false (disk Cases.zip_shadowed)
    = (fs2, Ok ["w"; "extracted"; "S"]) /\
    lookup ["w"; "extracted"; "S"; "x"] fs2 = Some (File (Bytes "new")).
Proof. eexists. split; vm_compute; reflexivity. Qed.

Lemma bad_checksum_leaves_empty_file :
  exists fs2,
    extract extractor0 archive0 "S" true (disk Cases.zip_bad_crc)
    = (fs2, Raise (ExtractionError "Cannot extract file: /w/zips/c1")) /\
    lookup ["w"; "extracted"; "S"; "a"] fs2 = Some (File (Bytes "")).
Proof. eexists. split; vm_compute; reflexivity. Qed.

(** The claim of C8 as written fails in three ways: on the text of the
    message; on an archive whose data does not decompress, which ends
    [extract] with the error of the decompressor and not with
    ExtractionError; and on an archive whose bad entry lies below a
    regular file, where the error of the file system comes first. *)
Lemma spec_message_differs :
  snd (extract extractor0 archive0 "S" true (disk (Bytes "<html>")))
  <> Raise (ExtractionError (spec_message archive0)) /\
  snd (extract extractor0 archive0 "S" true (disk Cases.zip_garbled))
  = Raise (OtherError "zlib.error") /\
  snd (extract extractor0 archive0 "S" true (disk Cases.zip_blocked))
  = Raise NotADirectoryError.
Proof.
  split; [|split].
  - vm_compute. intros H. inversion H.
  - vm_compute. reflexivity.
  - vm_compute. reflexivity.
Qed.
(** ** The merge *)

























(** ** Trees to merge *)






(** ** What the merge does to the destination *)










(** Where the hypotheses on the names do not hold: a file of the
    destination that has the name of a backup already is replaced by the
    backup; and a staged file does not take the place of a directory that
    holds something. *)
Example merge_edge_cases :
  Rsync.run "~" ["s"] ["d"]
    (Dir [("s", Dir [("x", File (Bytes "new"))]);
          ("d", Dir [("x", File (Bytes "old")); ("x~", File (Bytes "older"))])])
  = (Dir [("s", Dir [("x", File (Bytes "new"))]);
          ("d", Dir [("x", File (Bytes "new")); ("x~", File (Bytes "old"))])], 0) /\
  Rsync.run "~" ["s"] ["d"]
    (Dir [("s", Dir [("x", File (Bytes "new"))]);
          ("d", Dir [("x", Dir [("f", File (Bytes "1"))])])])
  = (Dir [("s", Dir [("x", File (Bytes "new"))]);
          ("d", Dir [("x", Dir [("f", File (Bytes "1"))])])], 23).
Proof. split; reflexivity. Qed.
(** ** What a run leaves alone *)


















(** X4.  Unpacking without cleanup, entry by name: when [extract] returns, it
    returns the directory of the course, and for a name of a file in the
    archive the data of the last entry of that name is at the place of the
    name, provided no other name of the archive goes to the same place. *)
Theorem extract_last_member_wins :
  forall self archive_filename destination fs fs' d z n m data,
    lookup archive_filename fs = Some (File (ZipBytes z)) ->
    no_dotdot destination = true ->
    apartb (os_path_join (basedir self) destination) archive_filename = true ->
    Zip.find_info n z = Some m ->
    names_dir m = false -> payload m = ReadOk data ->
    (forall m', In m' z -> Zip.arcname (filename m') = Zip.arcname n ->
                filename m' = n) ->
    extract self archive_filename destination false fs = (fs', Ok d) ->
    d = os_path_join (basedir self) destination /\
    lookup (d ++ Zip.arcname n) fs' = Some (File (Bytes data)).
Proof.
  intros self a dst fs fs' d z n m data L _ _ F Hf Hp U H.
  destruct (extract_plain_inv _ _ _ _ _ _ _ L H) as [-> X].
  split; [reflexivity|]. rewrite extractall_entries in X.
  destruct (find_info_name _ _ _ F) as [Hn _].
  apply (for_each_puts (os_path_join (basedir self) dst) m data _ (Zip.entries z) fs fs'
           Hf Hp); auto.
  - unfold Zip.place, join. now rewrite Hn.
  - intros m' Hm' E. unfold Zip.place, join in E. apply app_inv_head in E.
    assert (En : filename m' = n) by (apply U; [now apply entries_in|exact E]).
    apply entry_found in Hm'. rewrite En, F in Hm'. now inversion Hm'.
  - left. eapply find_info_entry; eauto.
Qed.

Lemma extract_last_member_wins_witness :
  lookup ["w"; "extracted"; "S"; "x"]
    (fst (extract extractor0 archive0 "S" false
            (disk (ZipBytes [MFile "x" ReadBadZip; MDir "sub";
                             MFile "x" (ReadOk "new"); MFile "sub/y" (ReadOk "3")]))))
  = Some (File (Bytes "new")).
Proof.
  refine (proj2 (extract_last_member_wins extractor0 archive0 "S"
                   (disk (ZipBytes [MFile "x" ReadBadZip; MDir "sub";
                                    MFile "x" (ReadOk "new");
                                    MFile "sub/y" (ReadOk "3")]))
                   _ ["w"; "extracted"; "S"]
                   [MFile "x" ReadBadZip; MDir "sub";
                    MFile "x" (ReadOk "new"); MFile "sub/y" (ReadOk "3")]
                   "x" (MFile "x" (ReadOk "new")) "new"
                   eq_refl eq_refl eq_refl eq_refl eq_refl eq_refl _ eq_refl)).
  intros m' [<-|[<-|[<-|[<-|[]]]]]; vm_compute; intros H;
    solve [reflexivity | discriminate].
Defined.
(** ** The layout that unpacking leaves *)

Lemma isdir_prefix q r n : lookup (q ++ r) n <> None -> r <> [] -> isdir q n = true.
Proof.
  unfold isdir. rewrite lookup_app.
  destruct (lookup q n) as [[c|es]|]; try congruence.
  destruct r; [congruence|]. simpl. congruence.
Qed.

Lemma put_keeps_dir_above q : forall z r v n,
  isdir q n = true -> isdir q (put (q ++ z :: r) v n) = true.
Proof.
  unfold isdir. induction q as [|x q IH]; intros z r v n.
  - cbn [app lookup]. destruct n as [c|es]; [discriminate|]. intros _.
    destruct r as [|z' r'].
    + now destruct v.
    + rewrite put_cons. now destruct (assoc z es).
  - destruct n as [c|es]; [discriminate|]. rewrite lookup_cons.
    destruct (assoc x es) as [c0|] eqn:Hx; [|discriminate].
    intros H. cbn [app].
    assert (E : exists a b, q ++ z :: r = a :: b) by (destruct q; cbn; eauto).
    destruct E as (a & b & E). rewrite E, put_cons, <- E, Hx.
    rewrite lookup_cons, assoc_set_eq. now apply IH.
Qed.

Lemma put_keeps_dir p v n q :
  leaf v -> isdir p n = false -> isdir q n = true ->
  isdir q (put p (Some v) n) = true.
Proof.
  intros Hv Hp Hq. destruct (prefixb q p) eqn:P.
  - apply prefixb_true in P as [r ->].
    destruct r as [|z r]; [rewrite app_nil_r in Hp; congruence|].
    now apply put_keeps_dir_above.
  - unfold isdir in *. now rewrite lookup_put_leaf.
Qed.

Lemma mkdir_p_isdir p : forall n n', mkdir_p p n = Ok n' -> isdir p n' = true.
Proof.
  unfold isdir. induction p as [|x p IH]; intros n n'.
  - destruct n; simpl; [discriminate|]. intros H. now inversion H.
  - destruct n as [c|es]; [discriminate|]. cbn [mkdir_p].
    destruct (mkdir_p p _) as [c'|e] eqn:Hc; [|discriminate].
    intros H. inversion H; subst. rewrite lookup_cons, assoc_set_eq. eapply IH; eauto.
Qed.

Lemma isdir_prefix_of_dir q r n : isdir (q ++ r) n = true -> isdir q n = true.
Proof.
  destruct r as [|z r]; [now rewrite app_nil_r|].
  intros H. apply (isdir_prefix q (z :: r)); [|discriminate].
  unfold isdir in H. destruct (lookup (q ++ z :: r) n); congruence.
Qed.

Lemma mkdir_p_keeps_dir p n n' q :
  mkdir_p p n = Ok n' -> isdir q n = true -> isdir q n' = true.
Proof.
  intros Hm Hq. destruct (prefixb q p) eqn:P.
  - apply prefixb_true in P as [r ->].
    apply mkdir_p_isdir in Hm. eapply isdir_prefix_of_dir; eauto.
  - unfold isdir in *. now rewrite (mkdir_p_frame _ _ _ _ Hm P).
Qed.

Lemma make_upperdirs_keeps_dir target fs fs1 r q :
  Zip.make_upperdirs target fs = (fs1, r) -> isdir q fs = true -> isdir q fs1 = true.
Proof.
  unfold Zip.make_upperdirs, makedirs.
  destruct (exists_ _ fs); [intros H; now inversion H|]. simpl.
  destruct (mkdir_p _ fs) as [f|e] eqn:Hm; intros H; inversion H; subst; auto.
  eapply mkdir_p_keeps_dir; eauto.
Qed.

Lemma extract_member_keeps_dir dest m fs fs' q :
  Zip.extract_member dest m fs = (fs', Ok tt) ->
  isdir q fs = true -> isdir q fs' = true.
Proof.
  unfold Zip.extract_member. intros H L.
  apply bind_inv_ok in H as (fs1 & [] & H1 & H2).
  assert (L1 := make_upperdirs_keeps_dir _ _ _ _ _ H1 L). clear H1 L.
  revert H2. unfold Zip.write_member, Zip.is_dir, bind.
  destruct (Zip.last_char (filename m)) as [ch|]; [|discriminate].
  cbn [ret]. destruct (Ascii.eqb ch "/").
  - destruct (isdir (Zip.place dest m) fs1) eqn:D;
      [intros H2; inversion H2; subst; exact L1|].
    intros H2. apply mkdir_ok in H2 as (Ln & Hp & ->).
    apply put_keeps_dir; auto using leaf_empty.
  - intros H2. destruct (copy_member_result _ _ _ _ _ H2) as [data Hd].
    rewrite Hd in H2. cbn [Zip.copy_member] in H2.
    destruct (write_file_ok_parent _ _ _ _ H2) as [Hd' Hp].
    apply write_file_ok in H2 as [-> _].
    apply put_keeps_dir; auto using leaf_file.
Qed.

(** What is there stays there while an entry is unpacked. *)
Lemma extract_member_keeps_entry dest m fs fs' q :
  Zip.extract_member dest m fs = (fs', Ok tt) ->
  lookup q fs <> None -> lookup q fs' <> None.
Proof.
  intros H L. destruct (lookup q fs) as [[c|es]|] eqn:Lq; [| |congruence].
  - destruct (names_dir m) eqn:Nd.
    + rewrite (extract_member_keeps_file _ _ _ _ _ _ _ H Lq); [discriminate|now left].
    + destruct (list_eq_dec string_dec (Zip.place dest m) q) as [<-|N].
      * apply extract_member_there in H. rewrite Nd in H.
        destruct H as (data & _ & H). rewrite H. discriminate.
      * rewrite (extract_member_keeps_file _ _ _ _ _ _ _ H Lq); [discriminate|now right].
  - assert (D : isdir q fs = true) by (unfold isdir; now rewrite Lq).
    apply (extract_member_keeps_dir _ _ _ _ _ H) in D.
    unfold isdir in D. destruct (lookup q fs'); congruence.
Qed.

Lemma for_each_keeps_entry dest ms q : forall fs fs',
  for_each ms (Zip.extract_member dest) fs = (fs', Ok tt) ->
  lookup q fs <> None -> lookup q fs' <> None.
Proof.
  induction ms as [|m ms IH]; intros fs fs' H L.
  - inversion H; subst. exact L.
  - cbn [for_each] in H. apply bind_inv_ok in H as (fs1 & [] & H1 & H2).
    apply (IH fs1 fs' H2). eapply extract_member_keeps_entry; eauto.
Qed.

Lemma for_each_keeps_dir dest ms q : forall fs fs',
  for_each ms (Zip.extract_member dest) fs = (fs', Ok tt) ->
  isdir q fs = true -> isdir q fs' = true.
Proof.
  induction ms as [|m ms IH]; intros fs fs' H L.
  - inversion H; subst. exact L.
  - cbn [for_each] in H. apply bind_inv_ok in H as (fs1 & [] & H1 & H2).
    apply (IH fs1 fs' H2). eapply extract_member_keeps_dir; eauto.
Qed.

Lemma for_each_members_there dest ms : forall fs fs' m,
  for_each ms (Zip.extract_member dest) fs = (fs', Ok tt) -> In m ms ->
  lookup (Zip.place dest m) fs' <> None /\
  (names_dir m = true -> isdir (Zip.place dest m) fs' = true).
Proof.
  induction ms as [|m0 ms IH]; intros fs fs' m H Hm; [contradiction|].
  cbn [for_each] in H. apply bind_inv_ok in H as (fs1 & [] & H1 & H2).
  destruct Hm as [->|Hm]; [|eapply IH; eauto].
  apply extract_member_there in H1. destruct (names_dir m).
  - assert (D := for_each_keeps_dir dest ms _ fs1 fs' H2 H1).
    split; [|auto]. unfold isdir in D.
    destruct (lookup (Zip.place dest m) fs'); congruence.
  - split; [|discriminate]. apply (for_each_keeps_entry dest ms _ fs1 fs' H2).
    destruct H1 as (data & _ & H1). rewrite H1. discriminate.
Qed.

(** Every name of an archive that is unpacked is there afterwards, as a
    directory when the name says so. *)
Lemma extractall_members_there dest z fs fs' m :
  Zip.extractall dest z fs = (fs', Ok tt) -> In m z ->
  lookup (Zip.place dest m) fs' <> None /\
  (names_dir m = true -> isdir (Zip.place dest m) fs' = true).
Proof.
  rewrite extractall_entries. intros X Hm.
  assert (F := find_info_in z m Hm).
  destruct (Zip.find_info (filename m) z) as [e|] eqn:Fe; [|congruence].
  destruct (find_info_name _ _ _ Fe) as [En _].
  assert (P : Zip.place dest e = Zip.place dest m)
    by (unfold Zip.place; now rewrite En).
  assert (N : names_dir e = names_dir m) by (unfold names_dir; now rewrite En).
  rewrite <- P, <- N.
  apply (for_each_members_there dest (Zip.entries z) fs fs' e X).
  eapply find_info_entry; eauto.
Qed.

Lemma two_entries x y (es : list (string * node)) :
  x <> y -> assoc x es <> None -> assoc y es <> None ->
  Nat.eqb (List.length (map fst es)) 1 = false.
Proof.
  intros N Hx Hy. destruct es as [|[k v] [|e es]]; simpl in *; try congruence.
  destruct (String.eqb_spec x k), (String.eqb_spec y k); congruence.
Qed.

Lemma lookup_child d x fs es :
  lookup d fs = Some (Dir es) -> lookup (d ++ [x]) fs = assoc x es.
Proof.
  intros L. rewrite lookup_app, L. simpl. now destruct (assoc x es).
Qed.

Lemma extract_cleanup_unfold self a dst fs ms fs1 :
  lookup a fs = Some (File (ZipBytes ms)) ->
  Zip.extractall (os_path_join (basedir self) dst) ms fs = (fs1, Ok tt) ->
  extract self a dst true fs =
  match (remove_intermediary_dir (os_path_join (basedir self) dst) ;;;
         remove_empty_dirs (os_path_join (basedir self) dst)) fs1 with
  | (fs2, Ok _) => (fs2, Ok (os_path_join (basedir self) dst))
  | (fs2, Raise BadZipFile) =>
      (fs2, Raise (ExtractionError ("Cannot extract file: " ++ path_str a)%string))
  | (fs2, Raise e) => (fs2, Raise e)
  end.
Proof.
  intros L X. unfold extract, try_except, extract_body.
  unfold bind at 1. unfold Zip.ZipFile. rewrite L.
  unfold bind at 1. rewrite X.
  unfold bind at 1.
  destruct ((remove_intermediary_dir _ ;;; remove_empty_dirs _) fs1) as [fs2 [[]|e]].
  - reflexivity.
  - destruct e; reflexivity.
Qed.

(** What one top-down pass leaves of the tree [t] at the path [q]. *)
Lemma pruned_layout q t o :
  wfb t = true -> olookup q (prune_topdown t) = o ->
  match lookup q t with
  | Some (Dir []) => o = None
  | Some (Dir (_ :: _)) => exists es', o = Some (Dir es')
  | Some (File c) => o = Some (File c)
  | None => o = None
  end.
Proof.
  intros W <-. generalize (prune_topdown_lookup q t W).
  destruct (lookup q t) as [[c|[|e es]]|]; auto.
Qed.

(** X5.  An archive with entries under two different top-level names is not
    flattened: when unpacking alone succeeds, [extract] with cleanup
    succeeds as well and leaves the same layout below the directory of the
    course, short of the directories that one pass finds empty.  The
    top-level name of an entry is the first part of its name that counts
    (not empty, not [.] or [..]). *)
Theorem extract_keeps_wide_archive :
  forall self archive_filename destination fs fs1 d z m1 m2 x y r1 r2,
    wfb fs = true ->
    lookup archive_filename fs = Some (File (ZipBytes z)) ->
    no_dotdot destination = true ->
    apartb (os_path_join (basedir self) destination) archive_filename = true ->
    d <> [] ->
    In m1 z -> In m2 z ->
    Zip.arcname (filename m1) = x :: r1 -> Zip.arcname (filename m2) = y :: r2 ->
    x <> y ->
    extract self archive_filename destination false fs = (fs1, Ok d) ->
    exists fs2,
      extract self archive_filename destination true fs = (fs2, Ok d) /\
      forall q,
        match lookup (d ++ q) fs1 with
        | Some (Dir []) => lookup (d ++ q) fs2 = None
        | Some (Dir (_ :: _)) => isdir (d ++ q) fs2 = true
        | Some (File c) => lookup (d ++ q) fs2 = Some (File c)
        | None => lookup (d ++ q) fs2 = None
        end.
Proof.
  intros self a dst fs fs1 d ms m1 m2 x y r1 r2 W L _ _ Hd I1 I2 N1 N2 Nxy H.
  destruct (extract_plain_inv _ _ _ _ _ _ _ L H) as [-> X].
  set (d := os_path_join (basedir self) dst) in *.
  assert (W1 : wfb fs1 = true).
  { generalize (keeps_wf_extractall d ms fs W). now rewrite X. }
  destruct (extractall_members_there d ms fs fs1 m1 X I1) as [T1 _].
  destruct (extractall_members_there d ms fs fs1 m2 X I2) as [T2 _].
  unfold Zip.place, join in T1, T2. rewrite N1 in T1. rewrite N2 in T2.
  change (x :: r1) with ([x] ++ r1) in T1. change (y :: r2) with ([y] ++ r2) in T2.
  rewrite app_assoc in T1, T2. apply lookup_prefix in T1, T2.
  assert (D : isdir d fs1 = true) by (apply (isdir_prefix d [x]); [exact T1|discriminate]).
  unfold isdir in D. destruct (lookup d fs1) as [[c|es]|] eqn:Ld; try discriminate.
  rewrite (lookup_child _ x _ _ Ld) in T1. rewrite (lookup_child _ y _ _ Ld) in T2.
  rewrite (extract_cleanup_unfold _ _ _ _ _ _ L X). fold d.
  assert (F : remove_intermediary_dir d fs1 = (fs1, Ok tt)).
  { unfold remove_intermediary_dir, bind, listdir. rewrite Ld.
    now rewrite (two_entries x y es Nxy T1 T2). }
  rewrite (bind_ok _ _ _ _ _ F).
  assert (Wt : wfb (Dir es) = true) by (eapply wfb_lookup; eauto).
  rewrite (remove_empty_dirs_prune d (Dir es) fs1 Hd Wt Ld).
  eexists; split; [reflexivity|]. intros q. unfold isdir.
  rewrite !lookup_app, Ld, (lookup_put_present d fs1 _ _ Hd Ld).
  generalize (pruned_layout q (Dir es) _ Wt eq_refl).
  destruct (lookup q (Dir es)) as [[c|[|e' es']]|]; auto.
  intros [es'' E]. unfold olookup in E.
  destruct (prune_topdown (Dir es)); [|discriminate]. simpl in E. now rewrite E.
Qed.

Lemma extract_keeps_wide_archive_witness :
  exists fs2,
    extract extractor0 archive0 "S" true (disk zip_chain_and_file)
    = (fs2, Ok ["w"; "extracted"; "S"]) /\
    lookup ["w"; "extracted"; "S"; "f"] fs2 = Some (File (Bytes "1")) /\
    isdir ["w"; "extracted"; "S"; "a"] fs2 = true /\
    lookup ["w"; "extracted"; "S"; "a"; "b"] fs2 = None.
Proof.
  destruct (extract_keeps_wide_archive extractor0 archive0 "S"
              (disk zip_chain_and_file)
              (fst (extract extractor0 archive0 "S" false (disk zip_chain_and_file)))
              ["w"; "extracted"; "S"]
              [MDir "a/b"; MFile "f" (ReadOk "1")]
              (MDir "a/b") (MFile "f" (ReadOk "1")) "a" "f" ["b"] []
              eq_refl eq_refl eq_refl eq_refl ltac:(discriminate)
              (or_introl eq_refl) (or_intror (or_introl eq_refl))
              eq_refl eq_refl ltac:(discriminate) eq_refl) as (fs2 & E & P).
  exists fs2. split; [exact E|]. split; [|split].
  - exact (P ["f"]).
  - exact (P ["a"]).
  - exact (P ["a"; "b"]).
Defined.

(** ** A wrapped archive, from unpacking to pruning *)

Lemma single_entry (x : string) (t : node) es :
  nodupb (map fst es) = true ->
  assoc x es = Some t -> (forall y, y <> x -> assoc y es = None) ->
  es = [(x, t)].
Proof.
  intros ND Hx Hy. destruct es as [|[k v] rest]; [discriminate|].
  destruct (String.eqb_spec k x) as [->|N].
  - simpl in Hx. rewrite String.eqb_refl in Hx. inversion Hx; subst.
    destruct rest as [|[k' v'] rest']; [reflexivity|].
    simpl in ND. apply andb_true_iff in ND as [ND _].
    apply negb_true_iff, orb_false_iff in ND as [ND _].
    apply String.eqb_neq in ND.
    specialize (Hy k' ltac:(congruence)). simpl in Hy.
    destruct (String.eqb_spec k' x); [congruence|].
    rewrite String.eqb_refl in Hy. discriminate.
  - specialize (Hy k N). simpl in Hy. rewrite String.eqb_refl in Hy. discriminate.
Qed.

Lemma assoc_in_names {A} x (es : list (string * A)) :
  In x (map fst es) -> assoc x es <> None.
Proof.
  induction es as [|[k v] r IH]; simpl; [contradiction|].
  destruct (String.eqb_spec x k); [discriminate|].
  intros [E|H]; [congruence|auto].
Qed.

Lemma mem_false_iff x l : mem x l = false <-> ~ In x l.
Proof.
  induction l as [|y l IH]; simpl; [tauto|].
  rewrite orb_false_iff, IH.
  destruct (String.eqb_spec x y); split; intros; try tauto; try (intuition congruence).
Qed.

(** The loop and the [os.rmdir] of [remove_intermediary_dir] on a wrapper
    whose entries have distinct names, none hidden and none the name of the
    wrapper. *)
Lemma flatten_wrapper d x es fs :
  d <> [] ->
  lookup d fs = Some (Dir [(x, Dir es)]) ->
  nodupb (map fst es) = true ->
  forallb (fun n => negb (hidden n)) (map fst es) = true ->
  mem x (map fst es) = false ->
  remove_intermediary_dir d fs = (put d (Some (Dir es)) fs, Ok tt).
Proof.
  intros Hd L ND NH Nx.
  rewrite (remove_intermediary_dir_one_entry _ _ _ _ L).
  assert (Lx : lookup (join d [x]) fs = Some (Dir es)).
  { unfold join. rewrite (lookup_child _ _ _ _ L). simpl. now rewrite String.eqb_refl. }
  unfold bind at 1. unfold glob_star. rewrite Lx, (filter_all _ _ NH).
  rewrite (hoist_loop d x Hd es [] fs L ND Nx). cbn [app].
  assert (L1 : lookup d (put d (Some (Dir ((x, Dir []) :: es))) fs)
               = Some (Dir ((x, Dir []) :: es)))
    by (eapply lookup_put_present; eauto).
  unfold rmdir, join. rewrite (lookup_child _ _ _ _ L1). simpl assoc.
  rewrite String.eqb_refl.
  destruct (d ++ [x]) as [|a b] eqn:E; [destruct d; discriminate|].
  rewrite <- E. rewrite (put_child d x None _ _ Hd L1), put_put.
  simpl assoc_del. rewrite String.eqb_refl, (assoc_del_absent _ _ Nx).
  reflexivity.
Qed.

Section Wrapped.
Variables (dest : path) (D : string) (z : list member) (fs fs1 : node).
Hypothesis fresh : lookup dest fs = None.
Hypothesis under_D : forall m, In m z -> exists r, Zip.arcname (filename m) = D :: r.
Hypothesis unpacked : Zip.extractall dest z fs = (fs1, Ok tt).

(** Unpacking makes no entry that no name of the archive leads to. *)
Lemma no_other_top y : y <> D -> lookup (dest ++ [y]) fs1 = None.
Proof.
  intros N.
  generalize (extractall_frame dest z (dest ++ [y]) fs). rewrite unpacked.
  cbn [fst]. intros ->.
  - now apply lookup_below_none.
  - intros m Hm. destruct (under_D m Hm) as [r Hr].
    unfold Zip.place, join. rewrite Hr, prefixb_app_same. simpl.
    destruct (String.eqb_spec y D); [contradiction|reflexivity].
Qed.

Lemma below_D_named x :
  lookup (dest ++ [D; x]) fs1 <> None ->
  exists m r, In m z /\ Zip.arcname (filename m) = D :: x :: r.
Proof.
  intros H.
  destruct (existsb (fun m => prefixb [D; x] (Zip.arcname (filename m))) z) eqn:X.
  - apply existsb_exists in X as (m & Hm & P).
    apply prefixb_true in P as [r P]. exists m, r. auto.
  - exfalso. apply H.
    generalize (extractall_frame dest z (dest ++ [D; x]) fs). rewrite unpacked.
    cbn [fst]. intros ->.
    + now apply lookup_below_none.
    + intros m Hm. unfold Zip.place, join. rewrite prefixb_app_same.
      destruct (prefixb [D; x] (Zip.arcname (filename m))) eqn:P; [|reflexivity].
      assert (existsb (fun m => prefixb [D; x] (Zip.arcname (filename m))) z = true);
        [|congruence].
      apply existsb_exists. eauto.
Qed.

End Wrapped.

Lemma wrapper_is_dir dest D z fs fs1 :
  z <> [] ->
  (forall m, In m z -> exists r, Zip.arcname (filename m) = D :: r) ->
  (forall m, In m z -> Zip.arcname (filename m) = [D] -> names_dir m = true) ->
  Zip.extractall dest z fs = (fs1, Ok tt) ->
  isdir (dest ++ [D]) fs1 = true.
Proof.
  intros Hne HD Hf X. destruct z as [|m0 z']; [congruence|].
  assert (I0 : In m0 (m0 :: z')) by now left.
  destruct (HD m0 I0) as [r Hr].
  destruct (extractall_members_there _ _ _ _ _ X I0) as [T1 T2].
  unfold Zip.place, join in T1, T2. rewrite Hr in T1, T2.
  destruct r as [|x r].
  - apply T2. now apply Hf.
  - apply (isdir_prefix _ (x :: r)); [|discriminate]. now rewrite <- app_assoc.
Qed.

(** X6.  An archive whose entries all lie under one top-level directory [D],
    unpacked into a new directory: when unpacking alone succeeds,
    [extract] with cleanup succeeds as well, the wrapper [D] is gone, and
    what unpacking put at [D/q] is at [q] (short of the directories that
    one pass finds empty), as long as no entry of [D] is hidden or named
    [D] itself and the path of [D] holds no pattern character of
    [glob]. *)
Theorem extract_flattens_wrapped_archive :
  forall self archive_filename destination fs fs1 d z D,
    wfb fs = true ->
    lookup archive_filename fs = Some (File (ZipBytes z)) ->
    no_dotdot destination = true ->
    apartb (os_path_join (basedir self) destination) archive_filename = true ->
    d <> [] -> lookup d fs = None ->
    literal (d ++ [D]) = true ->
    z <> [] ->
    (forall m, In m z -> exists r, Zip.arcname (filename m) = D :: r) ->
    (forall m, In m z -> Zip.arcname (filename m) = [D] -> names_dir m = true) ->
    (forall m x r, In m z -> Zip.arcname (filename m) = D :: x :: r ->
                   hidden x = false /\ x <> D) ->
    extract self archive_filename destination false fs = (fs1, Ok d) ->
    exists fs2,
      extract self archive_filename destination true fs = (fs2, Ok d) /\
      lookup (d ++ [D]) fs2 = None /\
      forall q,
        match lookup (d ++ D :: q) fs1 with
        | Some (Dir []) => lookup (d ++ q) fs2 = None
        | Some (Dir (_ :: _)) => isdir (d ++ q) fs2 = true
        | Some (File c) => lookup (d ++ q) fs2 = Some (File c)
        | None => lookup (d ++ q) fs2 = None
        end.
Proof.
  intros self a dst fs fs1 d ms D W L _ _ Hd Hfresh _ Hne HD Hf Hz H.
  destruct (extract_plain_inv _ _ _ _ _ _ _ L H) as [-> X].
  set (d := os_path_join (basedir self) dst) in *.
  assert (W1 : wfb fs1 = true).
  { generalize (keeps_wf_extractall d ms fs W). now rewrite X. }
  (* the directory of the course holds the wrapper and nothing else *)
  assert (TD := wrapper_is_dir d D ms fs fs1 Hne HD Hf X).
  assert (Dd : isdir d fs1 = true) by (eapply isdir_prefix_of_dir; eauto).
  unfold isdir in Dd. destruct (lookup d fs1) as [[c|es0]|] eqn:Ld; try discriminate.
  clear Dd. unfold isdir in TD. rewrite (lookup_child _ D _ _ Ld) in TD.
  destruct (assoc D es0) as [[c|es]|] eqn:AD; try discriminate. clear TD.
  assert (W0 : wfb (Dir es0) = true) by (eapply wfb_lookup; eauto).
  assert (E0 : es0 = [(D, Dir es)]).
  { apply single_entry; auto.
    - rewrite wfb_dir in W0. now apply andb_true_iff in W0 as [W0 _].
    - intros y Ny. rewrite <- (lookup_child _ y _ _ Ld).
      now apply (no_other_top d D ms fs fs1). }
  subst es0.
  (* the entries of the wrapper are named by entries of the archive *)
  assert (We : wfb (Dir es) = true) by (eapply wfb_assoc; eauto).
  assert (LD : lookup (d ++ [D]) fs1 = Some (Dir es)).
  { rewrite (lookup_child _ D _ _ Ld). exact AD. }
  assert (Names : forall x, In x (map fst es) -> hidden x = false /\ x <> D).
  { intros x Ix. apply assoc_in_names in Ix.
    rewrite <- (lookup_child _ x _ _ LD), <- app_assoc in Ix.
    destruct (below_D_named d D ms fs fs1 Hfresh X x Ix) as (m & r & Im & Nm).
    eapply Hz; eauto. }
  assert (F : remove_intermediary_dir d fs1 = (put d (Some (Dir es)) fs1, Ok tt)).
  { apply (flatten_wrapper d D es fs1 Hd Ld).
    - rewrite wfb_dir in We. now apply andb_true_iff in We as [We _].
    - apply forallb_forall. intros x Ix. destruct (Names x Ix) as [-> _]. reflexivity.
    - apply mem_false_iff. intros I. destruct (Names D I) as [_ N]. congruence. }
  rewrite (extract_cleanup_unfold _ _ _ _ _ _ L X). fold d.
  rewrite (bind_ok _ _ _ _ _ F).
  assert (L2 : lookup d (put d (Some (Dir es)) fs1) = Some (Dir es))
    by (eapply lookup_put_present; eauto).
  rewrite (remove_empty_dirs_prune d (Dir es) _ Hd We L2), put_put.
  eexists; split; [reflexivity|].
  assert (Q : forall q, lookup (d ++ q) (put d (prune_topdown (Dir es)) fs1)
                        = olookup q (prune_topdown (Dir es))).
  { intros q. rewrite lookup_app, (lookup_put_present d fs1 _ _ Hd Ld). reflexivity. }
  split.
  - rewrite Q. generalize (pruned_layout [D] (Dir es) _ We eq_refl).
    rewrite lookup_cons.
    assert (A : assoc D es = None).
    { apply assoc_not_mem, mem_false_iff. intros I.
      destruct (Names D I) as [_ N]. congruence. }
    now rewrite A.
  - intros q. unfold isdir. rewrite Q.
    change (d ++ D :: q) with (d ++ [D] ++ q). rewrite app_assoc, lookup_app, LD.
    generalize (pruned_layout q (Dir es) _ We eq_refl).
    destruct (lookup q (Dir es)) as [[c|[|e' es']]|]; auto.
    intros [es'' ->]. reflexivity.
Qed.

Lemma extract_flattens_wrapped_archive_witness :
  exists fs2,
    extract extractor0 archive0 "S" true (disk zip_wrapped)
    = (fs2, Ok ["w"; "extracted"; "S"]) /\
    lookup ["w"; "extracted"; "S"; "D"] fs2 = None /\
    lookup ["w"; "extracted"; "S"; "a"] fs2 = Some (File (Bytes "1")) /\
    lookup ["w"; "extracted"; "S"; "b"] fs2 = Some (File (Bytes "2")).
Proof.
  destruct (extract_flattens_wrapped_archive extractor0 archive0 "S"
              (disk zip_wrapped)
              (fst (extract extractor0 archive0 "S" false (disk zip_wrapped)))
              ["w"; "extracted"; "S"]
              [MFile "D/a" (ReadOk "1"); MFile "D/b" (ReadOk "2")] "D"
              eq_refl eq_refl eq_refl eq_refl ltac:(discriminate) eq_refl eq_refl
              ltac:(discriminate)) as (fs2 & E & P0 & P).
  - intros m [<-|[<-|[]]]; vm_compute; eauto.
  - intros m [<-|[<-|[]]]; vm_compute; discriminate.
  - intros m x r [<-|[<-|[]]] H; vm_compute in H; inversion H; subst; split;
      solve [reflexivity | discriminate].
  - reflexivity.
  - exists fs2. split; [exact E|]. split; [exact P0|]. split.
    + exact (P ["a"]).
    + exact (P ["b"]).
Defined.
(** ** An archive without members *)

(** X7.  An archive that lists no member, unpacked into a directory that is not
    there yet: nothing is created, so without cleanup [extract] returns
    the path of a directory that does not exist, and with cleanup the
    [os.listdir] of the flattening step raises FileNotFoundError, which
    [extract] lets through.  The disk is as before in both cases. *)
Theorem extract_empty_archive :
  forall self archive_filename destination fs,
    lookup archive_filename fs = Some (File (ZipBytes [])) ->
    no_dotdot destination = true ->
    lookup (os_path_join (basedir self) destination) fs = None ->
    extract self archive_filename destination false fs
    = (fs, Ok (os_path_join (basedir self) destination)) /\
    extract self archive_filename destination true fs
    = (fs, Raise FileNotFoundError).
Proof.
  intros self a dst fs L _ N.
  unfold extract, try_except, extract_body, bind, Zip.ZipFile. rewrite L.
  cbn [Zip.extractall Zip.namelist map for_each ret]. split; [reflexivity|].
  unfold remove_intermediary_dir, bind, listdir. now rewrite N.
Qed.

Lemma extract_empty_archive_witness :
  extract extractor0 archive0 "S" false (disk (ZipBytes []))
  = (disk (ZipBytes []), Ok ["w"; "extracted"; "S"]) /\
  extract extractor0 archive0 "S" true (disk (ZipBytes []))
  = (disk (ZipBytes []), Raise FileNotFoundError).
Proof.
  exact (extract_empty_archive extractor0 archive0 "S" (disk (ZipBytes []))
           eq_refl eq_refl eq_refl).
Defined.
(** ** Making the workspace *)

Lemma mkdtemp_from_ok dir prefix names : forall fs fs' p,
  StudipSync.mkdtemp_from dir prefix names fs = (fs', Ok p) ->
  (exists n, In n names /\ p = dir ++ [(prefix ++ n)%string]) /\
  lookup p fs = None /\ fs' = put p (Some (Dir [])) fs /\
  lookup p fs' = Some (Dir []).
Proof.
  induction names as [|n r IH]; intros fs fs' p; cbn [StudipSync.mkdtemp_from].
  - discriminate.
  - unfold try_except, bind.
    destruct (mkdir _ fs) as [fs1 [[]|e]] eqn:Hm.
    + intros H. inversion H; subst. clear H.
      apply mkdir_ok in Hm as (L & Hp & ->). unfold join in *.
      split; [exists n; split; [now left|reflexivity]|].
      split; [exact L|]. split; [reflexivity|].
      apply lookup_put_eq; auto. destruct dir; discriminate.
    + assert (fs1 = fs).
      { revert Hm. unfold mkdir. destruct (lookup _ fs);
          [|destruct (lookup _ fs) as [[|]|]]; intros H; now inversion H. }
      subst fs1. destruct e; try discriminate.
      intros H. destruct (IH _ _ _ H) as ([n' [I ->]] & R).
      split; [exists n'; split; [now right|reflexivity]|exact R].
Qed.

Lemma makedirs_ok b p fs fs' :
  makedirs b p fs = (fs', Ok tt) ->
  isdir p fs' = true /\
  (forall q, isdir q fs = true -> isdir q fs' = true) /\
  (forall q, prefixb q p = false -> lookup q fs' = lookup q fs).
Proof.
  unfold makedirs. destruct (negb b && exists_ p fs); [discriminate|].
  destruct (mkdir_p p fs) as [f|e] eqn:Hm; [|discriminate].
  intros H. inversion H; subst. split; [|split].
  - eapply mkdir_p_isdir; eauto.
  - intros q. eapply mkdir_p_keeps_dir; eauto.
  - intros q. eapply mkdir_p_frame; eauto.
Qed.

Lemma makedirs_raise b p fs fs' e : makedirs b p fs = (fs', Raise e) -> fs' = fs.
Proof.
  unfold makedirs. destruct (negb b && exists_ p fs); [intros H; now inversion H|].
  destruct (mkdir_p p fs); intros H; now inversion H.
Qed.

Lemma on_fs_inv {A} (m : M node A) w w' r :
  on_fs m w = (w', r) -> exists f, m (fs w) = (f, r) /\ w' = set_fs f w.
Proof.
  unfold on_fs, zoom. destruct (m (fs w)) as [f r']. intros H. inversion H. eauto.
Qed.

Lemma prefixb_child_apart p x q :
  apartb p q = true -> prefixb (p ++ [x]) q = false.
Proof.
  revert q. induction p as [|y p IH]; intros [|z q]; simpl; try discriminate.
  destruct (String.eqb_spec y z); simpl; auto.
Qed.

Lemma prefixb_siblings p x y : x <> y -> prefixb (p ++ [x]) (p ++ [y]) = false.
Proof.
  intros N. rewrite prefixb_app_same. simpl.
  destruct (String.eqb_spec x y); [contradiction|reflexivity].
Qed.

(** X8.  [StudipSync.__init__], when it returns: the workspace is a directory
    that was not there before, under the temporary directory and named
    with the prefix [studip-sync]; [zips] and [extracted] are directories
    in it and the destination is a directory; nothing has changed at the
    paths apart from the workspace and from the destination.  When the
    destination lies apart from the workspace, [zips] and [extracted] are
    empty. *)
Theorem init_makes_workspace :
  forall E C w w1 s,
    StudipSync.init E C w = (w1, Ok s) ->
    (exists n, In n (tmp_names E) /\
               StudipSync.workdir s = tempdir E ++ [("studip-sync" ++ n)%string]) /\
    lookup (StudipSync.workdir s) (fs w) = None /\
    StudipSync.download_dir s = StudipSync.workdir s ++ ["zips"] /\
    StudipSync.extract_dir s = StudipSync.workdir s ++ ["extracted"] /\
    StudipSync.destination_dir s = target C /\
    isdir (StudipSync.download_dir s) (fs w1) = true /\
    isdir (StudipSync.extract_dir s) (fs w1) = true /\
    isdir (StudipSync.destination_dir s) (fs w1) = true /\
    (forall q, apartb (StudipSync.workdir s) q = true ->
               apartb (target C) q = true ->
               lookup q (fs w1) = lookup q (fs w)) /\
    (apartb (StudipSync.workdir s) (target C) = true ->
     lookup (StudipSync.download_dir s) (fs w1) = Some (Dir []) /\
     lookup (StudipSync.extract_dir s) (fs w1) = Some (Dir [])).
Proof.
  unfold StudipSync.init. intros E C w w1 s H.
  apply bind_inv_ok in H as (wa & p & Hm & H).
  apply on_fs_inv in Hm as (fa & Hm & ->).
  apply mkdtemp_from_ok in Hm as ([n [In_n Hp]] & Lp & Efa & Lpa).
  apply bind_inv_ok in H as (wb & [] & Hb & H).
  apply on_fs_inv in Hb as (fb & Hb & ->). cbn [fs set_fs] in Hb.
  apply bind_inv_ok in H as (wc & [] & Hc & H).
  apply on_fs_inv in Hc as (fc & Hc & ->). cbn [fs set_fs] in Hc.
  apply bind_inv_ok in H as (wd & [] & Hd & H).
  apply on_fs_inv in Hd as (fd & Hd & ->). cbn [fs set_fs] in Hd.
  inversion H; subst w1 s; clear H.
  cbn [StudipSync.workdir StudipSync.download_dir StudipSync.extract_dir
       StudipSync.destination_dir fs set_fs]. unfold join in *.
  apply makedirs_ok in Hb as (Db & Kb & Fb).
  apply makedirs_ok in Hc as (Dc & Kc & Fc).
  apply makedirs_ok in Hd as (Dd & Kd & Fd).
  split; [exists n; auto|]. split; [exact Lp|].
  do 3 (split; [reflexivity|]).
  split; [auto|]. split; [auto|]. split; [auto|]. split.
  - intros q Q1 Q2.
    rewrite Fd by now apply apartb_not_prefix.
    rewrite Fc by now apply apartb_not_prefix, apartb_app.
    rewrite Fb by now apply apartb_not_prefix, apartb_app.
    rewrite Efa. now apply lookup_put_apart.
  - intros Q.
    assert (Z : forall x, lookup (p ++ [x]) fa = None).
    { intros x. now rewrite (lookup_child _ _ _ _ Lpa). }
    assert (Lb : lookup (p ++ ["zips"]) fb = Some (Dir [])).
    { unfold isdir in Db. destruct (lookup (p ++ ["zips"]) fb) as [[c|es]|] eqn:L;
        try discriminate.
      destruct es as [|[k v] es]; [reflexivity|].
      assert (X : lookup ((p ++ ["zips"]) ++ [k]) fb <> None).
      { rewrite (lookup_child _ _ _ _ L). simpl. now rewrite String.eqb_refl. }
      rewrite Fb in X.
      - rewrite <- app_assoc, lookup_app, Lpa in X. now simpl in X.
      - rewrite <- (app_nil_r (p ++ ["zips"])) at 2.
        rewrite prefixb_app_same. reflexivity. }
    assert (Lc : lookup (p ++ ["extracted"]) fc = Some (Dir [])).
    { unfold isdir in Dc.
      destruct (lookup (p ++ ["extracted"]) fc) as [[c|es]|] eqn:L; try discriminate.
      destruct es as [|[k v] es]; [reflexivity|].
      assert (X : lookup ((p ++ ["extracted"]) ++ [k]) fc <> None).
      { rewrite (lookup_child _ _ _ _ L). simpl. now rewrite String.eqb_refl. }
      rewrite Fc in X.
      - rewrite Fb in X.
        + rewrite <- app_assoc, lookup_app, Lpa in X. now simpl in X.
        + rewrite <- app_assoc. rewrite prefixb_app_same. reflexivity.
      - rewrite <- (app_nil_r (p ++ ["extracted"])) at 2.
        rewrite prefixb_app_same. reflexivity. }
    split.
    + rewrite Fd by now apply prefixb_child_apart.
      rewrite Fc by (apply prefixb_siblings; discriminate). exact Lb.
    + rewrite Fd by now apply prefixb_child_apart. exact Lc.
Qed.

Lemma init_makes_workspace_witness :
  lookup (StudipSync.workdir sync0) (fs w0) = None /\
  isdir (StudipSync.download_dir sync0) (fs w_boot) = true /\
  lookup (StudipSync.extract_dir sync0) (fs w_boot) = Some (Dir []).
Proof.
  destruct (init_makes_workspace (portal true None None) (cfg []) w0 w_boot sync0
              eq_refl) as (_ & F & _ & _ & _ & D & _ & _ & _ & P).
  split; [exact F|]. split; [exact D|]. exact (proj2 (P eq_refl)).
Defined.

(** X9.  When [StudipSync.__init__] fails after [mkdtemp] has made the scratch
    directory (the destination cannot be made, say), the scratch directory
    is still there when the exception leaves: nothing in [__init__]
    removes it. *)
Theorem init_failure_leaves_workdir :
  forall E C w w1 e f p,
    StudipSync.mkdtemp E "studip-sync" (fs w) = (f, Ok p) ->
    StudipSync.init E C w = (w1, Raise e) ->
    isdir p (fs w1) = true.
Proof.
  unfold StudipSync.init. intros E C w w1 e f p Hm H.
  unfold bind at 1 in H. unfold on_fs at 1, zoom in H. rewrite Hm in H.
  apply mkdtemp_from_ok in Hm as (_ & _ & _ & Lp).
  assert (D0 : isdir p (fs (set_fs f w)) = true) by (unfold isdir; cbn; now rewrite Lp).
  revert H D0. generalize (set_fs f w). clear Lp. intros wa H Da.
  unfold bind at 1 in H.
  destruct (on_fs (makedirs false _) wa) as [wb [[]|eb]] eqn:Hb.
  2:{ inversion H; subst. apply on_fs_inv in Hb as (fb & Hb & ->).
      apply makedirs_raise in Hb. now subst fb. }
  apply on_fs_inv in Hb as (fb & Hb & ->). apply makedirs_ok in Hb as (_ & Kb & _).
  apply Kb in Da.
  unfold bind at 1 in H.
  destruct (on_fs (makedirs false _) _) as [wc [[]|ec]] eqn:Hc.
  2:{ inversion H; subst. apply on_fs_inv in Hc as (fc & Hc & ->).
      apply makedirs_raise in Hc. now subst fc. }
  apply on_fs_inv in Hc as (fc & Hc & ->). apply makedirs_ok in Hc as (_ & Kc & _).
  apply Kc in Da.
  unfold bind at 1 in H.
  destruct (on_fs (makedirs true _) _) as [wd [[]|ed]] eqn:Hd.
  2:{ inversion H; subst. apply on_fs_inv in Hd as (fd & Hd & ->).
      apply makedirs_raise in Hd. now subst fd. }
  discriminate.
Qed.

Lemma init_failure_leaves_workdir_witness :
  snd (StudipSync.init (portal true None None) (cfg []) Cases.w_blocked)
  = Raise FileExistsError /\
  isdir ["tmp"; "studip-synck3x9"]
    (fs (fst (StudipSync.init (portal true None None) (cfg []) Cases.w_blocked)))
  = true.
Proof.
  split; [reflexivity|].
  exact (init_failure_leaves_workdir (portal true None None) (cfg []) Cases.w_blocked
           _ FileExistsError _ ["tmp"; "studip-synck3x9"] eq_refl eq_refl).
Defined.
(** ** The browser, from start to close *)

Lemma browses_refl w : browses w w.
Proof. exists []. now rewrite app_nil_r. Qed.

Lemma browses_trans a b c : browses a b -> browses b c -> browses a c.
Proof.
  intros (c1 & E1 & F1) (c2 & E2 & F2). exists (c1 ++ c2).
  rewrite E2, E1, app_assoc, forallb_app, F1, F2. auto.
Qed.

Lemma browses_same w w' : driver_log w' = driver_log w -> browses w w'.
Proof. intros E. exists []. now rewrite app_nil_r. Qed.

Lemma browses_print line : steps browses (print line).
Proof. intros w. now apply browses_same. Qed.

Lemma browses_send_request r : steps browses (send_request r).
Proof. intros w. now apply browses_same. Qed.

Lemma browses_record_outcome n o : steps browses (record_outcome n o).
Proof. intros w. now apply browses_same. Qed.

Lemma browses_on_fs {A} (m : M node A) : steps browses (on_fs m).
Proof.
  intros w. apply browses_same. unfold on_fs, zoom.
  now destruct (m (fs w)) as [f r].
Qed.

Lemma browses_drive c : page_cmd c = true -> steps browses (drive c).
Proof. intros H w. exists [c]. simpl. now rewrite H. Qed.

Ltac browses_step :=
  first
    [ apply browses_print | apply browses_send_request | apply browses_record_outcome
    | apply browses_on_fs
    | apply browses_drive; reflexivity
    | apply (steps_ret browses browses_refl)
    | apply (steps_raise browses browses_refl)
    | apply (steps_bind browses browses_trans); [|intros ?]
    | apply (steps_try_except browses browses_trans); [|intros ? ? ?]
    | match goal with
      | H : Some _ = Some _ |- _ => inversion H; subst; clear H
      | |- steps _ (if ?b then _ else _) => destruct b
      | |- steps _ (match ?x with _ => _ end) => destruct x
      end ].

Lemma browses_download E dl cid so : steps browses (Downloader.download E dl cid so).
Proof. unfold Downloader.download. repeat browses_step. Qed.

Lemma browses_sync_course E ex dl c : steps browses (StudipSync.sync_course E ex dl c).
Proof.
  unfold StudipSync.sync_course.
  apply (steps_bind _ browses_trans); [apply browses_print|intros _].
  apply (steps_try_except _ browses_trans).
  - apply (steps_bind _ browses_trans); [apply browses_download|intros z].
    apply (steps_bind _ browses_trans); [apply browses_on_fs|intros _].
    apply browses_record_outcome.
  - intros e handler H.
    destruct e; try discriminate; inversion H; subst; repeat browses_step.
Qed.

Lemma Downloader_init_result E d u p w :
  firefox_starts E = true ->
  login_has_id E "username" = true ->
  login_has_id E "password" = true ->
  wait_presence E 7 "footer" = true ->
  Downloader.init E d u p w =
  ({| fs := fs w; stdout := stdout w;
      driver_log := driver_log w ++ ImplicitlyWait 10 :: Downloader.login_attempt u p;
      requests := requests w; spawned := spawned w; outcomes := outcomes w |},
   Ok {| Downloader.workdir := d |}).
Proof.
  intros Hf Hu Hp Hw. unfold Downloader.init. rewrite Hf.
  unfold bind at 1. cbn [ret]. unfold bind at 1. cbn [drive].
  unfold bind at 1. rewrite login_result by assumption. rewrite Hw.
  cbn [fs stdout driver_log requests spawned outcomes ret].
  now rewrite <- app_assoc.
Qed.

(** X10.  Once the login has succeeded, [sync] tells the browser nothing
    but page commands for the courses (looking up elements aside) and then
    closes it, exactly once and as the last command: also when a course
    raises an exception that ends the run, and before the merge when it
    does not.  The browser is never quit. *)
Theorem browser_closed_once_after_login :
  forall E C s w,
    firefox_starts E = true ->
    login_has_id E "username" = true ->
    login_has_id E "password" = true ->
    wait_presence E 7 "footer" = true ->
    exists cmds,
      driver_log (fst (StudipSync.sync E C s w))
      = driver_log w ++ ImplicitlyWait 10
          :: Downloader.login_attempt (username C) (password C) ++ cmds ++ [Close] /\
      forallb page_cmd cmds = true.
Proof.
  intros E C s w Hf Hu Hp Hw.
  unfold StudipSync.sync. cbv zeta.
  unfold bind at 1. cbn [print].
  set (wp := {| fs := fs w; stdout := stdout w ++ ["Logging in..."];
                driver_log := driver_log w; requests := requests w;
                spawned := spawned w; outcomes := outcomes w |}).
  unfold bind at 1. unfold with_ at 1. unfold bind at 1.
  rewrite (Downloader_init_result E _ _ _ wp Hf Hu Hp Hw).
  set (wi := {| fs := fs wp; stdout := stdout wp;
                driver_log := driver_log wp ++ _; requests := requests wp;
                spawned := spawned wp; outcomes := outcomes wp |}).
  set (dl := {| Downloader.workdir := StudipSync.download_dir s |}).
  set (ex := {| Extractor.basedir := StudipSync.extract_dir s |}).
  assert (B : browses wi (fst (for_each (courses C) (StudipSync.sync_course E ex dl) wi))).
  { apply (steps_for_each _ browses_refl browses_trans). intros c.
    apply browses_sync_course. }
  destruct (for_each (courses C) (StudipSync.sync_course E ex dl) wi) as [wl [[]|e]].
  - destruct B as (cmds & El & Fl). cbn [fst] in El. exists cmds. split; [|exact Fl].
    unfold Downloader.exit. unfold bind at 1. cbn [drive ret].
    unfold bind at 1. cbn [print]. unfold RsyncWrapper.sync, bind, subprocess_call.
    cbn [fs stdout driver_log requests spawned outcomes].
    destruct (spawn E _ _) as [[f st]|]; cbn [fst driver_log];
      rewrite El; unfold wi, wp; cbn [driver_log];
      now rewrite <- !app_assoc, <- !app_comm_cons.
  - destruct B as (cmds & El & Fl). cbn [fst] in El. exists cmds. split; [|exact Fl].
    unfold Downloader.exit. unfold bind at 1. cbn [drive raise].
    cbn [fst driver_log]. rewrite El. unfold wi, wp. cbn [driver_log].
    now rewrite <- !app_assoc, <- !app_comm_cons.
Qed.

Lemma browser_closed_once_after_login_witness :
  snd (StudipSync.sync (portal true refused None) (cfg [course1; course2]) sync0 w_boot)
  = Raise ConnectionError /\
  exists cmds,
    driver_log (fst (StudipSync.sync (portal true refused None)
                       (cfg [course1; course2]) sync0 w_boot))
    = [] ++ ImplicitlyWait 10 :: Downloader.login_attempt "u" "p" ++ cmds ++ [Close] /\
    forallb page_cmd cmds = true.
Proof.
  split; [vm_compute; reflexivity|].
  exact (browser_closed_once_after_login (portal true refused None)
           (cfg [course1; course2]) sync0 w_boot eq_refl eq_refl eq_refl eq_refl).
Defined.

(** X11.  A login page without the field [username] or without the field
    [password]: the lookup of the field is outside the [try] of [_login],
    so NoSuchElementException leaves [Downloader.__init__] and ends
    [sync].  "Login failed!" is not printed, and the browser that was
    started is neither quit nor closed, since the [with] block was never
    entered.  No request is sent, no process started, and the disk is as
    before. *)
Theorem missing_login_field_leaves_browser :
  forall E C s w,
    firefox_starts E = true ->
    login_has_id E "username" && login_has_id E "password" = false ->
    let run := StudipSync.sync E C s w in
    snd run = Raise NoSuchElementException /\
    stdout (fst run) = stdout w ++ ["Logging in..."] /\
    driver_log (fst run)
    = driver_log w ++ ImplicitlyWait 10 :: Get Downloader.login_url
        :: (if login_has_id E "username"
            then [Clear "username"; SendKeys "username" (username C)]
            else []) /\
    existsb ends_browser (driver_log (fst run)) = existsb ends_browser (driver_log w) /\
    requests (fst run) = requests w /\
    spawned (fst run) = spawned w /\
    outcomes (fst run) = outcomes w /\
    fs (fst run) = fs w.
Proof.
  intros E C s w Hf Hm run.
  assert (Hr : run =
    ({| fs := fs w; stdout := stdout w ++ ["Logging in..."];
        driver_log := driver_log w ++ ImplicitlyWait 10 :: Get Downloader.login_url
                        :: (if login_has_id E "username"
                            then [Clear "username"; SendKeys "username" (username C)]
                            else []);
        requests := requests w; spawned := spawned w; outcomes := outcomes w |},
     Raise NoSuchElementException)).
  { unfold run, StudipSync.sync. unfold bind at 1. cbn [print].
    apply bind_raise. apply with_enter_raise.
    unfold Downloader.init. rewrite Hf.
    unfold bind at 1. cbn [ret]. unfold bind at 1. cbn [drive].
    apply bind_raise.
    unfold Downloader._login, Downloader.find_element_by_id.
    run_step.
    destruct (login_has_id E "username") eqn:Hu.
    - simpl in Hm. rewrite Hm. do 3 run_step.
      now rewrite <- !app_assoc.
    - run_step. now rewrite <- !app_assoc. }
  rewrite Hr. cbn [fst snd fs stdout driver_log requests spawned outcomes].
  repeat split; try reflexivity.
  rewrite existsb_app. destruct (login_has_id E "username"); simpl;
    now rewrite orb_false_r.
Qed.

Lemma missing_login_field_leaves_browser_witness :
  snd (StudipSync.sync Cases.portal_no_password (cfg [course1]) sync0 w_boot)
  = Raise NoSuchElementException /\
  driver_log (fst (StudipSync.sync Cases.portal_no_password (cfg [course1]) sync0 w_boot))
  = [ImplicitlyWait 10; Get Downloader.login_url; Clear "username"; SendKeys "username" "u"].
Proof.
  destruct (missing_login_field_leaves_browser Cases.portal_no_password (cfg [course1])
              sync0 w_boot eq_refl eq_refl) as (H1 & _ & H2 & _).
  exact (conj H1 H2).
Defined.
(** ** The suffix of the backups *)

Lemma digit_inj n m : digit n = digit m -> n mod 10 = m mod 10.
Proof.
  unfold digit. intros H.
  apply (f_equal (fun s => match s with
                           | String c _ => nat_of_ascii c
                           | EmptyString => 0
                           end)) in H.
  cbv beta iota in H.
  assert (Hn : n mod 10 < 10) by (apply Nat.mod_upper_bound; discriminate).
  assert (Hm : m mod 10 < 10) by (apply Nat.mod_upper_bound; discriminate).
  rewrite !nat_ascii_embedding in H by lia. lia.
Qed.

Lemma last_digit n m : n / 10 = m / 10 -> n mod 10 = m mod 10 -> n = m.
Proof.
  intros Hd Hm. rewrite (Nat.div_mod_eq n 10), (Nat.div_mod_eq m 10). congruence.
Qed.

Lemma two_digits n m :
  n < 100 -> m < 100 ->
  (n / 10) mod 10 = (m / 10) mod 10 -> n mod 10 = m mod 10 -> n = m.
Proof.
  intros Hn Hm H1 H0. apply last_digit; auto.
  rewrite !Nat.mod_small in H1; auto;
    apply Nat.Div0.div_lt_upper_bound; lia.
Qed.

Lemma four_digits n m :
  n < 10 * 1000 -> m < 10 * 1000 ->
  (n / 1000) mod 10 = (m / 1000) mod 10 ->
  (n / 100) mod 10 = (m / 100) mod 10 ->
  (n / 10) mod 10 = (m / 10) mod 10 -> n mod 10 = m mod 10 -> n = m.
Proof.
  intros Hn Hm H3 H2 H1 H0.
  rewrite !Nat.mod_small in H3 by (apply Nat.Div0.div_lt_upper_bound; lia).
  assert (E2 : n / 100 = m / 100).
  { apply last_digit; auto. rewrite !Nat.Div0.div_div. exact H3. }
  assert (E1 : n / 10 = m / 10).
  { apply last_digit; auto. rewrite !Nat.Div0.div_div. exact E2. }
  now apply last_digit.
Qed.

(** A year of four digits is printed as its four digits. *)
Lemma decimal_digits_four f y :
  1000 <= y -> y < 10 * 1000 -> decimal_digits (4 + f) y = pad4 y.
Proof.
  intros Lo Hi. cbn [plus decimal_digits].
  assert (H1 : Nat.ltb y 10 = false) by (apply Nat.ltb_ge; lia).
  assert (D1 : 100 <= y / 10) by (apply Nat.div_le_lower_bound; lia).
  assert (H2 : Nat.ltb (y / 10) 10 = false) by (apply Nat.ltb_ge; lia).
  assert (D2 : 10 <= y / 10 / 10) by (apply Nat.div_le_lower_bound; lia).
  assert (H3 : Nat.ltb (y / 10 / 10) 10 = false) by (apply Nat.ltb_ge; lia).
  assert (D3 : y / 10 / 10 / 10 < 10).
  { rewrite !Nat.Div0.div_div. apply Nat.Div0.div_lt_upper_bound. lia. }
  assert (H4 : Nat.ltb (y / 10 / 10 / 10) 10 = true) by (now apply Nat.ltb_lt).
  rewrite H1, H2, H3, H4. unfold pad4.
  rewrite !Nat.Div0.div_div.
  change (10 * 10 * 10) with 1000. change (10 * 10) with 100.
  reflexivity.
Qed.

Lemma decimal_four y : 1000 <= y -> y < 10 * 1000 -> decimal y = pad4 y.
Proof.
  intros Lo Hi. unfold decimal.
  replace (S y) with (4 + (y - 3)) by lia. now apply decimal_digits_four.
Qed.

Lemma strftime_split t :
  1000 <= year t -> year t < 10 * 1000 ->
  strftime t =
  (digit (year t / 1000) ++ digit (year t / 100) ++ digit (year t / 10) ++ digit (year t)
   ++ "-" ++ digit (month t / 10) ++ digit (month t)
   ++ "-" ++ digit (day t / 10) ++ digit (day t)
   ++ "_" ++ digit (hour t / 10) ++ digit (hour t)
   ++ "+" ++ digit (minute t / 10) ++ digit (minute t)
   ++ "+" ++ digit (second t / 10) ++ digit (second t))%string.
Proof.
  intros Lo Hi. unfold strftime. rewrite (decimal_four _ Lo Hi). reflexivity.
Qed.

Lemma strftime_length t :
  1000 <= year t -> year t < 10 * 1000 -> String.length (strftime t) = 19.
Proof. intros Lo Hi. rewrite (strftime_split t Lo Hi). reflexivity. Qed.

Lemma digit_cons n s m s' :
  (digit n ++ s)%string = (digit m ++ s')%string -> n mod 10 = m mod 10 /\ s = s'.
Proof.
  intros H. change ((digit n ++ s)%string) with (String (ascii_of_nat (48 + n mod 10)) s) in H.
  change ((digit m ++ s')%string) with (String (ascii_of_nat (48 + m mod 10)) s') in H.
  split.
  - apply digit_inj. unfold digit. f_equal.
    exact (f_equal (fun s => match s with String c _ => c | EmptyString => zero end) H).
  - exact (f_equal (fun s => match s with String _ r => r | EmptyString => "" end) H).
Qed.

Lemma sep_cons (c : string) s s' :
  String.length c = 1 -> (c ++ s)%string = (c ++ s')%string -> s = s'.
Proof.
  destruct c as [|a [|b r]]; try discriminate. intros _ H. now injection H.
Qed.

Lemma strftime_inj t1 t2 :
  valid_datetime t1 = true -> valid_datetime t2 = true ->
  strftime t1 = strftime t2 -> t1 = t2.
Proof.
  unfold valid_datetime. intros V1 V2 H.
  repeat (apply andb_true_iff in V1 as [V1 ?]).
  repeat (apply andb_true_iff in V2 as [V2 ?]).
  repeat match goal with
         | H : Nat.leb _ _ = true |- _ => apply Nat.leb_le in H
         | H : Nat.ltb _ _ = true |- _ => apply Nat.ltb_lt in H
         end.
  rewrite (strftime_split t1), (strftime_split t2) in H by assumption.
  apply digit_cons in H as [Y3 H]. apply digit_cons in H as [Y2 H].
  apply digit_cons in H as [Y1 H]. apply digit_cons in H as [Y0 H].
  apply (sep_cons "-") in H; [|reflexivity].
  apply digit_cons in H as [M1 H]. apply digit_cons in H as [M0 H].
  apply (sep_cons "-") in H; [|reflexivity].
  apply digit_cons in H as [D1 H]. apply digit_cons in H as [D0 H].
  apply (sep_cons "_") in H; [|reflexivity].
  apply digit_cons in H as [h1 H]. apply digit_cons in H as [h0 H].
  apply (sep_cons "+") in H; [|reflexivity].
  apply digit_cons in H as [m1 H]. apply digit_cons in H as [m0 H].
  apply (sep_cons "+") in H; [|reflexivity].
  apply digit_cons in H as [s1 H].
  assert (s0 : second t1 mod 10 = second t2 mod 10) by now apply digit_inj.
  destruct t1 as [y1 mo1 d1 hh1 mi1 ss1], t2 as [y2 mo2 d2 hh2 mi2 ss2].
  cbn [year month day hour minute second] in *.
  f_equal; [apply four_digits; auto | apply two_digits; auto; lia ..].
Qed.

Lemma append_same_length (c : string) : forall a b,
  String.length a = String.length b -> (a ++ c)%string = (b ++ c)%string -> a = b.
Proof.
  induction a as [|x a IH]; intros [|y b]; simpl; try discriminate; auto.
  intros L H. injection L as L. injection H as -> H. f_equal. now apply IH.
Qed.

(** X12.  The suffix tells the second: two [RsyncWrapper] objects made at
    different dates and times (in years of four digits) carry different
    suffixes, so that the backups of one run are not taken for those of
    another. *)
Theorem suffix_tells_the_time :
  forall E1 E2,
    valid_datetime (now E1) = true -> valid_datetime (now E2) = true ->
    now E1 <> now E2 ->
    RsyncWrapper.suffix (RsyncWrapper.init E1)
    <> RsyncWrapper.suffix (RsyncWrapper.init E2).
Proof.
  intros E1 E2 V1 V2 N H. apply N. apply strftime_inj; auto.
  unfold RsyncWrapper.init in H. cbn [RsyncWrapper.suffix] in H.
  apply (sep_cons "_") in H; [|reflexivity].
  apply append_same_length in H; auto.
  unfold valid_datetime in V1, V2.
  repeat (apply andb_true_iff in V1 as [V1 ?]).
  repeat (apply andb_true_iff in V2 as [V2 ?]).
  apply Nat.leb_le in V1, V2.
  repeat match goal with
         | H : Nat.ltb (year _) _ = true |- _ => apply Nat.ltb_lt in H
         end.
  rewrite !strftime_length by assumption. reflexivity.
Qed.

Lemma suffix_tells_the_time_witness :
  RsyncWrapper.suffix (RsyncWrapper.init (portal true None None))
  <> RsyncWrapper.suffix (RsyncWrapper.init (Cases.a_second_later (portal true None None))).
Proof.
  apply (suffix_tells_the_time (portal true None None)
           (Cases.a_second_later (portal true None None)) eq_refl eq_refl).
  discriminate.
Defined.
(** ** What a run prints *)

Section Prints.
Variable L : list string.

Lemma prints_refl w : prints_within L w w.
Proof. exists []. now rewrite app_nil_r. Qed.

Lemma prints_trans a b c :
  prints_within L a b -> prints_within L b c -> prints_within L a c.
Proof.
  intros (n1 & E1 & F1) (n2 & E2 & F2). exists (n1 ++ n2).
  rewrite E2, E1, app_assoc. split; [reflexivity|]. apply Forall_app. auto.
Qed.

Lemma prints_same w w' : stdout w' = stdout w -> prints_within L w w'.
Proof. intros E. exists []. now rewrite app_nil_r. Qed.

Lemma prints_print line : In line L -> steps (prints_within L) (print line).
Proof. intros H w. exists [line]. split; [reflexivity|]. now constructor. Qed.

Lemma prints_drive c : steps (prints_within L) (drive c).
Proof. intros w. now apply prints_same. Qed.

Lemma prints_send_request r : steps (prints_within L) (send_request r).
Proof. intros w. now apply prints_same. Qed.

Lemma prints_record_outcome n o : steps (prints_within L) (record_outcome n o).
Proof. intros w. now apply prints_same. Qed.

Lemma prints_on_fs {A} (m : M node A) : steps (prints_within L) (on_fs m).
Proof.
  intros w. apply prints_same. unfold on_fs, zoom. now destruct (m (fs w)) as [f r].
Qed.

Lemma prints_download E dl cid so : steps (prints_within L) (Downloader.download E dl cid so).
Proof.
  unfold Downloader.download.
  repeat first
    [ apply prints_drive | apply prints_send_request | apply prints_on_fs
    | apply (steps_ret _ prints_refl) | apply (steps_raise _ prints_refl)
    | apply (steps_bind _ prints_trans); [|intros ?]
    | match goal with
      | |- steps _ (if ?b then _ else _) => destruct b
      | |- steps _ (match ?x with _ => _ end) => destruct x
      end ].
Qed.

Hypothesis fixed_in : incl fixed_lines L.

Lemma prints_Downloader_init E d u p : steps (prints_within L) (Downloader.init E d u p).
Proof.
  unfold Downloader.init.
  apply (steps_bind _ prints_trans).
  { destruct (firefox_starts E);
      [apply (steps_ret _ prints_refl)|apply (steps_raise _ prints_refl)]. }
  intros _. apply (steps_bind _ prints_trans); [apply prints_drive|intros _].
  apply (steps_bind _ prints_trans); [|intros _; apply (steps_ret _ prints_refl)].
  unfold Downloader._login, Downloader.find_element_by_id, Downloader.exit_.
  repeat first
    [ apply prints_drive
    | apply prints_print; apply fixed_in; simpl; tauto
    | apply (steps_ret _ prints_refl) | apply (steps_raise _ prints_refl)
    | apply (steps_bind _ prints_trans); [|intros ?]
    | apply (steps_try_except _ prints_trans); [|intros ? ? ?]
    | match goal with
      | H : Some _ = Some _ |- _ => inversion H; subst; clear H
      | |- steps _ (if ?b then _ else _) => destruct b
      end ].
Qed.

Lemma prints_sync_course E ex dl c :
  incl (course_lines c) L ->
  steps (prints_within L) (StudipSync.sync_course E ex dl c).
Proof.
  intros Hc. unfold StudipSync.sync_course.
  apply (steps_bind _ prints_trans).
  { apply prints_print, Hc. simpl. tauto. }
  intros _. apply (steps_try_except _ prints_trans).
  - apply (steps_bind _ prints_trans); [apply prints_download|intros z].
    apply (steps_bind _ prints_trans); [apply prints_on_fs|intros _].
    apply prints_record_outcome.
  - intros e handler H.
    destruct e; try discriminate; inversion H; subst;
      repeat first
        [ apply prints_record_outcome
        | apply prints_print;
          first [apply Hc; simpl; tauto | apply fixed_in; simpl; tauto]
        | apply (steps_bind _ prints_trans); [|intros _] ].
Qed.

End Prints.

(** X14.  A run of [sync] prints nothing but its own fixed lines and, for the
    configured courses, the three lines that name a course by its
    [save_as]: the messages of the exceptions it catches, the user name,
    the password and what the portal answers are never printed. *)
Theorem sync_prints_only_its_lines :
  forall E C s w,
    exists new,
      stdout (fst (StudipSync.sync E C s w)) = stdout w ++ new /\
      Forall (fun line => In line (vocabulary C)) new.
Proof.
  intros E C s w.
  assert (F : incl fixed_lines (vocabulary C)) by (apply incl_appl, incl_refl).
  assert (H : steps (prints_within (vocabulary C)) (StudipSync.sync E C s));
    [|exact (H w)].
  clear w. pose proof (prints_trans (vocabulary C)) as T.
  pose proof (prints_refl (vocabulary C)) as R.
  unfold StudipSync.sync. cbv zeta.
  apply (steps_bind _ T); [apply prints_print, F; simpl; tauto|intros _].
  apply (steps_bind _ T).
  - apply (steps_with _ R T).
    + now apply prints_Downloader_init.
    + intros dl. apply prints_drive.
    + intros dl. apply (steps_for_each_in _ _ _ R T).
      intros c Hc. apply prints_sync_course; auto.
      unfold vocabulary. apply incl_appr. intros l Hl.
      apply in_flat_map. eauto.
  - intros _. apply (steps_bind _ T); [apply prints_print, F; simpl; tauto|intros _].
    unfold RsyncWrapper.sync.
    apply (steps_bind _ T); [|intros _; apply (steps_ret _ R)].
    intros w. apply prints_same. unfold subprocess_call.
    now destruct (spawn E _ (fs w)) as [[f st]|].
Qed.
(** ** What a run asks of the portal *)

Lemma posts_nothing_refl w : posts_nothing w w.
Proof. reflexivity. Qed.

Lemma posts_nothing_trans a b c :
  posts_nothing a b -> posts_nothing b c -> posts_nothing a c.
Proof. unfold posts_nothing. congruence. Qed.

Lemma posts_nothing_on_fs {A} (m : M node A) : steps posts_nothing (on_fs m).
Proof. intros w. unfold posts_nothing, on_fs, zoom. now destruct (m (fs w)) as [f r]. Qed.

Ltac posts_step :=
  first
    [ apply posts_nothing_on_fs
    | (intros ?; reflexivity)
    | apply (steps_ret _ posts_nothing_refl)
    | apply (steps_raise _ posts_nothing_refl)
    | apply (steps_bind _ posts_nothing_trans); [|intros ?]
    | apply (steps_try_except _ posts_nothing_trans); [|intros ? ? ?]
    | match goal with
      | H : Some _ = Some _ |- _ => inversion H; subst; clear H
      | |- steps _ (if ?b then _ else _) => destruct b
      | |- steps _ (match ?x with _ => _ end) => destruct x
      end ].

Lemma posts_nothing_Downloader_init E d u p : steps posts_nothing (Downloader.init E d u p).
Proof.
  unfold Downloader.init.
  apply (steps_bind _ posts_nothing_trans).
  { destruct (firefox_starts E); posts_step. }
  intros _. apply (steps_bind _ posts_nothing_trans); [intros w; reflexivity|intros _].
  apply (steps_bind _ posts_nothing_trans); [|intros _; posts_step].
  unfold Downloader._login, Downloader.find_element_by_id, Downloader.exit_.
  repeat first
    [ apply (steps_bind _ posts_nothing_trans); [|intros ?]
    | apply (steps_try_except _ posts_nothing_trans); [|intros ? ? ?]
    | match goal with
      | H : Some _ = Some _ |- _ => inversion H; subst; clear H
      | |- steps _ (if ?b then _ else _) => destruct b
      end
    | (intros ?; reflexivity) ].
Qed.

(** One pass of the loop posts the request of its course, however it
    ends. *)
Lemma sync_course_requests E ex dl c w :
  requests (fst (StudipSync.sync_course E ex dl c w))
  = requests w ++ course_requests E c.
Proof.
  unfold StudipSync.sync_course, course_requests.
  unfold bind at 1. cbn [print].
  set (w0 := {| fs := fs w; stdout := _; driver_log := driver_log w;
                requests := requests w; spawned := spawned w; outcomes := outcomes w |}).
  change (requests w) with (requests w0). clearbody w0.
  unfold try_except, bind. rewrite download_unfold.
  destruct (parent_folder_id E (course_id c)) as [fid|].
  - cbv zeta.
    assert (A : requests (Downloader.after_request E (course_id c) (sync_only c) fid w0)
                = requests w0 ++ [Downloader.bulk_request E (course_id c) (sync_only c) fid])
      by reflexivity.
    revert A. generalize (Downloader.after_request E (course_id c) (sync_only c) fid w0).
    intros w2 A.
    destruct (post E _) as [resp|]; [|exact A].
    destruct (ok resp); [|exact A].
    destruct (write_file _ _ (fs w2)) as [f [[]|e]].
    + unfold on_fs, zoom. cbn [fs set_fs].
      destruct (Extractor.extract ex _ _ true f) as [f2 [d|e]].
      * exact A.
      * destruct e; exact A.
    + destruct e; exact A.
  - now rewrite app_nil_r.
Qed.

Lemma loop_requests E ex dl cs : forall w,
  exists attempted rest,
    cs = attempted ++ rest /\
    requests (fst (for_each cs (StudipSync.sync_course E ex dl) w))
    = requests w ++ flat_map (course_requests E) attempted /\
    (snd (for_each cs (StudipSync.sync_course E ex dl) w) = Ok tt -> rest = []).
Proof.
  induction cs as [|c cs IH]; intros w.
  - exists [], []. simpl. now rewrite app_nil_r.
  - cbn [for_each]. unfold bind.
    generalize (sync_course_requests E ex dl c w).
    destruct (StudipSync.sync_course E ex dl c w) as [w1 [[]|e]]; cbn [fst]; intros R1.
    + destruct (IH w1) as (att & rest & Ec & Rq & Hok).
      exists (c :: att), rest. split; [now rewrite Ec|]. split; [|exact Hok].
      rewrite Rq, R1. cbn [flat_map]. now rewrite app_assoc.
    + exists [c], cs. split; [reflexivity|]. split; [|discriminate].
      cbn [flat_map]. now rewrite app_nil_r.
Qed.

(** X15.  A run of [sync] posts one request for each course it gets to whose
    files page shows a parent folder, in the order of the configuration,
    and nothing else; a run that ends normally got to every course.
    (A course that ends the run with an exception had its request posted,
    if it has one.) *)
Theorem sync_posts_one_request_per_course :
  forall E C s w,
    exists attempted rest,
      courses C = attempted ++ rest /\
      requests (fst (StudipSync.sync E C s w))
      = requests w ++ flat_map (course_requests E) attempted /\
      (snd (StudipSync.sync E C s w) = Ok tt -> rest = []).
Proof.
  intros E C s w.
  destruct (StudipSync.sync E C s w) as [w' r] eqn:H. cbn [fst snd].
  revert H. unfold StudipSync.sync. cbv zeta.
  unfold bind at 1. cbn [print].
  set (wp := {| fs := fs w; stdout := _; driver_log := driver_log w;
                requests := requests w; spawned := spawned w; outcomes := outcomes w |}).
  change (requests w) with (requests wp). clearbody wp. clear w.
  unfold bind at 1. unfold with_ at 1. unfold bind at 1.
  generalize (posts_nothing_Downloader_init E (StudipSync.download_dir s)
                (username C) (password C) wp).
  destruct (Downloader.init E _ _ _ wp) as [wi [dl|e]]; cbn [fst]; intros Ri.
  2:{ intros H. inversion H; subst. exists [], (courses C). cbn. rewrite app_nil_r.
      repeat split; auto. discriminate. }
  destruct (loop_requests E {| Extractor.basedir := StudipSync.extract_dir s |} dl
              (courses C) wi) as (att & rest & Ec & Rq & Hok).
  exists att, rest. split; [exact Ec|].
  destruct (for_each (courses C) _ wi) as [wl [[]|e]]; cbn [fst snd] in *.
  - revert H. unfold Downloader.exit. unfold bind at 1. cbn [drive ret].
    unfold bind at 1. cbn [print]. unfold RsyncWrapper.sync, bind, subprocess_call.
    cbn [fs stdout driver_log requests spawned outcomes].
    destruct (spawn E _ _) as [[f st]|]; intros H; inversion H; subst;
      cbn [requests]; (split; [now rewrite Rq, Ri|intros _; now apply Hok]).
  - revert H. unfold Downloader.exit. unfold bind at 1. cbn [drive raise].
    intros H. inversion H; subst. cbn [requests].
    split; [|discriminate]. now rewrite Rq, Ri.
Qed.
(** ** The exit status of the merge *)

(** X13.  The status that [rsync] exits with is dropped: once the loop over the
    courses is through, [sync] returns normally whenever [rsync] could be
    started, whatever its exit status, and prints nothing about it; the
    disk is as [rsync] left it.  Only when [rsync] cannot be started does
    the merge raise, FileNotFoundError, with the world as it was before the
    merge. *)
Theorem merge_ignores_exit_status :
  forall E C s w w3,
    StudipSync.before_merge E C s w = (w3, Ok tt) ->
    match spawn E (RsyncWrapper.argv (RsyncWrapper.init E)
                     (path_str (StudipSync.extract_dir s) ++ "/")%string
                     (path_str (StudipSync.destination_dir s))) (fs w3) with
    | Some (f, status) =>
        snd (StudipSync.sync E C s w) = Ok tt /\
        fs (fst (StudipSync.sync E C s w)) = f /\
        stdout (fst (StudipSync.sync E C s w)) = stdout w3 /\
        outcomes (fst (StudipSync.sync E C s w)) = outcomes w3
    | None => StudipSync.sync E C s w = (w3, Raise FileNotFoundError)
    end.
Proof.
  intros E C s w w3 H. rewrite sync_split.
  rewrite (bind_ok _ _ _ _ _ H).
  unfold RsyncWrapper.sync, bind, subprocess_call.
  destruct (spawn E _ (fs w3)) as [[f status]|]; [|reflexivity].
  repeat split.
Qed.

Lemma merge_ignores_exit_status_witness :
  snd (StudipSync.sync (Cases.rsync_fails (portal true refused (answer zip_two)))
         (cfg [course1; course2]) sync0 w_boot)
  = Ok tt.
Proof.
  assert (H : StudipSync.before_merge (Cases.rsync_fails (portal true refused (answer zip_two)))
                (cfg [course1; course2]) sync0 w_boot
              = (fst (StudipSync.before_merge
                        (Cases.rsync_fails (portal true refused (answer zip_two)))
                        (cfg [course1; course2]) sync0 w_boot), Ok tt))
    by (vm_compute; reflexivity).
  apply merge_ignores_exit_status in H.
  unfold Cases.rsync_fails in H at 1. cbn [spawn] in H.
  exact (proj1 H).
Defined.
(** * Properties of the configuration *)

Lemma cfg_bind_return {A B} (m : Config.P A) (k : A -> Config.P B) st st1 a :
  m st = (st1, Config.Return a) -> Config.bind m k st = k a st1.
Proof. unfold Config.bind. now intros ->. Qed.

(** ** Without a configuration file *)

(** X16.  With no configuration ([self.config] is [None]) or an empty one,
    nothing is stored: [update_last_sync] and [update_plugins] return
    without calling [ConfigCreator.replace_config] and without changing the
    object, and the readers give their defaults: 0 for [last_sync], the
    empty list for [plugins], [None] for a user property. *)
Theorem no_config_stores_nothing :
  forall st v prop,
    Config.truthy (Config.config (Config.self st)) = false ->
    Config.update_last_sync v st = (st, Config.Return tt) /\
    Config.update_plugins v st = (st, Config.Return tt) /\
    Config.last_sync st = (st, Config.Return (Config.VInt 0)) /\
    Config.plugins st = (st, Config.Return (Config.VList [])) /\
    Config.user_property prop st = (st, Config.Return Config.VNone).
Proof.
  intros st v prop H.
  unfold Config.update_last_sync, Config.update_plugins, Config.last_sync,
    Config.plugins, Config.user_property, Config.bind, Config.get_self.
  rewrite H. repeat split.
Qed.

Lemma no_config_stores_nothing_witness :
  Config.update_last_sync (Config.VInt 7)
    (Config.start (Config.fresh None None (Config.VDict [])) [])
  = (Config.start (Config.fresh None None (Config.VDict [])) [], Config.Return tt).
Proof.
  exact (proj1 (no_config_stores_nothing
                  (Config.start (Config.fresh None None (Config.VDict [])) [])
                  (Config.VInt 7) "login" eq_refl)).
Defined.

(** ** Storing and reading back *)

Lemma setitem_config_dict key v d st :
  Config.config (Config.self st) = Config.VDict d ->
  Config.setitem_config key v st
  = (fst (Config.set_config (Config.VDict (Fs.assoc_set key v d)) st),
     Config.Return (Config.VDict (Fs.assoc_set key v d))).
Proof.
  intros H. unfold Config.setitem_config, Config.bind, Config.get_self.
  rewrite H. reflexivity.
Qed.

(** X17.  [update_last_sync(v)] on a configuration that is a dictionary with at
    least one key: the key [last_sync] of the object's own dictionary is
    set to [v] (the other keys are as before), and that dictionary is
    handed to [ConfigCreator.replace_config], once.  Reading [last_sync]
    afterwards gives [v], unless [v] is false in Python's sense (0, None,
    an empty string, ...), when it gives 0. *)
Theorem last_sync_reads_back :
  forall st v e d,
    Config.config (Config.self st) = Config.VDict (e :: d) ->
    let new_config := Config.VDict (Fs.assoc_set "last_sync" v (e :: d)) in
    let st' := fst (Config.update_last_sync v st) in
    snd (Config.update_last_sync v st) = Config.Return tt /\
    Config.config (Config.self st') = new_config /\
    Config.replaced st' = Config.replaced st ++ [new_config] /\
    Config.last_sync st'
    = (st', Config.Return (if Config.truthy v then v else Config.VInt 0)) /\
    (forall k default,
        k <> "last_sync" ->
        Config.get new_config k default st' = Config.get (Config.VDict (e :: d)) k default st').
Proof.
  intros st v e d H new_config st'.
  assert (U : Config.update_last_sync v st =
              ({| Config.self :=
                    {| Config.args_destination := Config.args_destination (Config.self st);
                       Config.args_media := Config.args_media (Config.self st);
                       Config.config := new_config;
                       Config._username := Config._username (Config.self st);
                       Config._password := Config._password (Config.self st) |};
                  Config.typed := Config.typed st; Config.prompts := Config.prompts st;
                  Config.replaced := Config.replaced st ++ [new_config] |},
               Config.Return tt)).
  { unfold Config.update_last_sync. unfold Config.bind at 1. unfold Config.get_self.
    rewrite H. cbn [Config.truthy negb].
    rewrite (cfg_bind_return _ _ _ _ _ (setitem_config_dict _ _ _ _ H)).
    reflexivity. }
  unfold st'. rewrite U. cbn [fst snd Config.self Config.config Config.replaced].
  repeat split.
  - unfold Config.last_sync, Config.bind, Config.get_self.
    cbn [Config.self Config.config]. unfold new_config.
    assert (T : Config.truthy (Config.VDict (Fs.assoc_set "last_sync" v (e :: d))) = true).
    { destruct e as [k0 v0]. cbn [Fs.assoc_set].
      destruct (String.eqb "last_sync" k0); reflexivity. }
    rewrite T. cbn [negb Config.get Config.ret].
    rewrite assoc_set_eq. now destruct (Config.truthy v).
  - intros k default N. unfold new_config. cbn [Config.get].
    rewrite assoc_set_neq by congruence. reflexivity.
Qed.

Lemma last_sync_reads_back_witness :
  Config.last_sync
    (fst (Config.update_last_sync (Config.VInt 9)
            (Config.start (Config.fresh None None Config.file0) [])))
  = (fst (Config.update_last_sync (Config.VInt 9)
            (Config.start (Config.fresh None None Config.file0) [])),
     Config.Return (Config.VInt 9)).
Proof.
  destruct (last_sync_reads_back
              (Config.start (Config.fresh None None Config.file0) [])
              (Config.VInt 9) _ _ eq_refl) as (_ & _ & _ & H & _).
  exact H.
Defined.

(** X18.  [update_plugins(v)] on a configuration that is a dictionary with at
    least one key sets the key [plugins] of the object's own dictionary and
    hands it to [ConfigCreator.replace_config]; reading [plugins]
    afterwards gives [v] itself, whatever it is: [None] or an empty list
    are not replaced by a default. *)
Theorem plugins_read_back :
  forall st v e d,
    Config.config (Config.self st) = Config.VDict (e :: d) ->
    let new_config := Config.VDict (Fs.assoc_set "plugins" v (e :: d)) in
    let st' := fst (Config.update_plugins v st) in
    snd (Config.update_plugins v st) = Config.Return tt /\
    Config.config (Config.self st') = new_config /\
    Config.replaced st' = Config.replaced st ++ [new_config] /\
    Config.plugins st' = (st', Config.Return v).
Proof.
  intros st v e d H new_config st'.
  assert (U : Config.update_plugins v st =
              ({| Config.self :=
                    {| Config.args_destination := Config.args_destination (Config.self st);
                       Config.args_media := Config.args_media (Config.self st);
                       Config.config := new_config;
                       Config._username := Config._username (Config.self st);
                       Config._password := Config._password (Config.self st) |};
                  Config.typed := Config.typed st; Config.prompts := Config.prompts st;
                  Config.replaced := Config.replaced st ++ [new_config] |},
               Config.Return tt)).
  { unfold Config.update_plugins. unfold Config.bind at 1. unfold Config.get_self.
    rewrite H. cbn [Config.truthy negb].
    rewrite (cfg_bind_return _ _ _ _ _ (setitem_config_dict _ _ _ _ H)).
    reflexivity. }
  unfold st'. rewrite U. cbn [fst snd Config.self Config.config Config.replaced].
  repeat split.
  unfold Config.plugins, Config.bind, Config.get_self.
  cbn [Config.self Config.config]. unfold new_config.
  assert (T : Config.truthy (Config.VDict (Fs.assoc_set "plugins" v (e :: d))) = true).
  { destruct e as [k0 v0]. cbn [Fs.assoc_set].
    destruct (String.eqb "plugins" k0); reflexivity. }
  rewrite T. cbn [negb Config.get Config.ret]. now rewrite assoc_set_eq.
Qed.

Lemma plugins_read_back_witness :
  Config.plugins
    (fst (Config.update_plugins Config.VNone
            (Config.start (Config.fresh None None Config.file0) [])))
  = (fst (Config.update_plugins Config.VNone
            (Config.start (Config.fresh None None Config.file0) [])),
     Config.Return Config.VNone).
Proof.
  destruct (plugins_read_back
              (Config.start (Config.fresh None None Config.file0) [])
              Config.VNone _ _ eq_refl) as (_ & _ & _ & H).
  exact H.
Defined.

(** ** A configuration that is no dictionary *)

(** X19.  A configuration that is true in Python's sense but no dictionary (a
    non-empty list at the top of the JSON file, say) is not reported as a
    [ConfigError]: the readers raise AttributeError at their first [get],
    the two updates raise TypeError at the assignment, and [_check] raises
    AttributeError unless a destination on the command line and cached
    credentials keep it from reading the file.  The object is left as it
    was. *)
Theorem malformed_config_raises :
  forall O st prop v,
    Config.truthy (Config.config (Config.self st)) = true ->
    (forall d, Config.config (Config.self st) <> Config.VDict d) ->
    Config.last_sync st = (st, Config.Throw Config.AttributeError) /\
    Config.plugins st = (st, Config.Throw Config.AttributeError) /\
    Config.user_property prop st = (st, Config.Throw Config.AttributeError) /\
    Config.update_last_sync v st = (st, Config.Throw Config.TypeError) /\
    Config.update_plugins v st = (st, Config.Throw Config.TypeError) /\
    (Config.args_destination (Config.self st) = None ->
     Config._check O st = (st, Config.Throw Config.AttributeError)).
Proof.
  intros O st prop v T N.
  destruct st as [[ad am c u p] ty pr rp]. cbn [Config.self Config.config] in T, N.
  cbn [Config.self Config.args_destination].
  destruct c as [|b|z|f|s|l|d]; try (now destruct (N d));
    try discriminate;
    (repeat split; try (intros A; subst ad));
    unfold Config.last_sync, Config.plugins, Config.user_property,
      Config.update_last_sync, Config.update_plugins, Config._check,
      Config.files_destination, Config.setitem_config, Config.bind, Config.get_self;
    cbn [Config.self Config.config Config.args_destination]; rewrite ?T; reflexivity.
Qed.

Lemma malformed_config_raises_witness :
  Config.last_sync
    (Config.start (Config.fresh None None (Config.VList [Config.VInt 1])) [])
  = (Config.start (Config.fresh None None (Config.VList [Config.VInt 1])) [],
     Config.Throw Config.AttributeError).
Proof.
  refine (proj1 (malformed_config_raises Config.os0
                   (Config.start (Config.fresh None None (Config.VList [Config.VInt 1])) [])
                   "login" Config.VNone eq_refl _)).
  intros d. discriminate.
Defined.

(** ** Credentials *)

Lemma user_property_pure prop st : fst (Config.user_property prop st) = st.
Proof.
  unfold Config.user_property, Config.bind, Config.get_self.
  destruct (Config.truthy (Config.config (Config.self st))); [|reflexivity].
  cbn [negb]. destruct (Config.config (Config.self st)) as [| | | | | |d]; try reflexivity.
  cbn [Config.get Config.ret].
  destruct (Config.truthy _); [|reflexivity]. cbn [negb].
  destruct (match Fs.assoc "user" d with Some v => v | None => Config.VNone end);
    reflexivity.
Qed.

Lemma user_property_eq prop st :
  Config.user_property prop st = (st, snd (Config.user_property prop st)).
Proof.
  rewrite <- (user_property_pure prop st) at 2. now destruct (Config.user_property prop st).
Qed.

Lemma user_property_no_ConfigError prop st msg :
  snd (Config.user_property prop st) <> Config.Throw (Config.ConfigError msg).
Proof.
  unfold Config.user_property, Config.bind, Config.get_self.
  destruct (Config.truthy (Config.config (Config.self st))); [|discriminate].
  cbn [negb]. destruct (Config.config (Config.self st)) as [| | | | | |d]; try discriminate.
  cbn [Config.get Config.ret].
  destruct (Config.truthy _); [|discriminate]. cbn [negb].
  destruct (match Fs.assoc "user" d with Some v => v | None => Config.VNone end);
    discriminate.
Qed.

(** [username], case by case: a cached value; else the value of the file;
    else a line read after the prompt. *)
Lemma username_cases st :
  Config.username st =
  let cached := Config._username (Config.self st) in
  if Config.truthy cached then (st, Config.Return cached)
  else
    match snd (Config.user_property "login" st) with
    | Config.Throw e => (st, Config.Throw e)
    | Config.Return login =>
        if Config.truthy login
        then (fst (Config.set_username login st), Config.Return login)
        else
          match Config.typed st with
          | [] => (fst (Config.input "Username: " st), Config.Throw Config.EOFError)
          | line :: _ =>
              (fst (Config.set_username (Config.VStr line)
                      (fst (Config.input "Username: " st))),
               Config.Return (Config.VStr line))
          end
    end.
Proof.
  unfold Config.username. unfold Config.bind at 1. unfold Config.get_self.
  cbv zeta. destruct (Config.truthy (Config._username (Config.self st))); [reflexivity|].
  unfold Config.bind at 1. rewrite (user_property_eq "login" st).
  destruct (snd (Config.user_property "login" st)) as [login|e]; [|reflexivity].
  cbn [snd]. unfold Config.or_else.
  destruct (Config.truthy login).
  - reflexivity.
  - unfold Config.bind, Config.input.
    destruct (Config.typed st) as [|line rest]; reflexivity.
Qed.

Lemma password_cases st :
  Config.password st =
  let cached := Config._password (Config.self st) in
  if Config.truthy cached then (st, Config.Return cached)
  else
    match snd (Config.user_property "password" st) with
    | Config.Throw e => (st, Config.Throw e)
    | Config.Return pw =>
        if Config.truthy pw
        then (fst (Config.set_password pw st), Config.Return pw)
        else
          match Config.typed st with
          | [] => (fst (Config.input "Password: " st), Config.Throw Config.EOFError)
          | line :: _ =>
              (fst (Config.set_password (Config.VStr line)
                      (fst (Config.input "Password: " st))),
               Config.Return (Config.VStr line))
          end
    end.
Proof.
  unfold Config.password. unfold Config.bind at 1. unfold Config.get_self.
  cbv zeta. destruct (Config.truthy (Config._password (Config.self st))); [reflexivity|].
  unfold Config.bind at 1. rewrite (user_property_eq "password" st).
  destruct (snd (Config.user_property "password" st)) as [pw|e]; [|reflexivity].
  cbn [snd]. unfold Config.or_else, Config.getpass.
  destruct (Config.truthy pw).
  - reflexivity.
  - unfold Config.bind, Config.input.
    destruct (Config.typed st) as [|line rest]; reflexivity.
Qed.

(** X20.  The user name is resolved once.  A call of [username] shows the prompt
    "Username: " at most once, and not at all when a user name is cached
    or the file gives one; and once a call has returned a value that is
    true in Python's sense, that value is cached: every later call returns
    it again and leaves the object and the console as they are.  The same
    holds for [password] and its prompt "Password: ". *)
Theorem credentials_are_resolved_once :
  forall st,
    let u := Config.username st in
    let p := Config.password st in
    (Config.prompts (fst u) = Config.prompts st \/
     Config.prompts (fst u) = Config.prompts st ++ ["Username: "] /\
     Config.truthy (Config._username (Config.self st)) = false /\
     (forall login, snd (Config.user_property "login" st) = Config.Return login ->
                    Config.truthy login = false)) /\
    (forall v, snd u = Config.Return v -> Config.truthy v = true ->
               Config.username (fst u) = (fst u, Config.Return v)) /\
    (Config.prompts (fst p) = Config.prompts st \/
     Config.prompts (fst p) = Config.prompts st ++ ["Password: "] /\
     Config.truthy (Config._password (Config.self st)) = false /\
     (forall pw, snd (Config.user_property "password" st) = Config.Return pw ->
                 Config.truthy pw = false)) /\
    (forall v, snd p = Config.Return v -> Config.truthy v = true ->
               Config.password (fst p) = (fst p, Config.Return v)).
Proof.
  intros st u p. unfold u, p. clear u p. split; [|split; [|split]].
  - rewrite username_cases. cbv zeta.
    destruct (Config.truthy (Config._username (Config.self st))) eqn:C; [now left|].
    destruct (snd (Config.user_property "login" st)) as [login|e]; [|now left].
    destruct (Config.truthy login) eqn:L; [now left|].
    right. split; [|split; [reflexivity|]].
    + unfold Config.input. destruct (Config.typed st); reflexivity.
    + intros l E. now inversion E; subst.
  - intros v. rewrite username_cases. cbv zeta.
    destruct (Config.truthy (Config._username (Config.self st))) eqn:C.
    + cbn [fst snd]. intros E T. inversion E; subst.
      rewrite username_cases. cbv zeta. now rewrite C.
    + destruct (snd (Config.user_property "login" st)) as [login|e]; [|discriminate].
      destruct (Config.truthy login) eqn:L.
      * cbn [fst snd]. intros E T. inversion E; subst.
        rewrite username_cases. cbv zeta. cbn [Config.set_username fst Config.self Config._username].
        now rewrite T.
      * destruct (Config.typed st) as [|line rest]; [discriminate|].
        cbn [fst snd]. intros E T. inversion E; subst.
        rewrite username_cases. cbv zeta. cbn [Config.set_username fst Config.self Config._username].
        now rewrite T.
  - rewrite password_cases. cbv zeta.
    destruct (Config.truthy (Config._password (Config.self st))) eqn:C; [now left|].
    destruct (snd (Config.user_property "password" st)) as [pw|e]; [|now left].
    destruct (Config.truthy pw) eqn:L; [now left|].
    right. split; [|split; [reflexivity|]].
    + unfold Config.input. destruct (Config.typed st); reflexivity.
    + intros l E. now inversion E; subst.
  - intros v. rewrite password_cases. cbv zeta.
    destruct (Config.truthy (Config._password (Config.self st))) eqn:C.
    + cbn [fst snd]. intros E T. inversion E; subst.
      rewrite password_cases. cbv zeta. now rewrite C.
    + destruct (snd (Config.user_property "password" st)) as [pw|e]; [|discriminate].
      destruct (Config.truthy pw) eqn:L.
      * cbn [fst snd]. intros E T. inversion E; subst.
        rewrite password_cases. cbv zeta. cbn [Config.set_password fst Config.self Config._password].
        now rewrite T.
      * destruct (Config.typed st) as [|line rest]; [discriminate|].
        cbn [fst snd]. intros E T. inversion E; subst.
        rewrite password_cases. cbv zeta. cbn [Config.set_password fst Config.self Config._password].
        now rewrite T.
Qed.

(** ** The check of the configuration *)

Lemma files_destination_pure O st : fst (Config.files_destination O st) = st.
Proof.
  unfold Config.files_destination, Config.bind, Config.get_self.
  destruct (Config.args_destination (Config.self st)); [reflexivity|].
  destruct (Config.truthy (Config.config (Config.self st))); [|reflexivity].
  cbn [negb]. destruct (Config.config (Config.self st)) as [| | | | | |d]; try reflexivity.
  cbn [Config.get Config.ret].
  destruct (match Fs.assoc "files_destination" d with Some v => v | None => _ end);
    reflexivity.
Qed.

Lemma media_destination_pure O st : fst (Config.media_destination O st) = st.
Proof.
  unfold Config.media_destination, Config.bind, Config.get_self.
  destruct (Config.args_media (Config.self st)); [reflexivity|].
  destruct (Config.truthy (Config.config (Config.self st))); [|reflexivity].
  cbn [negb]. destruct (Config.config (Config.self st)) as [| | | | | |d]; try reflexivity.
  cbn [Config.get Config.ret].
  destruct (match Fs.assoc "media_destination" d with Some v => v | None => _ end);
    reflexivity.
Qed.

Lemma files_destination_same O st st' :
  Config.args_destination (Config.self st) = Config.args_destination (Config.self st') ->
  Config.config (Config.self st) = Config.config (Config.self st') ->
  snd (Config.files_destination O st) = snd (Config.files_destination O st').
Proof.
  intros A C.
  destruct st as [[a m c u p] ty pr rp], st' as [[a' m' c' u' p'] ty' pr' rp'].
  cbn [Config.self Config.config Config.args_destination] in A, C. subst.
  unfold Config.files_destination, Config.bind, Config.get_self.
  cbn [Config.self Config.config Config.args_destination fst snd].
  destruct a'; [reflexivity|]. cbn.
  destruct c' as [|b|z|f|s|l|d]; try reflexivity.
  - destruct b; reflexivity.
  - cbn. destruct z; reflexivity.
  - destruct f; reflexivity.
  - cbn. destruct s; reflexivity.
  - destruct l; reflexivity.
  - destruct d as [|e d]; [reflexivity|].
    cbn [Config.truthy negb Config.get Config.ret].
    destruct (match Fs.assoc "files_destination" (e :: d) with Some v => v | None => _ end);
      reflexivity.
Qed.

Lemma media_destination_same O st st' :
  Config.args_media (Config.self st) = Config.args_media (Config.self st') ->
  Config.config (Config.self st) = Config.config (Config.self st') ->
  snd (Config.media_destination O st) = snd (Config.media_destination O st').
Proof.
  intros A C.
  destruct st as [[a m c u p] ty pr rp], st' as [[a' m' c' u' p'] ty' pr' rp'].
  cbn [Config.self Config.config Config.args_media] in A, C. subst.
  unfold Config.media_destination, Config.bind, Config.get_self.
  cbn [Config.self Config.config Config.args_media fst snd].
  destruct m'; [reflexivity|]. cbn.
  destruct c' as [|b|z|f|s|l|d]; try reflexivity.
  - destruct b; reflexivity.
  - cbn. destruct z; reflexivity.
  - destruct f; reflexivity.
  - cbn. destruct s; reflexivity.
  - destruct l; reflexivity.
  - destruct d as [|e d]; [reflexivity|].
    cbn [Config.truthy negb Config.get Config.ret].
    destruct (match Fs.assoc "media_destination" (e :: d) with Some v => v | None => _ end);
      reflexivity.
Qed.

Lemma files_destination_no_ConfigError O st msg :
  snd (Config.files_destination O st) <> Config.Throw (Config.ConfigError msg).
Proof.
  destruct st as [[a m c u p] ty pr rp].
  unfold Config.files_destination, Config.bind, Config.get_self.
  cbn [Config.self Config.config Config.args_destination fst snd].
  destruct a; [discriminate|]. cbn.
  destruct c as [|b|z|f|s|l|d]; try discriminate.
  - destruct b; discriminate.
  - cbn. destruct z; discriminate.
  - destruct f; discriminate.
  - cbn. destruct s; discriminate.
  - destruct l; discriminate.
  - destruct d as [|e d]; [discriminate|].
    cbn [Config.truthy negb Config.get Config.ret].
    destruct (match Fs.assoc "files_destination" (e :: d) with Some v => v | None => _ end);
      discriminate.
Qed.

Lemma media_destination_no_ConfigError O st msg :
  snd (Config.media_destination O st) <> Config.Throw (Config.ConfigError msg).
Proof.
  destruct st as [[a m c u p] ty pr rp].
  unfold Config.media_destination, Config.bind, Config.get_self.
  cbn [Config.self Config.config Config.args_media fst snd].
  destruct m; [discriminate|]. cbn.
  destruct c as [|b|z|f|s|l|d]; try discriminate.
  - destruct b; discriminate.
  - cbn. destruct z; discriminate.
  - destruct f; discriminate.
  - cbn. destruct s; discriminate.
  - destruct l; discriminate.
  - destruct d as [|e d]; [discriminate|].
    cbn [Config.truthy negb Config.get Config.ret].
    destruct (match Fs.assoc "media_destination" (e :: d) with Some v => v | None => _ end);
      discriminate.
Qed.

(** What [_check] finds out about the destinations before it turns to the
    credentials. *)
Lemma check_cases O st :
  Config._check O st =
  match snd (Config.files_destination O st) with
  | Config.Throw e => (st, Config.Throw e)
  | Config.Return fd =>
      match (if Config.truthy fd then Config.Return true
             else match snd (Config.media_destination O st) with
                  | Config.Return md => Config.Return (Config.truthy md)
                  | Config.Throw e => Config.Throw e
                  end) with
      | Config.Throw e => (st, Config.Throw e)
      | Config.Return false => (st, Config.Throw (Config.ConfigError Config.msg_no_target))
      | Config.Return true =>
          match Config.username st with
          | (st1, Config.Throw e) => (st1, Config.Throw e)
          | (st1, Config.Return u) =>
              if Config.truthy u then
                match Config.password st1 with
                | (st2, Config.Throw e) => (st2, Config.Throw e)
                | (st2, Config.Return p) =>
                    if Config.truthy p then (st2, Config.Return tt)
                    else (st2, Config.Throw (Config.ConfigError "Password is missing"))
                end
              else (st1, Config.Throw (Config.ConfigError "Username is missing"))
          end
      end
  end.
Proof.
  unfold Config._check. unfold Config.bind at 1.
  generalize (files_destination_pure O st).
  destruct (Config.files_destination O st) as [s0 [fd|e]]; cbn [fst snd]; intros ->;
    [|reflexivity].
  unfold Config.bind at 1.
  destruct (Config.truthy fd); cbn [negb Config.ret].
  - unfold Config.bind at 1.
    destruct (Config.username st) as [st1 [u|e]]; [|reflexivity].
    destruct (Config.truthy u); cbn [negb]; [|reflexivity].
    unfold Config.bind.
    destruct (Config.password st1) as [st2 [p|e]]; [|reflexivity].
    destruct (Config.truthy p); reflexivity.
  - unfold Config.bind at 1.
    generalize (media_destination_pure O st).
    destruct (Config.media_destination O st) as [s0 [md|e]]; cbn [fst snd]; intros ->;
      [|reflexivity].
    cbn [Config.ret].
    destruct (Config.truthy md); cbn [negb].
    + unfold Config.bind at 1.
      destruct (Config.username st) as [st1 [u|e]]; [|reflexivity].
      destruct (Config.truthy u); cbn [negb]; [|reflexivity].
      unfold Config.bind.
      destruct (Config.password st1) as [st2 [p|e]]; [|reflexivity].
      destruct (Config.truthy p); reflexivity.
    + reflexivity.
Qed.

Lemma username_effect st :
  let st1 := fst (Config.username st) in
  Config.args_destination (Config.self st1) = Config.args_destination (Config.self st) /\
  Config.args_media (Config.self st1) = Config.args_media (Config.self st) /\
  Config.config (Config.self st1) = Config.config (Config.self st) /\
  Config._password (Config.self st1) = Config._password (Config.self st) /\
  Config.replaced st1 = Config.replaced st /\
  (forall u, snd (Config.username st) = Config.Return u -> Config.truthy u = true ->
             Config._username (Config.self st1) = u) /\
  (forall u, snd (Config.username st) = Config.Return u -> Config.truthy u = false ->
             Config.prompts st1 = Config.prompts st ++ ["Username: "]).
Proof.
  rewrite username_cases. cbv zeta.
  destruct (Config.truthy (Config._username (Config.self st))) eqn:C.
  { cbn [fst snd]. repeat split; intros u E T; inversion E; subst; congruence. }
  destruct (snd (Config.user_property "login" st)) as [login|e].
  2:{ cbn [fst snd]. repeat split; intros u E T; discriminate. }
  destruct (Config.truthy login) eqn:L.
  { cbn [fst snd Config.set_username Config.self Config.args_destination Config.args_media
         Config.config Config._password Config._username Config.replaced].
    repeat split; intros u E T; inversion E; subst; congruence. }
  unfold Config.input. destruct (Config.typed st) as [|line rest].
  { cbn [fst snd Config.self Config.replaced]. repeat split; intros u E T; discriminate. }
  cbn [fst snd Config.set_username Config.self Config.args_destination Config.args_media
       Config.config Config._password Config._username Config.replaced Config.prompts].
  repeat split; intros u E T; inversion E; subst; reflexivity.
Qed.

Lemma password_effect st :
  let st1 := fst (Config.password st) in
  Config.args_destination (Config.self st1) = Config.args_destination (Config.self st) /\
  Config.args_media (Config.self st1) = Config.args_media (Config.self st) /\
  Config.config (Config.self st1) = Config.config (Config.self st) /\
  Config._username (Config.self st1) = Config._username (Config.self st) /\
  Config.replaced st1 = Config.replaced st /\
  (forall p, snd (Config.password st) = Config.Return p -> Config.truthy p = true ->
             Config._password (Config.self st1) = p) /\
  (forall p, snd (Config.password st) = Config.Return p -> Config.truthy p = false ->
             Config.prompts st1 = Config.prompts st ++ ["Password: "]).
Proof.
  rewrite password_cases. cbv zeta.
  destruct (Config.truthy (Config._password (Config.self st))) eqn:C.
  { cbn [fst snd]. repeat split; intros u E T; inversion E; subst; congruence. }
  destruct (snd (Config.user_property "password" st)) as [pw|e].
  2:{ cbn [fst snd]. repeat split; intros u E T; discriminate. }
  destruct (Config.truthy pw) eqn:L.
  { cbn [fst snd Config.set_password Config.self Config.args_destination Config.args_media
         Config.config Config._password Config._username Config.replaced].
    repeat split; intros u E T; inversion E; subst; congruence. }
  unfold Config.input. destruct (Config.typed st) as [|line rest].
  { cbn [fst snd Config.self Config.replaced]. repeat split; intros u E T; discriminate. }
  cbn [fst snd Config.set_password Config.self Config.args_destination Config.args_media
       Config.config Config._password Config._username Config.replaced Config.prompts].
  repeat split; intros u E T; inversion E; subst; reflexivity.
Qed.

(** X21.  When [_check] returns, the configuration is ready: one of the two
    destinations is a non-empty path, and a user name and a password that
    are true in Python's sense are cached, so that reading them again asks
    nothing.  The check has not changed the file's dictionary and has
    stored nothing. *)
Theorem check_passed_means_ready :
  forall O st st1,
    Config._check O st = (st1, Config.Return tt) ->
    (exists d, Config.truthy d = true /\
               (Config.files_destination O st1 = (st1, Config.Return d) \/
                Config.media_destination O st1 = (st1, Config.Return d))) /\
    Config.truthy (Config._username (Config.self st1)) = true /\
    Config.truthy (Config._password (Config.self st1)) = true /\
    Config.username st1 = (st1, Config.Return (Config._username (Config.self st1))) /\
    Config.password st1 = (st1, Config.Return (Config._password (Config.self st1))) /\
    Config.config (Config.self st1) = Config.config (Config.self st) /\
    Config.replaced st1 = Config.replaced st.
Proof.
  intros O st st1. rewrite check_cases.
  destruct (snd (Config.files_destination O st)) as [fd|e] eqn:F; [|discriminate].
  destruct (if Config.truthy fd then _ else _) as [[|]|e] eqn:D; try discriminate.
  generalize (username_effect st). cbv zeta.
  destruct (Config.username st) as [s1 [u|e]]; [|discriminate]. cbn [fst snd].
  intros (A1 & M1 & C1 & P1 & R1 & U1 & _).
  destruct (Config.truthy u) eqn:Tu; [|discriminate].
  specialize (U1 u eq_refl Tu).
  generalize (password_effect s1). cbv zeta.
  destruct (Config.password s1) as [s2 [p|e]]; [|discriminate]. cbn [fst snd].
  intros (A2 & M2 & C2 & U2 & R2 & P2 & _).
  destruct (Config.truthy p) eqn:Tp; [|discriminate].
  specialize (P2 p eq_refl Tp).
  intros H. inversion H; subst s2. clear H.
  assert (Tu1 : Config.truthy (Config._username (Config.self st1)) = true) by congruence.
  assert (Tp1 : Config.truthy (Config._password (Config.self st1)) = true) by congruence.
  split; [|split; [exact Tu1|split; [exact Tp1|split; [|split; [|split]]]]].
  - destruct (Config.truthy fd) eqn:Tf.
    + exists fd. split; [exact Tf|]. left.
      rewrite <- (files_destination_pure O st1) at 2.
      rewrite <- F, (files_destination_same O st st1) by congruence.
      now destruct (Config.files_destination O st1).
    + destruct (snd (Config.media_destination O st)) as [md|e] eqn:Md; [|discriminate].
      injection D as Tm. exists md. split; [exact Tm|]. right.
      rewrite <- (media_destination_pure O st1) at 2.
      rewrite <- Md, (media_destination_same O st st1) by congruence.
      now destruct (Config.media_destination O st1).
  - rewrite username_cases. cbv zeta. now rewrite Tu1.
  - rewrite password_cases. cbv zeta. now rewrite Tp1.
  - congruence.
  - congruence.
Qed.

Lemma check_passed_means_ready_witness :
  Config.username
    (fst (Config._check Config.os0
            (Config.start (Config.fresh None None Config.file0) ["secret"])))
  = (fst (Config._check Config.os0
            (Config.start (Config.fresh None None Config.file0) ["secret"])),
     Config.Return (Config.VStr "u")).
Proof.
  destruct (check_passed_means_ready Config.os0
              (Config.start (Config.fresh None None Config.file0) ["secret"]) _ eq_refl)
    as (_ & _ & _ & H & _).
  exact H.
Defined.

Lemma username_no_ConfigError st msg :
  snd (Config.username st) <> Config.Throw (Config.ConfigError msg).
Proof.
  rewrite username_cases. cbv zeta.
  destruct (Config.truthy _); [cbn [snd]; discriminate|].
  generalize (user_property_no_ConfigError "login" st msg).
  destruct (snd (Config.user_property "login" st)) as [l|e']; [|intros N; cbn [snd]; congruence].
  intros _. destruct (Config.truthy l); [cbn [snd]; discriminate|].
  destruct (Config.typed st); cbn [snd]; discriminate.
Qed.

Lemma password_no_ConfigError st msg :
  snd (Config.password st) <> Config.Throw (Config.ConfigError msg).
Proof.
  rewrite password_cases. cbv zeta.
  destruct (Config.truthy _); [cbn [snd]; discriminate|].
  generalize (user_property_no_ConfigError "password" st msg).
  destruct (snd (Config.user_property "password" st)) as [l|e']; [|intros N; cbn [snd]; congruence].
  intros _. destruct (Config.truthy l); [cbn [snd]; discriminate|].
  destruct (Config.typed st); cbn [snd]; discriminate.
Qed.

(** X22.  [_check] looks at the destinations first, then at the user name, then
    at the password, and stops at the first that is missing.  When both
    destinations are missing nothing has been asked and the object is as
    before; when the user name is missing it was asked for once and the
    password was not; when the password is missing a user name is
    cached. *)
Theorem check_fails_in_order :
  forall O st st1 msg,
    Config._check O st = (st1, Config.Throw (Config.ConfigError msg)) ->
    (msg = Config.msg_no_target /\ st1 = st) \/
    (msg = "Username is missing" /\
     Config.prompts st1 = Config.prompts st ++ ["Username: "]) \/
    (msg = "Password is missing" /\
     Config.truthy (Config._username (Config.self st1)) = true /\
     exists before, Config.prompts st1 = before ++ ["Password: "]).
Proof.
  intros O st st1 msg. rewrite check_cases.
  generalize (files_destination_no_ConfigError O st msg).
  destruct (snd (Config.files_destination O st)) as [fd|e] eqn:F;
    [intros _|intros N H; inversion H; subst; congruence].
  destruct (if Config.truthy fd then _ else _) as [[|]|e] eqn:D.
  2:{ intros H. inversion H; subst. now left. }
  2:{ generalize (media_destination_no_ConfigError O st msg).
      intros N H. destruct (Config.truthy fd); [discriminate|].
      destruct (snd (Config.media_destination O st)); [discriminate|].
      inversion H; subst. congruence. }
  generalize (username_effect st).
  assert (NU := username_no_ConfigError st).
  cbv zeta.
  destruct (Config.username st) as [s1 [u|e]]; cbn [fst snd] in *.
  2:{ intros _ H. inversion H; subst. now destruct (NU msg). }
  intros (A1 & M1 & C1 & P1 & R1 & U1 & U0).
  destruct (Config.truthy u) eqn:Tu.
  2:{ intros H. inversion H; subst. right. left. split; [reflexivity|]. now apply (U0 u). }
  specialize (U1 u eq_refl Tu).
  generalize (password_effect s1).
  assert (NP := password_no_ConfigError s1).
  cbv zeta.
  destruct (Config.password s1) as [s2 [p|e]]; cbn [fst snd] in *.
  2:{ intros _ H. inversion H; subst. now destruct (NP msg). }
  intros (A2 & M2 & C2 & U2 & R2 & _ & P0).
  destruct (Config.truthy p) eqn:Tp; [discriminate|].
  intros H. inversion H; subst. right. right.
  split; [reflexivity|]. split; [congruence|].
  exists (Config.prompts s1). now apply (P0 p).
Qed.

Lemma check_fails_in_order_witness :
  Config._check Config.os0 (Config.start (Config.fresh None None Config.VNone) ["u"; "p"])
  = (Config.start (Config.fresh None None Config.VNone) ["u"; "p"],
     Config.Throw (Config.ConfigError Config.msg_no_target)).
Proof.
  destruct (check_fails_in_order Config.os0
              (Config.start (Config.fresh None None Config.VNone) ["u"; "p"])
              (fst (Config._check Config.os0
                      (Config.start (Config.fresh None None Config.VNone) ["u"; "p"])))
              Config.msg_no_target eq_refl) as [[_ H]|[[H _]|[H _]]].
  - reflexivity.
  - discriminate H.
  - discriminate H.
Defined.

(** ** The two updates together *)

(** What an update leaves: the dictionary with the key set, handed to
    [ConfigCreator.replace_config]. *)
Lemma update_steps (update : Config.value -> Config.P unit) key :
  (forall v, update v =
             Config.bind (Config.get_self Config.config) (fun c =>
             if negb (Config.truthy c) then Config.ret tt
             else Config.bind (Config.setitem_config key v) Config.replace_config)) ->
  forall st v e d,
    Config.config (Config.self st) = Config.VDict (e :: d) ->
    exists e' d',
      Config.config (Config.self (fst (update v st))) = Config.VDict (e' :: d') /\
      Config.replaced (fst (update v st)) = Config.replaced st ++ [Config.VDict (e' :: d')] /\
      forall k, Fs.assoc k (e' :: d') = if String.eqb k key then Some v else Fs.assoc k (e :: d).
Proof.
  intros U st v e d H.
  assert (E : update v st =
              (fst (Config.replace_config (Config.VDict (Fs.assoc_set key v (e :: d)))
                      (fst (Config.set_config (Config.VDict (Fs.assoc_set key v (e :: d))) st))),
               Config.Return tt)).
  { rewrite U. unfold Config.bind at 1. unfold Config.get_self. rewrite H.
    cbn [Config.truthy negb].
    now rewrite (cfg_bind_return _ _ _ _ _ (setitem_config_dict key v _ _ H)). }
  rewrite E.
  cbn [Config.replace_config Config.set_config fst Config.self Config.config Config.replaced].
  destruct (Fs.assoc_set key v (e :: d)) as [|e' d'] eqn:A.
  { destruct e as [k0 v0]. cbn [Fs.assoc_set] in A.
    destruct (String.eqb key k0); discriminate. }
  exists e', d'. split; [reflexivity|]. split; [reflexivity|].
  intros k. rewrite <- A.
  destruct (String.eqb_spec k key) as [->|N].
  - apply assoc_set_eq.
  - apply assoc_set_neq. congruence.
Qed.

Lemma last_sync_steps st v e d :
  Config.config (Config.self st) = Config.VDict (e :: d) ->
  exists e' d',
    Config.config (Config.self (fst (Config.update_last_sync v st))) = Config.VDict (e' :: d') /\
    Config.replaced (fst (Config.update_last_sync v st))
    = Config.replaced st ++ [Config.VDict (e' :: d')] /\
    forall k, Fs.assoc k (e' :: d')
              = if String.eqb k "last_sync" then Some v else Fs.assoc k (e :: d).
Proof. apply (update_steps Config.update_last_sync "last_sync"). reflexivity. Qed.

Lemma plugins_steps st v e d :
  Config.config (Config.self st) = Config.VDict (e :: d) ->
  exists e' d',
    Config.config (Config.self (fst (Config.update_plugins v st))) = Config.VDict (e' :: d') /\
    Config.replaced (fst (Config.update_plugins v st))
    = Config.replaced st ++ [Config.VDict (e' :: d')] /\
    forall k, Fs.assoc k (e' :: d')
              = if String.eqb k "plugins" then Some v else Fs.assoc k (e :: d).
Proof. apply (update_steps Config.update_plugins "plugins"). reflexivity. Qed.

(** X23.  [update_last_sync] and [update_plugins] do not disturb each other: on
    a configuration that is a dictionary with at least one key, after both
    updates, in either order, [last_sync] reads what was stored (or 0 for a
    value that is false in Python's sense) and [plugins] reads what was
    stored, every key of the dictionary has the same value in both orders,
    and [ConfigCreator.replace_config] was called twice. *)
Theorem updates_do_not_interfere :
  forall st v p e d,
    Config.config (Config.self st) = Config.VDict (e :: d) ->
    let a := fst (Config.update_plugins p (fst (Config.update_last_sync v st))) in
    let b := fst (Config.update_last_sync v (fst (Config.update_plugins p st))) in
    Config.last_sync a = (a, Config.Return (if Config.truthy v then v else Config.VInt 0)) /\
    Config.plugins a = (a, Config.Return p) /\
    Config.last_sync b = (b, Config.Return (if Config.truthy v then v else Config.VInt 0)) /\
    Config.plugins b = (b, Config.Return p) /\
    (forall k default, Config.get (Config.config (Config.self a)) k default a
                       = (a, snd (Config.get (Config.config (Config.self b)) k default b))) /\
    List.length (Config.replaced a) = 2 + List.length (Config.replaced st) /\
    List.length (Config.replaced b) = 2 + List.length (Config.replaced st).
Proof.
  intros st v p e d H.
  destruct (last_sync_steps st v e d H) as (e1 & d1 & C1 & R1 & G1).
  destruct (plugins_steps _ p e1 d1 C1) as (e2 & d2 & C2 & R2 & G2).
  destruct (plugins_steps st p e d H) as (e3 & d3 & C3 & R3 & G3).
  destruct (last_sync_steps _ v e3 d3 C3) as (e4 & d4 & C4 & R4 & G4).
  cbv zeta.
  set (a := fst (Config.update_plugins p (fst (Config.update_last_sync v st)))) in *.
  set (b := fst (Config.update_last_sync v (fst (Config.update_plugins p st)))) in *.
  assert (Ta : Config.truthy (Config.config (Config.self a)) = true) by now rewrite C2.
  assert (Tb : Config.truthy (Config.config (Config.self b)) = true) by now rewrite C4.
  assert (La : forall k, Fs.assoc k (e2 :: d2) =
                         if String.eqb k "plugins" then Some p
                         else if String.eqb k "last_sync" then Some v
                         else Fs.assoc k (e :: d)).
  { intros k. rewrite G2, G1. destruct (String.eqb k "plugins"); reflexivity. }
  assert (Lb : forall k, Fs.assoc k (e4 :: d4) =
                         if String.eqb k "plugins" then Some p
                         else if String.eqb k "last_sync" then Some v
                         else Fs.assoc k (e :: d)).
  { intros k. rewrite G4, G3.
    destruct (String.eqb_spec k "last_sync") as [->|]; reflexivity. }
  repeat split.
  - unfold Config.last_sync, Config.bind, Config.get_self. rewrite Ta, C2.
    cbn [negb Config.get Config.ret]. rewrite La. cbn [String.eqb Ascii.eqb Bool.eqb].
    now destruct (Config.truthy v).
  - unfold Config.plugins, Config.bind, Config.get_self. rewrite Ta, C2.
    cbn [negb Config.get Config.ret]. now rewrite La.
  - unfold Config.last_sync, Config.bind, Config.get_self. rewrite Tb, C4.
    cbn [negb Config.get Config.ret]. rewrite Lb. cbn [String.eqb Ascii.eqb Bool.eqb].
    now destruct (Config.truthy v).
  - unfold Config.plugins, Config.bind, Config.get_self. rewrite Tb, C4.
    cbn [negb Config.get Config.ret]. now rewrite Lb.
  - intros k default. rewrite C2, C4. cbn [Config.get Config.ret snd].
    now rewrite La, Lb.
  - rewrite R2, R1, !length_app. simpl. lia.
  - rewrite R4, R3, !length_app. simpl. lia.
Qed.

Lemma updates_do_not_interfere_witness :
  Config.plugins
    (fst (Config.update_last_sync (Config.VInt 9)
            (fst (Config.update_plugins (Config.VList [Config.VStr "media"])
                    (Config.start (Config.fresh None None Config.file0) [])))))
  = (fst (Config.update_last_sync (Config.VInt 9)
            (fst (Config.update_plugins (Config.VList [Config.VStr "media"])
                    (Config.start (Config.fresh None None Config.file0) [])))),
     Config.Return (Config.VList [Config.VStr "media"])).
Proof.
  destruct (updates_do_not_interfere
              (Config.start (Config.fresh None None Config.file0) [])
              (Config.VInt 9) (Config.VList [Config.VStr "media"]) _ _ eq_refl)
    as (_ & _ & _ & H & _).
  exact H.
Defined.
